(** * The multi-installation canvas graph engine

    A shallow embedding of the canvas code of the CBAM front end, and the
    properties its specification states about it.

    - [Js]          the JavaScript primitives the handlers rely on
                    (truthiness of a numeric id, the node-id regular
                    expression, [parseInt], [String.prototype.trim]);
    - [EdgeSync]    [extractNodeId] and [handleEdgeCreate]
                    (hooks/useProcessCanvas.ts);
    - [GraphStore]  the per-installation canvases of
                    components/cbam/ProcessManager.tsx: the commit effect
                    and [handleInstallSelect];
    - [CanvasHook]  the same store as hooks/useProcessCanvas.ts keeps it,
                    restored by an effect;
    - [NodeFactory] product and process nodes, with the read-only flag;
    - [Groups]      [createGroupFromSelectedNodes], [handleCreateGroup] and
                    [updateGroupSize] of the flow editor;
    - [Double]      the arithmetic of JavaScript numbers, with its
                    rounding;
    - [DoubleGroups] [updateGroupSize] in that arithmetic;
    - [Routing]     the strategies of [useEdgeRouting] and
                    [applyAutoRouting];
    - [Retry]       [retryRequest] and the handler of rejected responses
                    of the axios client;
    - [AuthForm]    [validateForm] and [handleSubmit] of the login and
                    registration form;
    - [Catalog]     the product and process lists fetched for an
                    installation;
    - [TwoStores]   the component and the hook on the same session;
    - [FlowApi]     [saveFlowState] and [convertBackendToFrontend] of
                    [useReactFlowAPI];
    - [MatDir]      the direct-emissions modal of the component.

    Identifiers are integers ([Z]); strings are byte strings in UTF-8.
    Canvas coordinates are rationals ([Q]), the values of finite doubles.
    [Groups] and [NodeFactory] write a coordinate by the formula of the
    source; their properties are equalities between such formulas and
    bounds by [Math.min] and [Math.max], which do not round. Where a
    property compares a computed coordinate with another number,
    [DoubleGroups] evaluates the formula as the source does, every
    subtraction and addition rounded to the nearest double. Every handler
    is modelled at a quiescent point of the React event loop: the state it
    reads is the state of the last completed render, and the effects that
    its updates trigger have run before the next handler starts. *)

From stdpp Require Import gmap strings list pretty.
From Stdlib Require Import Ascii String QArith Qminmax Lqa Qround Qabs Qpower.
From Corelib Require PrimFloat FloatOps SpecFloat.

Local Open Scope string_scope.
Local Open Scope list_scope.
Local Open Scope Z_scope.

(** ** JavaScript primitives *)

Module Js.

(** [if (id)] on a [number | null]: [null] and [0] are falsy. *)
Definition truthy (id : option Z) : bool :=
  match id with
  | Some n => negb (n =? 0)
  | None => false
  end.

(** [\d] of a regular expression without the unicode flag: [0-9]. *)
Definition is_digit (c : ascii) : bool :=
  let n := nat_of_ascii c in ((48 <=? n) && (n <=? 57))%nat.

Definition digit_value (c : ascii) : Z := Z.of_nat (nat_of_ascii c) - 48.

(** [s.startsWith(p)], returning what follows the prefix. *)
Fixpoint strip_prefix (p s : string) : option string :=
  match p with
  | EmptyString => Some s
  | String a p' =>
      match s with
      | EmptyString => None
      | String b s' => if Ascii.eqb a b then strip_prefix p' s' else None
      end
  end.

(** The greedy [\d*]: the longest run of digits at the head of [s]. *)
Fixpoint take_digits (s : string) : string :=
  match s with
  | EmptyString => EmptyString
  | String c s' => if is_digit c then String c (take_digits s') else EmptyString
  end.

(** One alternative of [(?:product|process|group)-(\d+)] tried at the head
    of [s]; the result is the text of capture group 1. *)
Definition match_alternative (kind s : string) : option string :=
  match strip_prefix (kind +:+ "-") s with
  | Some rest =>
      match take_digits rest with
      | EmptyString => None
      | ds => Some ds
      end
  | None => None
  end.

(** The alternatives are tried in the order they are written. *)
Definition match_here (s : string) : option string :=
  match match_alternative "product" s with
  | Some ds => Some ds
  | None =>
      match match_alternative "process" s with
      | Some ds => Some ds
      | None => match_alternative "group" s
      end
  end.

(** [nodeId.match(/(?:product|process|group)-(\d+)/)]: the pattern is not
    anchored, so the leftmost position at which it matches wins. *)
Fixpoint regex_match (s : string) : option string :=
  match match_here s with
  | Some ds => Some ds
  | None =>
      match s with
      | EmptyString => None
      | String _ s' => regex_match s'
      end
  end.

(** [parseInt] on a non-empty run of decimal digits (the only argument the
    decoder passes to it). The value is the integer written, which is what
    JavaScript returns up to [MAX_SAFE_INTEGER]. *)
Fixpoint parseInt_from (acc : Z) (ds : string) : Z :=
  match ds with
  | EmptyString => acc
  | String c ds' => parseInt_from (acc * 10 + digit_value c) ds'
  end.

Definition parseInt (ds : string) : Z := parseInt_from 0 ds.

Fixpoint all_chars (p : ascii -> bool) (s : string) : bool :=
  match s with
  | EmptyString => true
  | String c s' => p c && all_chars p s'
  end.

(** [Number.MAX_SAFE_INTEGER]: up to it an integer read by [parseInt] is
    the integer written. *)
Definition MAX_SAFE_INTEGER : Z := 2 ^ 53 - 1.

(** The white space [trim] removes. In the ASCII range: TAB, LF, VT, FF, CR
    and SPACE. *)
Definition is_space (c : ascii) : bool :=
  let n := N_of_ascii c in ((9 <=? n) && (n <=? 13) || (n =? 32))%N.

(** U+00A0, in UTF-8. *)
Definition is_space2 (a b : ascii) : bool :=
  ((N_of_ascii a =? 194) && (N_of_ascii b =? 160))%N.

(** U+1680, U+2000 to U+200A, U+2028, U+2029, U+202F, U+205F, U+3000 and
    U+FEFF, in UTF-8. *)
Definition is_space3 (a b c : ascii) : bool :=
  let '(a, b, c) := (N_of_ascii a, N_of_ascii b, N_of_ascii c) in
  ((a =? 225) && (b =? 154) && (c =? 128)
   || (a =? 226) && (b =? 128)
      && ((128 <=? c) && (c <=? 138) || (c =? 168) || (c =? 169) || (c =? 175))
   || (a =? 226) && (b =? 129) && (c =? 159)
   || (a =? 227) && (b =? 128) && (c =? 128)
   || (a =? 239) && (b =? 187) && (c =? 191))%N.

(** [!s.trim()]: the trimmed string is empty exactly when [s] is made of
    white space only. *)
Fixpoint trim_is_empty (s : string) : bool :=
  match s with
  | EmptyString => true
  | String a s1 =>
      if is_space a then trim_is_empty s1
      else
        match s1 with
        | EmptyString => false
        | String b s2 =>
            if is_space2 a b then trim_is_empty s2
            else
              match s2 with
              | EmptyString => false
              | String c s3 => is_space3 a b c && trim_is_empty s3
              end
        end
  end.

End Js.

(** ** EdgeSync: decoding node ids and committing confirmed edges
    (hooks/useProcessCanvas.ts, [handleEdgeCreate]) *)

Module EdgeSync.
Import Js.

(** [const extractNodeId = (nodeId) => { const match = nodeId.match(...);
     return match ? parseInt(match[1]) : 0; }] *)
Definition extractNodeId (nodeId : string) : Z :=
  match regex_match nodeId with
  | Some ds => parseInt ds
  | None => 0
  end.

(** ReactFlow's [Connection]: both ends are [string | null]. *)
Record Connection := {
  source : option string;
  target : option string
}.

(** The body of the POST request. *)
Record EdgeCreateRequest := {
  source_id : Z;
  target_id : Z;
  edge_kind : string
}.

(** [response.data]: the edge record as the backend stored it. *)
Record BackendEdge := {
  be_id : Z;
  be_source_id : Z;
  be_target_id : Z;
  be_edge_kind : string
}.

(** What the [catch] clause reads of a thrown error. *)
Record AxiosError := {
  response_status : option Z;
  code : option string
}.

(** The awaited [axiosClient.post]: it resolves with a status and a body, or
    it throws. *)
Inductive PostOutcome :=
  | Resolved (status : Z) (data : BackendEdge)
  | Rejected (error : AxiosError).

(** The edge object handed to ReactFlow. *)
Record Edge := {
  id : string;
  edge_source : string;
  edge_target : string;
  type : string;
  edgeData : BackendEdge
}.

#[global] Instance BackendEdge_eq_dec : EqDecision BackendEdge.
Proof. solve_decision. Defined.
#[global] Instance Edge_eq_dec : EqDecision Edge.
Proof. solve_decision. Defined.

(** The part of the hook's state the handler touches: the live [edges] and
    the [prevEdgesRef] mirror. *)
Record EdgeState := {
  edges : list Edge;
  prevEdgesRef : list Edge
}.

Inductive ConsoleMessage :=
  | InvalidNodeId          (* the decode guard *)
  | EdgeCreateFailed       (* first line of the catch clause *)
  | ServerInternalError    (* status 500 *)
  | BadRequest             (* status 400 *)
  | NetworkError           (* code NETWORK_ERROR *)
  | UnknownError.

Inductive Effect :=
  | HttpPost (body : EdgeCreateRequest)
  | ConsoleError (msg : ConsoleMessage)
  | ChainsCallback.        (* updateProcessChainsAfterEdge() *)

(** The [if]/[else if] ladder of the [catch] clause. *)
Definition classify (error : AxiosError) : ConsoleMessage :=
  if bool_decide (response_status error = Some 500) then ServerInternalError
  else if bool_decide (response_status error = Some 400) then BadRequest
  else if bool_decide (code error = Some "NETWORK_ERROR") then NetworkError
  else UnknownError.

(** The handler up to its [await]: either it gives up ([inr], with what it
    wrote to the console) or it has a request to send ([inl]).  A [null] end
    makes [nodeId.match] throw inside the [try]; the [catch] clause then logs
    an error that has neither a response nor a code. *)
Definition handleEdgeCreate_request (params : Connection)
  : EdgeCreateRequest + list Effect :=
  match source params, target params with
  | Some src, Some tgt =>
      let sourceId := extractNodeId src in
      let targetId := extractNodeId tgt in
      if (sourceId =? 0) || (targetId =? 0)
      then inr [ConsoleError InvalidNodeId]
      else inl {| source_id := sourceId; target_id := targetId;
                  edge_kind := "continue" |}
  | _, _ => inr [ConsoleError EdgeCreateFailed; ConsoleError UnknownError]
  end.

(** The handler after its [await], run on the state current at that time
    ([setEdges] is given an updater function). *)
Definition handleEdgeCreate_response (params : Connection)
    (updateProcessChainsAfterEdge : bool) (outcome : PostOutcome)
    (st : EdgeState) : EdgeState * list Effect :=
  match outcome with
  | Resolved status newEdge =>
      if status =? 201 then
        let edgeToAdd :=
          {| id := "e-" +:+ pretty (be_id newEdge);
             edge_source := default "" (source params);
             edge_target := default "" (target params);
             type := "custom";
             edgeData := newEdge |} in
        let newEdges := edges st ++ [edgeToAdd] in
        ({| edges := newEdges; prevEdgesRef := newEdges |},
         if updateProcessChainsAfterEdge then [ChainsCallback] else [])
      else (st, [])
  | Rejected error =>
      (st, [ConsoleError EdgeCreateFailed; ConsoleError (classify error)])
  end.

(** The whole handler against a backend [post], with nothing interleaved
    between the request and its answer. *)
Definition handleEdgeCreate (post : EdgeCreateRequest -> PostOutcome)
    (params : Connection) (updateProcessChainsAfterEdge : bool)
    (st : EdgeState) : EdgeState * list Effect :=
  match handleEdgeCreate_request params with
  | inl edgeData =>
      let '(st', effs) :=
        handleEdgeCreate_response params updateProcessChainsAfterEdge
          (post edgeData) st in
      (st', HttpPost edgeData :: effs)
  | inr effs => (st, effs)
  end.

(** The network calls among the effects of a run. *)
Definition requests (effs : list Effect) : list EdgeCreateRequest :=
  omap (fun e => match e with HttpPost b => Some b | _ => None end) effs.

(** The three prefixes the encoder uses. *)
Definition node_kinds : list string := ["product"; "process"; "group"].

Definition starts_with_digit (s : string) : bool :=
  match s with
  | EmptyString => false
  | String c _ => is_digit c
  end.

(** An edge whose id is the one the handler gives it: ["e-"] and the id of
    the backend record it carries. *)
Definition keyed (e : Edge) : Prop :=
  id e = "e-" +:+ pretty (be_id (edgeData e)).

End EdgeSync.

(** ** GraphStore: one canvas per installation
    (components/cbam/ProcessManager.tsx, [ProcessManagerInner]) *)

Module GraphStore.

(** An installation as the selection modal passes it on. *)
Record Install := {
  install_id : Z;
  install_name : string
}.

Section Store.
(** The store never looks inside a node or an edge
    ([useNodesState<any>], [useEdgesState<any>]). *)
Context {Node Edge : Type}.

(** A value of [installCanvases]: [{ nodes, edges }]. *)
Record Canvas := {
  canvas_nodes : list Node;
  canvas_edges : list Edge
}.

Definition empty_canvas : Canvas :=
  {| canvas_nodes := []; canvas_edges := [] |}.

(** The [useState] cells of the component that the canvas logic uses. *)
Record State := {
  nodes : list Node;
  edges : list Edge;
  selectedInstall : option Install;
  showInstallModal : bool;
  installCanvases : gmap Z Canvas;
  activeInstallId : option Z
}.

(** The state at mount. *)
Definition initial : State :=
  {| nodes := []; edges := []; selectedInstall := None;
     showInstallModal := false; installCanvases := ∅;
     activeInstallId := None |}.

(** [{ nodes, edges }] of the current render. *)
Definition live (s : State) : Canvas :=
  {| canvas_nodes := nodes s; canvas_edges := edges s |}.

(** One write to [installCanvases]: the key and the value stored. *)
Definition Commit : Type := Z * Canvas.

(** [if (activeInstallId) setInstallCanvases(prev => ({ ...prev,
     [activeInstallId]: { nodes, edges } }))], applied to [prev]. The same
    statement is the body of the commit effect and the first statement of
    [handleInstallSelect]. *)
Definition save_active (s : State) (prev : gmap Z Canvas) : gmap Z Canvas :=
  match activeInstallId s with
  | Some a => if Js.truthy (Some a) then <[a := live s]> prev else prev
  | None => prev
  end.

(** The writes [save_active] performs. *)
Definition saved (s : State) : list Commit :=
  match activeInstallId s with
  | Some a => if Js.truthy (Some a) then [(a, live s)] else []
  | None => []
  end.

(** The effect on [nodes, edges, activeInstallId] (lines 238-245). *)
Definition commit_effect (s : State) : State :=
  {| nodes := nodes s; edges := edges s;
     selectedInstall := selectedInstall s;
     showInstallModal := showInstallModal s;
     installCanvases := save_active s (installCanvases s);
     activeInstallId := activeInstallId s |}.

(** [handleInstallSelect] (lines 253-276). [installCanvases[install.id]] is
    read from the render the callback was created in, hence from [s] and not
    from the map the first statement is about to produce. *)
Definition handleInstallSelect (install : Install) (s : State) : State :=
  let canvasData :=
    default empty_canvas (installCanvases s !! install_id install) in
  {| nodes := canvas_nodes canvasData;
     edges := canvas_edges canvasData;
     selectedInstall := Some install;
     showInstallModal := false;
     installCanvases := save_active s (installCanvases s);
     activeInstallId := Some (install_id install) |}.

(** What can happen to the canvas between two renders: the operator picks an
    installation, or the node list or the edge list is replaced ([addNodes],
    [onNodesChange], [addEdges], [onEdgesChange]). *)
Inductive Event :=
  | InstallSelect (install : Install)
  | NodesChange (newNodes : list Node)
  | EdgesChange (newEdges : list Edge).

Definition handle (ev : Event) (s : State) : State :=
  match ev with
  | InstallSelect install => handleInstallSelect install s
  | NodesChange newNodes =>
      {| nodes := newNodes; edges := edges s;
         selectedInstall := selectedInstall s;
         showInstallModal := showInstallModal s;
         installCanvases := installCanvases s;
         activeInstallId := activeInstallId s |}
  | EdgesChange newEdges =>
      {| nodes := nodes s; edges := newEdges;
         selectedInstall := selectedInstall s;
         showInstallModal := showInstallModal s;
         installCanvases := installCanvases s;
         activeInstallId := activeInstallId s |}
  end.

(** The writes the handler of an event performs itself. *)
Definition handler_commits (ev : Event) (s : State) : list Commit :=
  match ev with
  | InstallSelect _ => saved s
  | _ => []
  end.

(** One event: the handler runs, the component renders again and the commit
    effect runs on what was rendered (when none of its dependencies changed
    React skips it; running it then only writes what the map already holds,
    see [commit_effect_at_rest]). The second component lists the writes to
    [installCanvases] in the order they were made. *)
Definition step (ev : Event) (s : State) : State * list Commit :=
  let s1 := handle ev s in
  (commit_effect s1, handler_commits ev s ++ saved s1).

(** A session: the events in order, from a given state and commit log. *)
Fixpoint run_from (evs : list Event) (s : State) (log : list Commit)
  : State * list Commit :=
  match evs with
  | [] => (s, log)
  | ev :: evs' =>
      let '(s', written) := step ev s in run_from evs' s' (log ++ written)
  end.

Definition run (evs : list Event) : State * list Commit :=
  run_from evs initial [].

(** The snapshot last committed for installation [X]. *)
Definition last_commit (X : Z) (log : list Commit) : option Canvas :=
  snd <$> last (filter (fun c => c.1 = X) log).

(** Installation [X] was selected at some point of the session. *)
Definition visited (X : Z) (evs : list Event) : bool :=
  existsb (fun ev => match ev with
                     | InstallSelect install => install_id install =? X
                     | _ => false
                     end) evs.

(** The property of the active graph right after [install] is selected at
    the end of session [evs]: it is the snapshot last committed for that
    installation, and when there is none the installation was never visited
    and the graph is empty. *)
Definition restores_last_commit (evs : list Event) (install : Install)
  : Prop :=
  let '(s, log) := run evs in
  let s' := (step (InstallSelect install) s).1 in
  match last_commit (install_id install) log with
  | Some c => live s' = c
  | None => visited (install_id install) evs = false ∧ live s' = empty_canvas
  end.

(** What every session maintains: the map agrees with the log, and the
    active installation, when its id is truthy, maps to the live graph. *)
Definition in_sync (r : State * list Commit) : Prop :=
  (∀ X, installCanvases r.1 !! X = last_commit X r.2) ∧
  (∀ a, activeInstallId r.1 = Some a -> a ≠ 0 ->
        installCanvases r.1 !! a = Some (live r.1)).

(** Re-selecting leaves the canvas alone: nodes, edges, snapshot map and
    active id after the selection are those before it. *)
Definition selection_is_noop (install : Install) (s : State) : Prop :=
  let s' := (step (InstallSelect install) s).1 in
  nodes s' = nodes s ∧ edges s' = edges s ∧
  installCanvases s' = installCanvases s ∧
  activeInstallId s' = activeInstallId s.

(** The count an installation card shows:
    [installCanvases[id]?.nodes?.length || 0]. *)
Definition nodeCount (s : State) (installId : Z) : nat :=
  match installCanvases s !! installId with
  | Some canvasData => List.length (canvas_nodes canvasData)
  | None => 0%nat
  end.

(** The installations that have a card: the keys of [installCanvases]. *)
Definition has_card (s : State) (installId : Z) : Prop :=
  is_Some (installCanvases s !! installId).

(** No installation is selected during the session. *)
Definition selection_free (evs : list Event) : bool :=
  forallb (fun ev => match ev with InstallSelect _ => false | _ => true end)
          evs.

End Store.

Arguments Canvas : clear implicits.
Arguments State : clear implicits.
Arguments Event : clear implicits.
Arguments Commit : clear implicits.

End GraphStore.

(** ** The canvas hook (hooks/useProcessCanvas.ts)

    The hook keeps the same snapshot map, but restores a canvas from an
    effect on [selectedInstall?.id] instead of from a click handler. *)

Module CanvasHook.
Import GraphStore.

Section Hook.
Context {Node Edge : Type} `{!EqDecision Node, !EqDecision Edge}.

(** The state cells and the three refs of the hook. *)
Record HookState := {
  nodes : list Node;
  edges : list Edge;
  installCanvases : gmap Z (Canvas Node Edge);
  prevInstallIdRef : option Z;
  prevNodesRef : list Node;
  prevEdgesRef : list Edge
}.

Definition mount : HookState :=
  {| nodes := []; edges := []; installCanvases := ∅;
     prevInstallIdRef := None; prevNodesRef := []; prevEdgesRef := [] |}.

(** [const activeInstallId = selectedInstall?.id || null]. *)
Definition activeInstallId (selectedInstall : option Install) : option Z :=
  match selectedInstall with
  | Some install =>
      if Js.truthy (Some (install_id install))
      then Some (install_id install) else None
  | None => None
  end.

(** The updater queued by the first effect (lines 23-30). *)
Definition commit_update (selectedInstall : option Install) (s : HookState)
    (prev : gmap Z (Canvas Node Edge)) : gmap Z (Canvas Node Edge) :=
  match activeInstallId selectedInstall with
  | Some a =>
      <[a := {| canvas_nodes := nodes s; canvas_edges := edges s |}]> prev
  | None => prev
  end.

(** The effects of one render (lines 23-53), run in the order they are
    declared. Both see the state of that render; the refs are read and
    written in place; [JSON.stringify(a) !== JSON.stringify(b)] is taken as
    [a ≠ b] on the serialisable content of nodes and edges. *)
Definition run_effects (selectedInstall : option Install) (s : HookState)
  : HookState :=
  let committed := commit_update selectedInstall s (installCanvases s) in
  match selectedInstall with
  | Some install =>
      if bool_decide (Some (install_id install) ≠ prevInstallIdRef s) then
        let canvasData :=
          default empty_canvas (installCanvases s !! install_id install) in
        let nodesChanged :=
          bool_decide (prevNodesRef s ≠ canvas_nodes canvasData) in
        let edgesChanged :=
          bool_decide (prevEdgesRef s ≠ canvas_edges canvasData) in
        {| nodes := if nodesChanged then canvas_nodes canvasData else nodes s;
           edges := if edgesChanged then canvas_edges canvasData else edges s;
           installCanvases := committed;
           prevInstallIdRef := Some (install_id install);
           prevNodesRef :=
             if nodesChanged then canvas_nodes canvasData else prevNodesRef s;
           prevEdgesRef :=
             if edgesChanged then canvas_edges canvasData else prevEdgesRef s |}
      else
        {| nodes := nodes s; edges := edges s; installCanvases := committed;
           prevInstallIdRef := prevInstallIdRef s;
           prevNodesRef := prevNodesRef s; prevEdgesRef := prevEdgesRef s |}
  | None =>
      {| nodes := nodes s; edges := edges s; installCanvases := committed;
         prevInstallIdRef := prevInstallIdRef s;
         prevNodesRef := prevNodesRef s; prevEdgesRef := prevEdgesRef s |}
  end.

(** Renders follow one another while an effect changes the state; the second
    pass only re-commits, and a third would change nothing
    ([run_effects_settle]). *)
Definition settle (selectedInstall : option Install) (s : HookState)
  : HookState :=
  run_effects selectedInstall (run_effects selectedInstall s).

(** What drives the hook: its owner passes another [selectedInstall]; a node
    is appended by [addProductNode], [addProcessNode] or [addGroupNode]; an
    edge is appended by [handleEdgeCreate]; ReactFlow reports a change
    through [onNodesChange] or [onEdgesChange]. *)
Inductive HookEvent :=
  | SelectedInstall (selectedInstall : option Install)
  | AddNode (newNode : Node)
  | AddEdge (edgeToAdd : Edge)
  | OnNodesChange (newNodes : list Node)
  | OnEdgesChange (newEdges : list Edge).

(** The [setNodes(prev => ...)] / [setEdges(prev => ...)] updaters of the
    actions, which also refresh the matching ref. *)
Definition act (ev : HookEvent) (s : HookState) : HookState :=
  match ev with
  | SelectedInstall _ => s
  | AddNode newNode =>
      let newNodes := nodes s ++ [newNode] in
      {| nodes := newNodes; edges := edges s;
         installCanvases := installCanvases s;
         prevInstallIdRef := prevInstallIdRef s;
         prevNodesRef := newNodes; prevEdgesRef := prevEdgesRef s |}
  | AddEdge edgeToAdd =>
      let newEdges := edges s ++ [edgeToAdd] in
      {| nodes := nodes s; edges := newEdges;
         installCanvases := installCanvases s;
         prevInstallIdRef := prevInstallIdRef s;
         prevNodesRef := prevNodesRef s; prevEdgesRef := newEdges |}
  | OnNodesChange newNodes =>
      {| nodes := newNodes; edges := edges s;
         installCanvases := installCanvases s;
         prevInstallIdRef := prevInstallIdRef s;
         prevNodesRef := prevNodesRef s; prevEdgesRef := prevEdgesRef s |}
  | OnEdgesChange newEdges =>
      {| nodes := nodes s; edges := newEdges;
         installCanvases := installCanvases s;
         prevInstallIdRef := prevInstallIdRef s;
         prevNodesRef := prevNodesRef s; prevEdgesRef := prevEdgesRef s |}
  end.

(** The hook together with the prop it was last rendered with. *)
Definition Rendered : Type := option Install * HookState.

Definition hook_step (ev : HookEvent) (r : Rendered) : Rendered :=
  let selectedInstall :=
    match ev with
    | SelectedInstall selectedInstall => selectedInstall
    | _ => r.1
    end in
  (selectedInstall, settle selectedInstall (act ev r.2)).

Definition hook_run (evs : list HookEvent) : Rendered :=
  foldl (fun r ev => hook_step ev r) (None, settle None mount) evs.

(** [{ nodes, edges }] of the hook. *)
Definition hook_live (s : HookState) : Canvas Node Edge :=
  {| canvas_nodes := nodes s; canvas_edges := edges s |}.

(** The events that go through the hook's own actions, which keep the refs
    in step with the state: an installation is selected, a node or an edge
    is appended. *)
Definition own_action (ev : HookEvent) : bool :=
  match ev with
  | SelectedInstall (Some _) | AddNode _ | AddEdge _ => true
  | _ => false
  end.

(** The hook at rest after a session of its own actions: the refs mirror
    the state, the restore guard is closed on the selected installation,
    and the selected installation, when its id is truthy, maps to the live
    graph. *)
Definition at_rest (r : Rendered) : Prop :=
  prevNodesRef r.2 = nodes r.2 ∧
  prevEdgesRef r.2 = edges r.2 ∧
  prevInstallIdRef r.2 = install_id <$> r.1 ∧
  (∀ a, activeInstallId r.1 = Some a ->
        installCanvases r.2 !! a = Some (hook_live r.2)).

End Hook.

Arguments HookState : clear implicits.
Arguments HookEvent : clear implicits.
Arguments Rendered : clear implicits.

End CanvasHook.

(** ** NodeFactory: product and process nodes
    ([handleProductSelect], [handleProcessSelect] of ProcessManager.tsx;
     [addProductNode], [addProcessNode] of useProcessCanvas.ts) *)

Module NodeFactory.

#[global] Instance Q_eq_dec : EqDecision Q.
Proof. solve_decision. Defined.

Record Product := {
  product_id : Z;
  install_id : Z;
  product_name : string
}.

(** [process.products] is the embedded many-to-many list; the code guards
    against its absence, so it is optional here. *)
Record Process := {
  process_id : Z;
  process_name : string;
  products : option (list Product)
}.

Record XYPosition := { x : Q; y : Q }.

(** What a node constructor draws from its environment: [Date.now()], the
    base-36 tail of a [Math.random()], and two more [Math.random()] draws
    for the position. *)
Record Entropy := {
  now : Z;
  random_tail : string;
  random_x : Q;
  random_y : Q
}.

(** The data fields of a product node (callbacks are left out). *)
Record ProductNodeData := {
  pd_id : option Z;
  pd_label : string;
  pd_description : string;
  pd_variant : string;
  productData : Product;
  pd_install_id : option Z;
  pd_size : option string;
  pd_showHandles : option bool
}.

(** The data fields of a process node (callbacks are left out);
    [is_readonly] can be [undefined], which is [None]. *)
Record ProcessNodeData := {
  data_id : option Z;
  label : string;
  description : string;
  variant : string;
  processData : Process;
  product_names : string;
  data_install_id : option Z;
  current_install_id : option Z;
  is_readonly : option bool;
  related_products : list Product;
  is_many_to_many : bool
}.

Inductive NodeData :=
  | OfProduct (d : ProductNodeData)
  | OfProcess (d : ProcessNodeData).

Record Node := {
  id : string;
  type : string;
  position : XYPosition;
  data : NodeData
}.

#[global] Instance Product_eq_dec : EqDecision Product.
Proof. solve_decision. Defined.
#[global] Instance Process_eq_dec : EqDecision Process.
Proof. solve_decision. Defined.
#[global] Instance XYPosition_eq_dec : EqDecision XYPosition.
Proof. solve_decision. Defined.
#[global] Instance ProductNodeData_eq_dec : EqDecision ProductNodeData.
Proof. solve_decision. Defined.
#[global] Instance ProcessNodeData_eq_dec : EqDecision ProcessNodeData.
Proof. solve_decision. Defined.
#[global] Instance NodeData_eq_dec : EqDecision NodeData.
Proof. solve_decision. Defined.
#[global] Instance Node_eq_dec : EqDecision Node.
Proof. solve_decision. Defined.

(** [selectedInstall?.id]. *)
Definition selected_id (selectedInstall : option GraphStore.Install)
  : option Z :=
  GraphStore.install_id <$> selectedInstall.

(** [{ x: Math.random() * 400 + 100, y: Math.random() * 300 + 100 }]. *)
Definition random_position (e : Entropy) : XYPosition :=
  {| x := (random_x e * 400 + 100)%Q; y := (random_y e * 300 + 100)%Q |}.

(** [`${kind}-${Date.now()}-${Math.random().toString(36).slice(2)}`]. *)
Definition fresh_id (kind : string) (e : Entropy) : string :=
  kind +:+ "-" +:+ pretty (now e) +:+ "-" +:+ random_tail e.

(** [names.join(', ')]. *)
Fixpoint join (names : list string) : string :=
  match names with
  | [] => ""
  | [name] => name
  | name :: rest => name +:+ ", " +:+ join rest
  end.

(** [process.products && process.products.some(p => p.id === product.id)],
    used as a filter predicate. *)
Definition uses_product (process : Process) (product : Product) : bool :=
  match products process with
  | Some ps => existsb (fun p => product_id p =? product_id product) ps
  | None => false
  end.

(** [const relatedProducts = products.filter(...)]. *)
Definition relatedProducts (process : Process) (products : list Product)
  : list Product :=
  List.filter (uses_product process) products.

(** [const productNames = relatedProducts.map(p => p.product_name)
       .join(', ')]. *)
Definition productNames (process : Process) (products : list Product)
  : string :=
  join (product_name <$> relatedProducts process products).

(** [const isExternalProcess = process.products &&
       process.products.some(p => p.install_id !== selectedInstall?.id)]. *)
Definition isExternalProcess (process : Process)
    (selectedInstall : option GraphStore.Install) : option bool :=
  match products process with
  | Some ps =>
      Some (existsb
              (fun p => bool_decide
                          (Some (install_id p) ≠ selected_id selectedInstall))
              ps)
  | None => None
  end.

(** The node built by [handleProcessSelect] ([with_id = false]) and by
    [addProcessNode] ([with_id = true], which also stores [process.id]). *)
Definition processNode (with_id : bool) (process : Process)
    (products : list Product) (selectedInstall : option GraphStore.Install)
    (e : Entropy) : Node :=
  let productNames := productNames process products in
  {| id := fresh_id "process" e;
     type := "process";
     position := random_position e;
     data := OfProcess
       {| data_id := if with_id then Some (process_id process) else None;
          label := process_name process;
          description := "공정: " +:+ process_name process;
          variant := "process";
          processData := process;
          product_names :=
            if String.eqb productNames "" then "알 수 없음" else productNames;
          data_install_id := selected_id selectedInstall;
          current_install_id := selected_id selectedInstall;
          is_readonly := isExternalProcess process selectedInstall;
          related_products := relatedProducts process products;
          is_many_to_many := true |} |}.

(** The node built by [handleProductSelect] ([with_id = false], type
    ['custom']) and by [addProductNode] ([with_id = true], type
    ['product']). *)
Definition productNode (with_id : bool) (product : Product)
    (selectedInstall : option GraphStore.Install) (e : Entropy) : Node :=
  {| id := fresh_id "product" e;
     type := if with_id then "product" else "custom";
     position := random_position e;
     data := OfProduct
       {| pd_id := if with_id then Some (product_id product) else None;
          pd_label := product_name product;
          pd_description := "제품: " +:+ product_name product;
          pd_variant := "product";
          productData := product;
          pd_install_id := selected_id selectedInstall;
          pd_size := if with_id then Some "md" else None;
          pd_showHandles := if with_id then Some true else None |} |}.

(** [handleProcessSelect] (ProcessManager.tsx, lines 363-396): the node is
    handed to [addNodes], which appends it to the live nodes. *)
Definition handleProcessSelect {Edge : Type} (process : Process)
    (products : list Product) (e : Entropy)
    (s : GraphStore.State Node Edge) : GraphStore.Event Node Edge :=
  GraphStore.NodesChange
    (GraphStore.nodes s ++
       [processNode false process products (GraphStore.selectedInstall s) e]).

(** [handleProductSelect] (ProcessManager.tsx, lines 317-334). *)
Definition handleProductSelect {Edge : Type} (product : Product)
    (e : Entropy) (s : GraphStore.State Node Edge)
  : GraphStore.Event Node Edge :=
  GraphStore.NodesChange
    (GraphStore.nodes s ++
       [productNode false product (GraphStore.selectedInstall s) e]).

(** [addProcessNode] (useProcessCanvas.ts, lines 93-131), as the event it
    raises in the hook. *)
Definition addProcessNode {Edge : Type} (process : Process)
    (products : list Product) (selectedInstall : option GraphStore.Install)
    (e : Entropy) : CanvasHook.HookEvent Node Edge :=
  CanvasHook.AddNode (processNode true process products selectedInstall e).

(** [addProductNode] (useProcessCanvas.ts, lines 62-90). *)
Definition addProductNode {Edge : Type} (product : Product)
    (selectedInstall : option GraphStore.Install) (e : Entropy)
  : CanvasHook.HookEvent Node Edge :=
  CanvasHook.AddNode (productNode true product selectedInstall e).

(** The [is_readonly] flag a node carries, if it is a process node. *)
Definition node_is_readonly (n : Node) : option bool :=
  match data n with
  | OfProcess d => is_readonly d
  | OfProduct _ => None
  end.

(** The rule as the specification words it: among the related products
    (the products at hand that are linked to the process), one belongs to
    another installation than [installId]. *)
Definition spec_isExternal (process : Process) (allProducts : list Product)
    (installId : Z) : bool :=
  existsb (fun p => negb (install_id p =? installId))
          (relatedProducts process allProducts).

(** The linked products of a process span installations 1 and 2. *)
Definition spans_1_and_2 (process : Process) : Prop :=
  ∃ ps p1 p2, products process = Some ps ∧ p1 ∈ ps ∧ p2 ∈ ps ∧
              install_id p1 = 1 ∧ install_id p2 = 2.

(** The flag as the specification words it for a process that spans
    installations 1 and 2: set on the canvas of installation 2, cleared on
    the canvas of installation 1, and in general given by the rule over the
    related products. *)
Definition readonly_as_worded (with_id : bool) (process : Process)
    (products : list Product) (e : Entropy) : Prop :=
  (∀ canvas, GraphStore.install_id canvas = 2 ->
     node_is_readonly (processNode with_id process products (Some canvas) e)
       = Some true) ∧
  (∀ canvas, GraphStore.install_id canvas = 1 ->
     node_is_readonly (processNode with_id process products (Some canvas) e)
       = Some false) ∧
  (∀ canvas,
     node_is_readonly (processNode with_id process products (Some canvas) e)
       = Some (spec_isExternal process products
                 (GraphStore.install_id canvas))).

End NodeFactory.

(** ** GroupAggregator: group nodes as bounding boxes of their members
    (the flow editor's [createGroupFromSelectedNodes], [handleCreateGroup]
     and [updateGroupSize]) *)

Module Groups.
Import NodeFactory(XYPosition, x, y, Build_XYPosition).

(** [node.style]: the two dimensions the code writes, and whatever other
    properties a spread carries over. An absent style is the empty one. *)
Record Style := {
  width : option Q;
  height : option Q;
  other_css : list (string * string)
}.

Inductive GroupType := product | process.

Record CbamData := {
  carbonIntensity : Q;
  materialFlow : Q;
  energyConsumption : Q
}.

(** [data] of a group node. *)
Record GroupData := {
  label : string;
  group_type : GroupType;
  group_nodes : list string;
  isCollapsed : bool;
  boundaryType : string;
  cbamData : CbamData
}.

(** [data] of a node: a group payload, or a payload without a [nodes]
    field (process steps, products). *)
Inductive NodeData :=
  | OfGroup (g : GroupData)
  | OfStep (name : string).

Record Node := {
  id : string;
  type : string;
  position : XYPosition;
  data : NodeData;
  style : Style
}.

(** [node.data.nodes]: [undefined] unless the payload is a group's. *)
Definition data_nodes (n : Node) : option (list string) :=
  match data n with
  | OfGroup g => Some (group_nodes g)
  | OfStep _ => None
  end.

(** [ids.includes(id)]. *)
Definition includes (ids : list string) (i : string) : bool :=
  existsb (String.eqb i) ids.

(** [Math.min(...[first, ...rest])] and [Math.max(...[first, ...rest])] on a
    list known to be non-empty. *)
Definition Math_min (first : Q) (rest : list Q) : Q := foldl Qmin first rest.
Definition Math_max (first : Q) (rest : list Q) : Q := foldl Qmax first rest.

(** The four extremes both functions compute over the positions of a
    non-empty list of nodes. *)
Definition minX (first : Node) (rest : list Node) : Q :=
  Math_min (x (position first)) ((fun n => x (position n)) <$> rest).
Definition minY (first : Node) (rest : list Node) : Q :=
  Math_min (y (position first)) ((fun n => y (position n)) <$> rest).
Definition maxX (first : Node) (rest : list Node) : Q :=
  Math_max (x (position first)) ((fun n => x (position n)) <$> rest).
Definition maxY (first : Node) (rest : list Node) : Q :=
  Math_max (y (position first)) ((fun n => y (position n)) <$> rest).

(** The cells of the component the group functions use. *)
Record State := {
  nodes : list Node;
  selectedNodes : list string;
  showGroupModal : bool;
  groupName : string;
  groupType : GroupType
}.

Inductive AlertMessage :=
  | SelectTwoOrMore      (* "select two or more nodes to make a group" *)
  | EnterGroupName.      (* "enter a group name" *)

(** What a handler does besides updating the state. *)
Inductive Effect :=
  | Alert (msg : AlertMessage)
  | NetworkCall (url : string).

(** [createGroupFromSelectedNodes] (lines 606-612). *)
Definition createGroupFromSelectedNodes (s : State) : State * list Effect :=
  if (List.length (selectedNodes s) <? 2)%nat
  then (s, [Alert SelectTwoOrMore])
  else ({| nodes := nodes s; selectedNodes := selectedNodes s;
           showGroupModal := true; groupName := groupName s;
           groupType := groupType s |}, []).

(** [nodes.filter(node => selectedNodes.includes(node.id))]. *)
Definition selectedNodeObjects (s : State) : list Node :=
  List.filter (fun node => includes (selectedNodes s) (id node)) (nodes s).

(** The group node of [handleCreateGroup] around a non-empty selection. *)
Definition groupNode (now : Z) (s : State) (first : Node) (rest : list Node)
  : Node :=
  {| id := "group-" +:+ pretty now;
     type := "group";
     position := {| x := (minX first rest - 50)%Q;
                    y := (minY first rest - 50)%Q |};
     data := OfGroup
       {| label := groupName s;
          group_type := groupType s;
          group_nodes := selectedNodes s;
          isCollapsed := false;
          boundaryType :=
            match groupType s with
            | product => "output"
            | process => "internal"
            end;
          cbamData := {| carbonIntensity := 0; materialFlow := 0;
                         energyConsumption := 0 |} |};
     style := {| width := Some (maxX first rest - minX first rest + 200)%Q;
                 height := Some (maxY first rest - minY first rest + 200)%Q;
                 other_css := [] |} |}.

(** [handleCreateGroup] (lines 614-655); [addNodes] appends the node. *)
Definition handleCreateGroup (now : Z) (s : State) : State * list Effect :=
  if Js.trim_is_empty (groupName s) then (s, [Alert EnterGroupName])
  else
    match selectedNodeObjects s with
    | [] => (s, [])
    | first :: rest =>
        ({| nodes := nodes s ++ [groupNode now s first rest];
            selectedNodes := [];
            showGroupModal := false;
            groupName := "";
            groupType := groupType s |}, [])
    end.

(** The members [updateGroupSize] measures: the nodes listed by the group
    that are not groups themselves. *)
Definition groupNodes (members : list string) (prevNodes : list Node)
  : list Node :=
  List.filter
    (fun node =>
       includes members (id node) && negb (String.eqb (type node) "group"))
    prevNodes.

(** The node a group is replaced by once its members are measured, by
    the formulas of the source ([DoubleGroups.resized] evaluates them in
    doubles). *)
Definition resized (node first : Node) (rest : list Node) : Node :=
  {| id := id node;
     type := type node;
     position := {| x := (minX first rest - 50)%Q;
                    y := (minY first rest - 50)%Q |};
     data := data node;
     style := {| width := Some (maxX first rest - minX first rest + 200)%Q;
                 height := Some (maxY first rest - minY first rest + 200)%Q;
                 other_css := other_css (style node) |} |}.

(** The updater [updateGroupSize] passes to [setNodes] (lines 658-689). *)
Definition updateGroupSize (groupId : string) (prevNodes : list Node)
  : list Node :=
  match List.find (fun node => String.eqb (id node) groupId) prevNodes with
  | None => prevNodes
  | Some groupNode =>
      if negb (String.eqb (type groupNode) "group") then prevNodes
      else
        match data_nodes groupNode with
        | None => prevNodes
        | Some members =>
            match groupNodes members prevNodes with
            | [] => prevNodes
            | first :: rest =>
                (fun node =>
                   if String.eqb (id node) groupId
                   then resized node first rest
                   else node) <$> prevNodes
            end
        end
  end.


(** What [updateGroupSize] measures before it rewrites anything: the
    members of the group [groupId], when there is such a group and it has
    members to measure. *)
Definition measured (groupId : string) (prevNodes : list Node)
  : option (Node * list Node) :=
  match List.find (fun node => String.eqb (id node) groupId) prevNodes with
  | None => None
  | Some groupNode =>
      if negb (String.eqb (type groupNode) "group") then None
      else
        match data_nodes groupNode with
        | None => None
        | Some members =>
            match groupNodes members prevNodes with
            | [] => None
            | first :: rest => Some (first, rest)
            end
        end
  end.


(** [{ ...node, data: { ...node.data, nodes: members } }] for a node whose
    payload has a [nodes] field. *)
Definition with_members (node : Node) (g : GroupData)
    (members : list string) : Node :=
  {| id := id node; type := type node; position := position node;
     data := OfGroup
       {| label := label g; group_type := group_type g;
          group_nodes := members; isCollapsed := isCollapsed g;
          boundaryType := boundaryType g; cbamData := cbamData g |};
     style := style node |}.

(** The updater of [removeNodeFromGroup]. *)
Definition removeNodeFromGroup (groupId nodeId : string)
    (prevNodes : list Node) : list Node :=
  (fun node =>
     match data node with
     | OfGroup g =>
         if String.eqb (id node) groupId
         then with_members node g
                (List.filter (fun i => negb (String.eqb i nodeId))
                             (group_nodes g))
         else node
     | OfStep _ => node
     end) <$> prevNodes.

(** The updater of [addNodeToGroup]. *)
Definition addNodeToGroup (groupId nodeId : string)
    (prevNodes : list Node) : list Node :=
  (fun node =>
     match data node with
     | OfGroup g =>
         if String.eqb (id node) groupId
         then with_members node g (group_nodes g ++ [nodeId])
         else node
     | OfStep _ => node
     end) <$> prevNodes.






(** What a change of positions keeps of every node. *)
Definition kept (node : Node) : string * string * NodeData :=
  (id node, type node, data node).

(** The body of the [prevNodes.map] of [updateGroupSize]. *)
Definition redrawn (groupId : string) (first : Node) (rest : list Node)
    (node : Node) : Node :=
  if String.eqb (id node) groupId then resized node first rest else node.

End Groups.

(** ** RoutingEngine: choosing how edges are drawn (hook [useEdgeRouting]) *)

Module Routing.
Import NodeFactory(XYPosition, x, y, Build_XYPosition).

Inductive EdgeRoutingType :=
  | default_routing | smart | orthogonal | bezier | straight | step.

Inductive Complexity := low | medium | high.

(** A value stored under a key of [edge.data]. *)
Inductive Value :=
  | VUndefined
  | VBool (b : bool)
  | VNum (q : Q)
  | VStr (s : string).

Definition of_bool (o : option bool) : Value :=
  from_option VBool VUndefined o.
Definition of_num (o : option Q) : Value :=
  from_option VNum VUndefined o.

(** [Partial<EdgeRoutingOptions>]: every field may be missing. *)
Record EdgeRoutingOptions := {
  opt_type : option EdgeRoutingType;
  smartEdge : option bool;
  opt_orthogonal : option bool;
  bezierCurve : option bool;
  stepSize : option Q;
  smoothness : option Q;
  avoidNodes : option bool;
  gridSnap : option bool;
  gridSize : option Q
}.

(** [{ ...defaults, ...options }]: a field of [options] wins when present. *)
Definition spread (defaults options : EdgeRoutingOptions)
  : EdgeRoutingOptions :=
  let pick {A} (f : EdgeRoutingOptions -> option A) :=
    match f options with Some v => Some v | None => f defaults end in
  {| opt_type := pick opt_type; smartEdge := pick smartEdge;
     opt_orthogonal := pick opt_orthogonal; bezierCurve := pick bezierCurve;
     stepSize := pick stepSize; smoothness := pick smoothness;
     avoidNodes := pick avoidNodes; gridSnap := pick gridSnap;
     gridSize := pick gridSize |}.

Definition no_options : EdgeRoutingOptions :=
  {| opt_type := None; smartEdge := None; opt_orthogonal := None;
     bezierCurve := None; stepSize := None; smoothness := None;
     avoidNodes := None; gridSnap := None; gridSize := None |}.

Record Edge := {
  id : string;
  source : string;
  target : string;
  type : option string;
  data : gmap string Value
}.

(** What the router reads of a node. *)
Record Node := {
  node_id : string;
  position : XYPosition
}.

Record EdgeRoutingResult := {
  edges : list Edge;
  routingTime : Q;
  complexity : Complexity
}.

(** The two state cells of the hook. *)
Record HookState := {
  isRouting : bool;
  currentRoutingType : EdgeRoutingType
}.

(** Computations that update the hook's cells on their way to a result. *)
Definition Hook (A : Type) : Type := HookState -> A * HookState.

#[local] Instance hook_ret : MRet Hook := fun A a st => (a, st).
#[local] Instance hook_bind : MBind Hook :=
  fun A B k m st => let '(a, st') := m st in k a st'.

Definition setIsRouting (b : bool) : Hook unit :=
  fun st => (tt, {| isRouting := b;
                    currentRoutingType := currentRoutingType st |}).
Definition setCurrentRoutingType (t : EdgeRoutingType) : Hook unit :=
  fun st => (tt, {| isRouting := isRouting st; currentRoutingType := t |}).

(** [{ ...edge, type, data: { ...edge.data, ...entries } }]; later entries
    win, as later keys of an object literal do. *)
Definition reroute (newType : string) (entries : list (string * Value))
    (edge : Edge) : Edge :=
  {| id := id edge; source := source edge; target := target edge;
     type := Some newType;
     data := foldl (fun d kv => <[kv.1 := kv.2]> d) (data edge) entries |}.

(** [nodes.find(n => n.id === i)]. *)
Definition find_node (nodes : list Node) (i : string) : option Node :=
  List.find (fun n => String.eqb (node_id n) i) nodes.

(** [distance < 100] for [distance = Math.sqrt(dx^2 + dy^2)], decided on the
    squares: the root is below 100 exactly when its argument is below
    10000. *)
Definition closer_than_100 (a b : XYPosition) : bool :=
  let dx := (x b - x a)%Q in
  let dy := (y b - y a)%Q in
  negb (Qle_bool 10000 (dx * dx + dy * dy)).

(** The body of the [edges.map] of the smart router. *)
Definition smart_edge (nodes : list Node) (edge : Edge) : Edge :=
  match find_node nodes (source edge), find_node nodes (target edge) with
  | Some sourceNode, Some targetNode =>
      if closer_than_100 (position sourceNode) (position targetNode)
      then reroute "smartEdge"
             [("routingType", VStr "smart"); ("avoidNodes", VBool true)] edge
      else edge
  | _, _ => edge
  end.

(** [applySmartEdgeRouting]; [elapsed] is what the two readings of
    [performance.now()] differ by. *)
Definition applySmartEdgeRouting (edges : list Edge) (nodes : list Node)
    (options : EdgeRoutingOptions) (elapsed : Q) : Hook EdgeRoutingResult :=
  setIsRouting true ;;
  setCurrentRoutingType smart ;;
  let n := List.length edges in
  let result :=
    {| edges := smart_edge nodes <$> edges;
       routingTime := elapsed;
       complexity := if (20 <? n)%nat then high
                     else if (10 <? n)%nat then medium else low |} in
  setIsRouting false ;;
  mret result.

(** [applyOrthogonalRouting]. *)
Definition applyOrthogonalRouting (edges : list Edge)
    (options : EdgeRoutingOptions) (elapsed : Q) : Hook EdgeRoutingResult :=
  setIsRouting true ;;
  setCurrentRoutingType orthogonal ;;
  let defaultOptions :=
    spread {| opt_type := Some orthogonal; smartEdge := None;
              opt_orthogonal := Some true; bezierCurve := None;
              stepSize := Some 20%Q; smoothness := None; avoidNodes := None;
              gridSnap := Some true; gridSize := Some 20%Q |} options in
  let n := List.length edges in
  let result :=
    {| edges :=
         reroute "orthogonalEdge"
           [("routingType", VStr "orthogonal");
            ("stepSize", of_num (stepSize defaultOptions));
            ("gridSnap", of_bool (gridSnap defaultOptions))] <$> edges;
       routingTime := elapsed;
       complexity := if (15 <? n)%nat then high
                     else if (8 <? n)%nat then medium else low |} in
  setIsRouting false ;;
  mret result.

(** [applyBezierRouting]. *)
Definition applyBezierRouting (edges : list Edge)
    (options : EdgeRoutingOptions) (elapsed : Q) : Hook EdgeRoutingResult :=
  setIsRouting true ;;
  setCurrentRoutingType bezier ;;
  let defaultOptions :=
    spread {| opt_type := Some bezier; smartEdge := None;
              opt_orthogonal := None; bezierCurve := Some true;
              stepSize := None; smoothness := Some (1 # 2)%Q;
              avoidNodes := None; gridSnap := None; gridSize := None |}
           options in
  let result :=
    {| edges :=
         reroute "bezierEdge"
           [("routingType", VStr "bezier");
            ("smoothness", of_num (smoothness defaultOptions))] <$> edges;
       routingTime := elapsed;
       complexity := low |} in
  setIsRouting false ;;
  mret result.

(** [applyAutoRouting] (lines 841-854 of the routing hook). *)
Definition applyAutoRouting (edges : list Edge) (nodes : list Node)
    (options : EdgeRoutingOptions) (elapsed : Q) : Hook EdgeRoutingResult :=
  if (List.length edges <=? 5)%nat then
    applyBezierRouting edges options elapsed
  else if (List.length edges <=? 15)%nat then
    applySmartEdgeRouting edges nodes options elapsed
  else
    applyOrthogonalRouting edges options elapsed.

(** The strategy a run went through, as the hook itself records it. *)
Definition strategy_of {A} (run : A * HookState) : EdgeRoutingType :=
  currentRoutingType run.2.

(** [applyStepRouting]. *)
Definition applyStepRouting (edges : list Edge)
    (options : EdgeRoutingOptions) (elapsed : Q) : Hook EdgeRoutingResult :=
  setIsRouting true ;;
  setCurrentRoutingType step ;;
  let defaultOptions :=
    spread {| opt_type := Some step; smartEdge := None;
              opt_orthogonal := None; bezierCurve := None;
              stepSize := Some 30%Q; smoothness := None; avoidNodes := None;
              gridSnap := Some true; gridSize := Some 30%Q |} options in
  let result :=
    {| edges :=
         reroute "stepEdge"
           [("routingType", VStr "step");
            ("stepSize", of_num (stepSize defaultOptions));
            ("gridSnap", of_bool (gridSnap defaultOptions))] <$> edges;
       routingTime := elapsed;
       complexity := low |} in
  setIsRouting false ;;
  mret result.

(** [optimizeRouting]: smart routing first, orthogonal routing over its
    output when it reports a high complexity. [elapsed_smart] and
    [elapsed_orthogonal] are the times the two passes measure for
    themselves, [elapsed] the time the whole call measures. *)
Definition optimizeRouting (edges : list Edge) (nodes : list Node)
    (options : EdgeRoutingOptions)
    (elapsed_smart elapsed_orthogonal elapsed : Q) : Hook EdgeRoutingResult :=
  setIsRouting true ;;
  smartResult ← applySmartEdgeRouting edges nodes options elapsed_smart;
  match complexity smartResult with
  | high =>
      orthogonalResult ←
        applyOrthogonalRouting (Routing.edges smartResult) options
          elapsed_orthogonal;
      setIsRouting false ;;
      mret {| edges := Routing.edges orthogonalResult;
              routingTime := elapsed;
              complexity := complexity orthogonalResult |}
  | _ =>
      setIsRouting false ;;
      mret smartResult
  end.

(** [resetRouting]: synchronous, it leaves [isRouting] alone. *)
Definition resetRouting (edges : list Edge) : Hook EdgeRoutingResult :=
  setCurrentRoutingType default_routing ;;
  mret {| edges := reroute "default" [("routingType", VStr "default")]
                     <$> edges;
          routingTime := 0;
          complexity := low |}.

(** [getRoutingOptions]: the options the hook advertises for a type. *)
Definition getRoutingOptions (type : EdgeRoutingType) : EdgeRoutingOptions :=
  let baseOptions :=
    {| opt_type := Some type; smartEdge := Some false;
       opt_orthogonal := Some false; bezierCurve := Some false;
       stepSize := Some 20%Q; smoothness := Some (1 # 2)%Q;
       avoidNodes := Some false; gridSnap := Some false;
       gridSize := Some 20%Q |} in
  match type with
  | smart =>
      spread baseOptions
        {| opt_type := None; smartEdge := Some true; opt_orthogonal := None;
           bezierCurve := None; stepSize := None; smoothness := None;
           avoidNodes := Some true; gridSnap := Some true;
           gridSize := None |}
  | orthogonal =>
      spread baseOptions
        {| opt_type := None; smartEdge := None; opt_orthogonal := Some true;
           bezierCurve := None; stepSize := None; smoothness := None;
           avoidNodes := None; gridSnap := Some true; gridSize := None |}
  | bezier =>
      spread baseOptions
        {| opt_type := None; smartEdge := None; opt_orthogonal := None;
           bezierCurve := Some true; stepSize := None; smoothness := None;
           avoidNodes := None; gridSnap := None; gridSize := None |}
  | step =>
      spread baseOptions
        {| opt_type := None; smartEdge := None; opt_orthogonal := None;
           bezierCurve := None; stepSize := Some 30%Q; smoothness := None;
           avoidNodes := None; gridSnap := Some true;
           gridSize := Some 30%Q |}
  | _ => baseOptions
  end.

(** What routing must leave alone: the id and the two ends of an edge. *)
Definition identity (edge : Edge) : string * string * string :=
  (id edge, source edge, target edge).

(** The keys of [edge.data] the strategies write. *)
Definition routing_keys : list string :=
  ["routingType"; "stepSize"; "gridSnap"; "smoothness"; "avoidNodes"].

(** [routed] is [edge] with, at most, another type and other values under
    the routing keys: same identity, every other key of [data] untouched,
    and no key lost. *)
Definition rerouted (edge routed : Edge) : Prop :=
  identity routed = identity edge ∧
  (∀ key, key ∉ routing_keys -> data routed !! key = data edge !! key) ∧
  (∀ key, is_Some (data edge !! key) -> is_Some (data routed !! key)).

End Routing.

(** ** The two installations of the walk-through, and sample data *)

Module Scenario.
Import GraphStore NodeFactory.

Definition installation_A : Install :=
  {| GraphStore.install_id := 1; install_name := "A" |}.
Definition installation_B : Install :=
  {| GraphStore.install_id := 2; install_name := "B" |}.

(** An installation whose id is 0. *)
Definition installation_0 : Install :=
  {| GraphStore.install_id := 0; install_name := "Z" |}.

(** Installation A is selected, one product node is added, installation B
    is selected and left as it is, installation A is selected again: on the
    component ... *)
Definition manager_walk (product : Product) (e : Entropy)
  : State Node EdgeSync.Edge :=
  let s1 := (step (InstallSelect installation_A) initial).1 in
  let s2 := (step (handleProductSelect product e s1) s1).1 in
  let s3 := (step (InstallSelect installation_B) s2).1 in
  (step (InstallSelect installation_A) s3).1.

(** ... and on the hook. *)
Definition hook_walk (product : Product) (e : Entropy)
  : CanvasHook.Rendered Node EdgeSync.Edge :=
  CanvasHook.hook_run
    [CanvasHook.SelectedInstall (Some installation_A);
     addProductNode product (Some installation_A) e;
     CanvasHook.SelectedInstall (Some installation_B);
     CanvasHook.SelectedInstall (Some installation_A)].

Definition steel : Product :=
  {| product_id := 11; NodeFactory.install_id := 1; product_name := "steel" |}.
Definition slab : Product :=
  {| product_id := 12; NodeFactory.install_id := 2; product_name := "slab" |}.

(** A process linked to a product of installation 1 and to a product of
    installation 2. *)
Definition rolling : Process :=
  {| process_id := 5; process_name := "rolling";
     products := Some [steel; slab] |}.

Definition entropy : Entropy :=
  {| now := 1700000000000; random_tail := "ab12";
     random_x := (1 # 4)%Q; random_y := (1 # 2)%Q |}.

(** A product node placed on the canvas of installation 0. *)
Definition steel_node : Node :=
  productNode false steel (Some installation_0) entropy.

(** A product node placed on the canvas of installation A. *)
Definition slab_node : Node :=
  productNode false slab (Some installation_A) entropy.

(** A visit to installation A: it is selected and a node is added. *)
Definition visit_A : list (Event Node EdgeSync.Edge) :=
  [InstallSelect installation_A; NodesChange [slab_node]].

(** The visit, followed by the selection of installation B. *)
Definition session_A_B : list (Event Node EdgeSync.Edge) :=
  visit_A ++ [InstallSelect installation_B].

(** A visit to installation 0: it is selected and a node is added. *)
Definition visit_0 : list (Event Node EdgeSync.Edge) :=
  [InstallSelect installation_0; NodesChange [steel_node]].

(** The visit, followed by the selection of installation A. *)
Definition session_0 : list (Event Node EdgeSync.Edge) :=
  visit_0 ++ [InstallSelect installation_A].

(** On the hook: installation A is selected, ReactFlow reports a node on
    its canvas through [onNodesChange], installation B is selected for the
    first time. *)
Definition hook_session_A_B
  : list (CanvasHook.HookEvent Node EdgeSync.Edge) :=
  [CanvasHook.SelectedInstall (Some installation_A);
   CanvasHook.OnNodesChange [slab_node];
   CanvasHook.SelectedInstall (Some installation_B)].

End Scenario.

(** ** Two selected nodes, for the group walk-through *)

Module GroupScenario.
Import NodeFactory(XYPosition, x, y, Build_XYPosition) Groups.

(** A 50 by 50 step node at a given place. *)
Definition step_at (i : string) (px py : Q) : Node :=
  {| id := i; type := "processStep";
     position := {| x := px; y := py |};
     data := OfStep i;
     style := {| width := Some 50%Q; height := Some 50%Q; other_css := [] |} |}.

(** Nodes at (100,100) and (300,200), both selected, a name typed in. *)
Definition two_selected : State :=
  {| nodes := [step_at "n1" 100 100; step_at "n2" 300 200];
     selectedNodes := ["n1"; "n2"];
     showGroupModal := true;
     groupName := "line 1";
     groupType := product |}.

(** One selected node only. *)
Definition one_selected : State :=
  {| nodes := [step_at "n1" 100 100; step_at "n2" 300 200];
     selectedNodes := ["n1"];
     showGroupModal := false;
     groupName := "";
     groupType := product |}.

(** A canvas with a group around ["n1"] and ["n2"], drawn when they stood
    elsewhere, and a group whose members are gone. *)
Definition with_groups : list Node :=
  [step_at "n1" 100 100; step_at "n2" 300 200;
   {| id := "group-1"; type := "group";
      position := {| x := 0; y := 0 |};
      data := OfGroup {| label := "line 1"; group_type := product;
                         group_nodes := ["n1"; "n2"]; isCollapsed := false;
                         boundaryType := "output";
                         cbamData := {| carbonIntensity := 0;
                                        materialFlow := 0;
                                        energyConsumption := 0 |} |};
      style := {| width := Some 10%Q; height := Some 10%Q;
                  other_css := [] |} |};
   {| id := "group-2"; type := "group";
      position := {| x := 7; y := 9 |};
      data := OfGroup {| label := "empty"; group_type := process;
                         group_nodes := ["gone"]; isCollapsed := false;
                         boundaryType := "internal";
                         cbamData := {| carbonIntensity := 0;
                                        materialFlow := 0;
                                        energyConsumption := 0 |} |};
      style := {| width := Some 30%Q; height := Some 40%Q;
                  other_css := [] |} |}].

End GroupScenario.


(** * Double: the arithmetic of JavaScript numbers

    A JavaScript number is an IEEE 754 double. A finite double is taken as
    the rational it denotes, and [a - b] and [a + b] as the exact
    difference and sum rounded to the nearest double, the one with the even
    significand of two that are equally near. Comparisons, [Math.min] and
    [Math.max] do not round. Infinities and NaN are not values of this
    model: it follows a computation as long as its results stay within the
    range of the finite doubles. *)

Module Double.
Local Open Scope Q_scope.

(** [floor (log2 |q|)], for [q] other than 0. *)
Definition exponent (q : Q) : Z :=
  let e := (Z.log2 (Z.abs (Qnum q)) - Z.log2 (Zpos (Qden q)))%Z in
  if Qle_bool (2 ^ e) (Qabs q) then e else (e - 1)%Z.

(** The integer nearest to [m], the even one of two that are equally
    near. *)
Definition nearest_even (m : Q) : Z :=
  let below := Qfloor m in
  match Qcompare (m - inject_Z below) (1 # 2) with
  | Lt => below
  | Gt => (below + 1)%Z
  | Eq => if Z.even below then below else (below + 1)%Z
  end.

(** The distance between neighbouring doubles at [q]: 53 significant bits,
    and no exponent below -1022. *)
Definition ulp (q : Q) : Q := 2 ^ (Z.max (exponent q) (-1022) - 52).

(** The double nearest to [q]. *)
Definition round (q : Q) : Q :=
  if Qeq_bool q 0 then 0
  else Qred (inject_Z (nearest_even (q / ulp q)) * ulp q).

(** [a - b] and [a + b] on doubles. *)
Definition sub (a b : Q) : Q := round (a - b).
Definition add (a b : Q) : Q := round (a + b).

(** The value of a number literal, written as a fraction. *)
Definition literal (q : Q) : Q := round q.

(** The rational a double of the kernel denotes; [None] for an infinity
    and for NaN. *)
Definition value (f : PrimFloat.float) : option Q :=
  match FloatOps.Prim2SF f with
  | SpecFloat.S754_zero _ => Some 0
  | SpecFloat.S754_finite negative m e =>
      Some (Qred ((if negative then -1 else 1) * inject_Z (Zpos m) * 2 ^ e))
  | _ => None
  end.

End Double.


(** * Group resizing in double precision

    [Groups.updateGroupSize] writes the new position and size of a group
    by the formulas of the source, over the rationals. The source
    evaluates the formulas on doubles. This is [updateGroupSize] with the
    rounding of each subtraction and addition; the members are found and
    their extremes taken as in [Groups], for neither rounds. *)

Module DoubleGroups.
Import NodeFactory(XYPosition, x, y, Build_XYPosition) Groups.

(** The node a group is replaced by once its members are measured:
    [minX - 50], [minY - 50], [maxX - minX + 200] and [maxY - minY + 200]
    as the source evaluates them. *)
Definition resized (node first : Node) (rest : list Node) : Node :=
  {| id := id node;
     type := type node;
     position := {| x := Double.sub (minX first rest) 50;
                    y := Double.sub (minY first rest) 50 |};
     data := data node;
     style :=
       {| width :=
            Some (Double.add
                    (Double.sub (maxX first rest) (minX first rest)) 200);
          height :=
            Some (Double.add
                    (Double.sub (maxY first rest) (minY first rest)) 200);
          other_css := other_css (style node) |} |}.

(** The updater [updateGroupSize] passes to [setNodes] (lines 658-689). *)
Definition updateGroupSize (groupId : string) (prevNodes : list Node)
  : list Node :=
  match List.find (fun node => String.eqb (id node) groupId) prevNodes with
  | None => prevNodes
  | Some groupNode =>
      if negb (String.eqb (type groupNode) "group") then prevNodes
      else
        match data_nodes groupNode with
        | None => prevNodes
        | Some members =>
            match groupNodes members prevNodes with
            | [] => prevNodes
            | first :: rest =>
                (fun node =>
                   if String.eqb (id node) groupId
                   then resized node first rest
                   else node) <$> prevNodes
            end
        end
  end.


(** The rounded position and size of a group drawn around the extremes
    are the exact ones. *)
Definition exact (minX minY maxX maxY : Q) : Prop :=
  (Double.sub minX 50 == minX - 50)%Q ∧
  (Double.sub minY 50 == minY - 50)%Q ∧
  (Double.add (Double.sub maxX minX) 200 == maxX - minX + 200)%Q ∧
  (Double.add (Double.sub maxY minY) 200 == maxY - minY + 200)%Q.

(** A position on the integer grid, no further than 2^50 from the
    origin. *)
Definition on_grid (p : XYPosition) : Prop :=
  ∃ a b : Z, p = {| x := inject_Z a; y := inject_Z b |} ∧
             (Z.abs a <= 2 ^ 50)%Z ∧ (Z.abs b <= 2 ^ 50)%Z.



End DoubleGroups.

(** * Retry: the retry loop of the axios client and the handler of rejected
    responses that starts it *)

Module Retry.

Record AxiosResponse := {
  status : Z;
  statusText : string
}.

(** [error.config]; [_retry] is the mark the handler leaves on it. *)
Record AxiosRequestConfig := {
  url : string;
  _retry : bool
}.

Record AxiosError := {
  message : string;
  response : option AxiosResponse;
  config : option AxiosRequestConfig
}.

(** What a call of the axios instance settles to. *)
Inductive Settled :=
  | Fulfilled (r : AxiosResponse)
  | Rejected (error : AxiosError).

(** What a run does besides settling, in order. *)
Inductive Event :=
  | Call (attempt : nat)
  | Wait (ms : Z)
  | ConsoleError (error : AxiosError)
  | PendingDelete (c : AxiosRequestConfig)
  | RemoveItem (key : string)
  | Redirect (href : string).

(** [(axiosError.response?.status && axiosError.response.status >= 500) ||
    !axiosError.response], the test of [retryRequest]. *)
Definition retryable (error : AxiosError) : bool :=
  match response error with
  | Some r => negb (status r =? 0) && (500 <=? status r)
  | None => true
  end.

(** [error.response?.status >= 500 || !error.response], the test of the
    response handler. *)
Definition server_or_network_error (error : AxiosError) : bool :=
  match response error with
  | Some r => 500 <=? status r
  | None => true
  end.

(** [retryRequest(axiosInstance, config, retries)]. The instance is what it
    answers call after call: [axiosInstance attempt] is the outcome of call
    number [attempt]. [retries] is a natural number at every call site (the
    default 3, then [retries - 1] under [retries > 0]). *)
Fixpoint retryRequest (axiosInstance : nat -> Settled) (attempt : nat)
    (retries : nat) : list Event * Settled :=
  match axiosInstance attempt with
  | Fulfilled r => ([Call attempt], Fulfilled r)
  | Rejected error =>
      match retries with
      | S retries' =>
          if retryable error then
            let '(trace, settled) :=
              retryRequest axiosInstance (S attempt) retries' in
            (Call attempt :: Wait (1000 * (4 - Z.of_nat retries)) :: trace,
             settled)
          else ([Call attempt], Rejected error)
      | O => ([Call attempt], Rejected error)
      end
  end.

(** What the transport answers to a call of the client, before the
    handlers of the response run: a response that fulfils the call; a
    failure that axios reports, to which it attaches the config of the
    call, with the response when there was one; or an error thrown before
    the request left (the request handler refuses a url that is not an API
    route), which carries neither. *)
Inductive Answer :=
  | Resolves (r : AxiosResponse)
  | Fails (reason : string) (r : option AxiosResponse)
  | Throws (reason : string).

(** The handler of rejected responses past its retry branch: the error is
    logged, the request leaves the pending ones, a 401 clears the stored
    session in the browser, and the error is rejected as it came.
    [in_browser] is [typeof window !== 'undefined']. *)
Definition reject (in_browser : bool) (error : AxiosError)
  : list Event * Settled :=
  let logged :=
    ConsoleError error ::
    match config error with Some c => [PendingDelete c] | None => [] end in
  let cleanup :=
    match response error with
    | Some r =>
        if (status r =? 401) && in_browser
        then [RemoveItem "auth_token"; RemoveItem "refresh_token";
              RemoveItem "user_email"; Redirect "/"]
        else []
    | None => []
    end in
  (logged ++ cleanup, Rejected error).

(** [axiosClient(config)] for a config that bears the mark: the answer of
    the transport goes through the handlers of the response (lines
    331-390). The handler of fulfilled responses takes the request off the
    pending ones; the
    handler of rejected responses finds the mark on the config and does
    not retry ([on_rejected_marked]). Of the console, the trace keeps the
    errors. *)
Definition axiosClient (in_browser : bool) (c : AxiosRequestConfig)
    (answer : Answer) : list Event * Settled :=
  match answer with
  | Resolves r => ([PendingDelete c], Fulfilled r)
  | Fails reason r =>
      reject in_browser
        {| message := reason; response := r; config := Some c |}
  | Throws reason =>
      reject in_browser
        {| message := reason; response := None; config := None |}
  end.

(** The trace of a retry loop with what each call of the client did
    itself, at the place of the call. *)
Definition during (client : nat -> list Event * Settled)
    (trace : list Event) : list Event :=
  flat_map
    (fun e => match e with Call k => Call k :: (client k).1 | _ => [e] end)
    trace.

(** The handler of rejected responses of [axiosClient] (lines 348-390).
    [transport c k] is what the transport answers to call number [k] of
    the client with the config [c]. The loop is handed [axiosClient]
    itself, so every call it makes passes through the handlers of the
    response again. *)
Definition on_rejected (transport : AxiosRequestConfig -> nat -> Answer)
    (in_browser : bool) (error : AxiosError) : list Event * Settled :=
  let retried :=
    if server_or_network_error error then
      match config error with
      | Some c =>
          if negb (_retry c)
          then
            let marked := {| url := url c; _retry := true |} in
            let client k :=
              axiosClient in_browser marked (transport marked k) in
            Some (client, retryRequest (fun k => (client k).2) 0 3)
          else None
      | None => None
      end
    else None in
  match retried with
  | Some (client, (trace, settled)) =>
      (ConsoleError error ::
       match config error with Some c => [PendingDelete c] | None => [] end
       ++ during client trace,
       settled)
  | None => reject in_browser error
  end.

(** The calls and the waits of a trace. *)
Definition calls (trace : list Event) : list nat :=
  omap (fun e => match e with Call k => Some k | _ => None end) trace.
Definition waits (trace : list Event) : list Z :=
  omap (fun e => match e with Wait ms => Some ms | _ => None end) trace.

(** A call that the loop answers with another call. *)
Definition retried (settled : Settled) : Prop :=
  match settled with
  | Rejected error => retryable error = true
  | Fulfilled _ => False
  end.

(** A trace that touches the stored session. *)
Definition clears_session (trace : list Event) : Prop :=
  RemoveItem "auth_token" ∈ trace.

End Retry.


(** * AuthForm: the validation of the login and registration form *)

Module AuthForm.

(** A JavaScript string, as the code units [length], [!==] and a regular
    expression without the unicode flag see. *)
Definition JsString := list N.

Definition AT : N := 64.
Definition DOT : N := 46.

(** [\s]: the white space and line terminators of ECMAScript. *)
Definition is_white_space (c : N) : bool :=
  ((9 <=? c) && (c <=? 13) || (c =? 32) || (c =? 160) || (c =? 5760)
   || (8192 <=? c) && (c <=? 8202) || (c =? 8232) || (c =? 8233)
   || (c =? 8239) || (c =? 8287) || (c =? 12288) || (c =? 65279))%N.

(** [[^\s@]]. *)
Definition plain (c : N) : bool :=
  negb (is_white_space c) && negb (c =? AT)%N.

(** [[^\s@]+] followed by [k]: one plain code unit, then either more of
    them or what follows, the longer match tried first. *)
Fixpoint plus_plain (k : JsString -> bool) (s : JsString) : bool :=
  match s with
  | [] => false
  | c :: s' => plain c && (plus_plain k s' || k s')
  end.

(** [/^[^\s@]+@[^\s@]+\.[^\s@]+$/.test(s)]. *)
Definition email_test (s : JsString) : bool :=
  plus_plain
    (fun s1 =>
       match s1 with
       | c1 :: s2 =>
           (c1 =? AT)%N &&
           plus_plain
             (fun s3 =>
                match s3 with
                | c3 :: s4 =>
                    (c3 =? DOT)%N &&
                    plus_plain (fun s5 => bool_decide (s5 = [])) s4
                | [] => false
                end) s2
       | [] => false
       end) s.

Inductive FormType := login | register.

Record AuthFormData := {
  email : JsString;
  password : JsString;
  fullName : JsString;
  confirmPassword : JsString
}.

Inductive Field := f_email | f_password | f_fullName | f_confirmPassword.

(** [Partial<AuthFormData>] as the form uses it: a message per field, or
    none. *)
Definition Errors := Field -> option string.

Definition no_errors : Errors := fun _ => None.

Definition set_error (errors : Errors) (field : Field) (m : option string)
  : Errors :=
  fun f =>
    match f, field with
    | f_email, f_email | f_password, f_password | f_fullName, f_fullName
    | f_confirmPassword, f_confirmPassword => m
    | _, _ => errors f
    end.

Definition fields : list Field :=
  [f_email; f_password; f_fullName; f_confirmPassword].

(** [Object.keys(errors)] of the object [validateForm] builds: the fields it
    assigned a message to. *)
Definition keys (errors : Errors) : list Field :=
  filter (fun f => is_Some (errors f)) fields.

Record State := {
  formData : AuthFormData;
  validationErrors : Errors
}.

Definition is_empty (s : JsString) : bool := bool_decide (s = []).

(** [validateForm]: the errors it stores and its verdict. *)
Definition validateForm (type : FormType) (st : State) : State * bool :=
  let d := formData st in
  let errors := no_errors in
  let errors :=
    if is_empty (email d)
    then set_error errors f_email (Some "이메일을 입력해주세요")
    else if negb (email_test (email d))
    then set_error errors f_email (Some "올바른 이메일 형식을 입력해주세요")
    else errors in
  let errors :=
    if is_empty (password d)
    then set_error errors f_password (Some "비밀번호를 입력해주세요")
    else if (List.length (password d) <? 6)%nat
    then set_error errors f_password (Some "비밀번호는 최소 6자 이상이어야 합니다")
    else errors in
  let errors :=
    match type with
    | register =>
        let errors :=
          if is_empty (fullName d)
          then set_error errors f_fullName (Some "이름을 입력해주세요")
          else if (List.length (fullName d) <? 2)%nat
          then set_error errors f_fullName (Some "이름은 최소 2자 이상이어야 합니다")
          else errors in
        if is_empty (confirmPassword d)
        then set_error errors f_confirmPassword
               (Some "비밀번호 확인을 입력해주세요")
        else if negb (bool_decide (confirmPassword d = password d))
        then set_error errors f_confirmPassword
               (Some "비밀번호가 일치하지 않습니다")
        else errors
    | login => errors
    end in
  ({| formData := d; validationErrors := errors |},
   (List.length (keys errors) =? 0)%nat).

(** What [onSubmit] receives: the two names are there for a registration
    only. *)
Record Submitted := {
  sub_email : JsString;
  sub_password : JsString;
  sub_fullName : option JsString;
  sub_confirmPassword : option JsString
}.

(** [handleSubmit]: the state after it and the call of [onSubmit], if it
    makes one. *)
Definition handleSubmit (type : FormType) (st : State)
  : State * option Submitted :=
  let '(st', valid) := validateForm type st in
  if valid then
    let d := formData st in
    (st',
     Some {| sub_email := email d;
             sub_password := password d;
             sub_fullName :=
               match type with
               | register => Some (fullName d)
               | login => None
               end;
             sub_confirmPassword :=
               match type with
               | register => Some (confirmPassword d)
               | login => None
               end |})
  else (st', None).

(** What the three parts of an accepted address look like. *)
Definition part (s : JsString) : Prop :=
  s ≠ [] ∧ Forall (fun c => plain c = true) s.

End AuthForm.


(** * Catalog: the product and process lists the component fetches for the
    selected installation (components/cbam/ProcessManager.tsx) *)

Module Catalog.
Import NodeFactory.

(** The awaited [axiosClient.get]: the rows of [response.data], or a
    throw. *)
Inductive Fetched (A : Type) :=
  | Rows (data : list A)
  | Thrown.
Arguments Rows {A} data.
Arguments Thrown {A}.

(** [fetchProductsByInstall]: what it hands to [setProducts]. *)
Definition fetchProductsByInstall (installId : Z)
    (response : Fetched Product) : list Product :=
  match response with
  | Rows data =>
      List.filter (fun product => install_id product =? installId) data
  | Thrown => []
  end.

(** [process.products && process.products.some(p =>
     productIds.includes(p.id))]. *)
Definition linked_to (productIds : list Z) (process : Process) : bool :=
  match products process with
  | Some ps =>
      existsb (fun p => existsb (Z.eqb (product_id p)) productIds) ps
  | None => false
  end.

(** [fetchProcessesByInstall]: what it hands to [setProcesses]; [products]
    is the product list of the render the callback was made in. *)
Definition fetchProcessesByInstall (installId : Z) (products : list Product)
    (response : Fetched Process) : list Process :=
  match response with
  | Rows data =>
      let installProducts :=
        List.filter (fun product => install_id product =? installId)
                    products in
      let productIds := product_id <$> installProducts in
      List.filter (linked_to productIds) data
  | Thrown => []
  end.

(** [fetchAllProcessesByInstall]: what it hands to [setAllProcesses]. *)
Definition fetchAllProcessesByInstall (installId : Z)
    (products : list Product) (response : Fetched Process) : list Process :=
  match response with
  | Rows data =>
      let installProducts :=
        List.filter (fun product => install_id product =? installId)
                    products in
      let productIds := product_id <$> installProducts in
      List.filter (linked_to productIds) data
  | Thrown => []
  end.

(** [fetchAllCrossInstallProcesses]: what it hands to
    [setCrossInstallProcesses]; the installation is [selectedInstall?.id]. *)
Definition fetchAllCrossInstallProcesses
    (selectedInstall : option GraphStore.Install) (products : list Product)
    (response : Fetched Process) : list Process :=
  match response with
  | Rows data =>
      let currentInstallProducts :=
        List.filter
          (fun product =>
             bool_decide (Some (install_id product)
                          = selected_id selectedInstall))
          products in
      let productIds := product_id <$> currentInstallProducts in
      List.filter (linked_to productIds) data
  | Thrown => []
  end.

(** [fetchProcessesByProduct]: what it hands to [setProcesses]. *)
Definition fetchProcessesByProduct (productId : Z)
    (response : Fetched Process) : list Process :=
  match response with
  | Rows data =>
      List.filter
        (fun process =>
           match products process with
           | Some ps => existsb (fun p => product_id p =? productId) ps
           | None => false
           end)
        data
  | Thrown => []
  end.

End Catalog.


(** * The component and the hook side by side

    Both keep one canvas per installation. A session of the hook's own
    actions is replayed on the component: a selection is a click in the
    installation modal, an added node or edge goes through [addNodes] or
    [addEdges]. *)

Module TwoStores.
Import GraphStore.

Section Replay.
Context {Node Edge : Type} `{!EqDecision Node, !EqDecision Edge}.

(** The component event that stands for an action of the hook, on the
    component state [s]. *)
Definition as_component_event (ev : CanvasHook.HookEvent Node Edge)
    (s : State Node Edge) : option (Event Node Edge) :=
  match ev with
  | CanvasHook.SelectedInstall (Some install) => Some (InstallSelect install)
  | CanvasHook.AddNode newNode => Some (NodesChange (nodes s ++ [newNode]))
  | CanvasHook.AddEdge edgeToAdd =>
      Some (EdgesChange (edges s ++ [edgeToAdd]))
  | _ => None
  end.

(** The session, replayed on the component from mount. *)
Definition replay (evs : list (CanvasHook.HookEvent Node Edge))
  : State Node Edge :=
  foldl (fun s ev =>
           match as_component_event ev s with
           | Some cev => (step cev s).1
           | None => s
           end)
        initial evs.

(** An action of the hook that the component has too, on an installation
    whose id is not 0. *)
Definition shared_action (ev : CanvasHook.HookEvent Node Edge) : bool :=
  match ev with
  | CanvasHook.SelectedInstall (Some install) =>
      negb (install_id install =? 0)
  | CanvasHook.AddNode _ | CanvasHook.AddEdge _ => true
  | _ => false
  end.

(** The hook and the component show and store the same. *)
Definition agree (r : CanvasHook.Rendered Node Edge) (s : State Node Edge)
  : Prop :=
  CanvasHook.hook_live r.2 = live s ∧
  CanvasHook.installCanvases r.2 = installCanvases s ∧
  install_id <$> r.1 = activeInstallId s.

End Replay.

End TwoStores.


(** * FlowApi: saving a canvas through the boundary service and reading it
    back (hook [useReactFlowAPI]) *)

Module FlowApi.
Import NodeFactory(XYPosition, x, y, Build_XYPosition).

Section Api.
(** What the hook passes on without looking into it: [data] and [style] of
    a node or an edge, and whatever other properties they have. *)
Context {Data Style Rest : Type}.

Record Node := {
  id : string;
  type : option string;
  position : XYPosition;
  data : Data;
  width : option Q;
  height : option Q;
  style : option Style;
  node_rest : option Rest
}.

Record Edge := {
  edge_id : string;
  source : string;
  target : string;
  sourceHandle : option string;
  targetHandle : option string;
  edge_type : option string;
  edge_data : option Data;
  edge_style : option Style;
  edge_rest : option Rest
}.

Record Viewport := { vx : Q; vy : Q; zoom : Q }.

(** The body of [POST /node]. *)
Record NodePayload := {
  n_flow_id : string;
  n_node_id : string;
  n_type : option string;
  n_position : XYPosition;
  n_data : Data;
  n_width : option Q;
  n_height : option Q;
  n_style : option Style
}.

(** The body of [POST /edge]. *)
Record EdgePayload := {
  e_flow_id : string;
  e_edge_id : string;
  e_source : string;
  e_target : string;
  e_source_handle : option string;
  e_target_handle : option string;
  e_type : option string;
  e_data : option Data;
  e_style : option Style
}.

Inductive Request :=
  | PostFlow (name description : string)
  | PostNode (body : NodePayload)
  | PostEdge (body : EdgePayload)
  | PutViewport (flow_id : string) (v : Viewport).

(** What a run does: the requests it sends and the failures the four
    wrappers write to the console. *)
Inductive Event :=
  | Sent (r : Request)
  | ConsoleError (r : Request).

(** The service: whether it answers the call number [k] of a run, and the
    id of the flow it answers [POST /flow] with when it does. *)
Record Service := {
  answers : nat -> bool;
  new_flow_id : string
}.

(** A run against the service: it counts the calls made so far and keeps
    the log. *)
Definition Api (A : Type) : Type := nat -> A * (nat * list Event).

#[local] Instance api_ret : MRet Api := fun A a k => (a, (k, [])).
#[local] Instance api_bind : MBind Api :=
  fun A B f m k =>
    let '(a, (k1, log1)) := m k in
    let '(b, (k2, log2)) := f a k1 in
    (b, (k2, log1 ++ log2)).

(** [await api.post(...)] or [await api.put(...)]: whether it resolved. *)
Definition call (service : Service) (r : Request) : Api bool :=
  fun k => (answers service k, (S k, [Sent r])).

Definition console_error (r : Request) : Api unit :=
  fun k => (tt, (k, [ConsoleError r])).

(** [createFlow]: the id of [flowData], or [null] after a failure. *)
Definition createFlow (service : Service) (name description : string)
  : Api (option string) :=
  resolved ← call service (PostFlow name description);
  if resolved : bool then mret (Some (new_flow_id service))
  else console_error (PostFlow name description) ;; mret None.

(** [createNode], [createEdge] and [updateViewport]: each catches its own
    failure. *)
Definition createNode (service : Service) (body : NodePayload) : Api unit :=
  resolved ← call service (PostNode body);
  if resolved : bool then mret tt else console_error (PostNode body).

Definition createEdge (service : Service) (body : EdgePayload) : Api unit :=
  resolved ← call service (PostEdge body);
  if resolved : bool then mret tt else console_error (PostEdge body).

Definition updateViewport (service : Service) (flow_id : string)
    (v : Viewport) : Api bool :=
  resolved ← call service (PutViewport flow_id v);
  if resolved : bool then mret true
  else console_error (PutViewport flow_id v) ;; mret false.

Definition node_payload (flowId : string) (node : Node) : NodePayload :=
  {| n_flow_id := flowId; n_node_id := id node; n_type := type node;
     n_position := position node; n_data := data node;
     n_width := width node; n_height := height node;
     n_style := style node |}.

Definition edge_payload (flowId : string) (edge : Edge) : EdgePayload :=
  {| e_flow_id := flowId; e_edge_id := edge_id edge;
     e_source := source edge; e_target := target edge;
     e_source_handle := sourceHandle edge;
     e_target_handle := targetHandle edge;
     e_type := edge_type edge; e_data := edge_data edge;
     e_style := edge_style edge |}.

(** [for (const a of l) await f(a)]. *)
Fixpoint for_each {A : Type} (f : A -> Api unit) (l : list A) : Api unit :=
  match l with
  | [] => mret tt
  | a :: l' => f a ;; for_each f l'
  end.

(** [saveFlowState] once a flow id is at hand. *)
Definition save_under (service : Service) (flowId : string)
    (nodes : list Node) (edges : list Edge) (viewport : Viewport)
  : Api bool :=
  for_each (fun node => createNode service (node_payload flowId node))
           nodes ;;
  for_each (fun edge => createEdge service (edge_payload flowId edge))
           edges ;;
  updateViewport service flowId viewport ;;
  mret true.

(** [saveFlowState]: its verdict, the number of calls made and the log. *)
Definition saveFlowState (service : Service) (flowId : string)
    (nodes : list Node) (edges : list Edge) (viewport : Viewport)
  : Api bool :=
  if String.eqb flowId "" then
    flowData ← createFlow service "새 플로우" "새로 생성된 플로우";
    match flowData with
    | Some created => save_under service created nodes edges viewport
    | None => mret false
    end
  else save_under service flowId nodes edges viewport.

(** The requests in a log. *)
Definition sent (log : list Event) : list Request :=
  omap (fun e => match e with Sent r => Some r | ConsoleError _ => None end)
       log.

(** The requests [saveFlowState] sends for a canvas once the flow id is
    at hand: the nodes in order, the edges in order, the viewport. *)
Definition canvas_requests (flowId : string) (nodes : list Node)
    (edges : list Edge) (viewport : Viewport) : list Request :=
  ((fun node => PostNode (node_payload flowId node)) <$> nodes)
  ++ ((fun edge => PostEdge (edge_payload flowId edge)) <$> edges)
  ++ [PutViewport flowId viewport].

(** [backendState] as [convertBackendToFrontend] reads it. *)
Record Flow := {
  flow_id : string;
  flow_viewport : Viewport
}.

Record BackendState := {
  flow : Flow;
  backend_nodes : list NodePayload;
  backend_edges : list EdgePayload
}.

Record FrontendState := {
  flowId : string;
  front_flow : Flow;
  nodes : list Node;
  edges : list Edge;
  viewport : Viewport
}.

(** [convertBackendToFrontend]. *)
Definition convertBackendToFrontend (backendState : BackendState)
  : FrontendState :=
  {| flowId := flow_id (flow backendState);
     front_flow := flow backendState;
     nodes :=
       (fun nodeData =>
          {| id := n_node_id nodeData; type := n_type nodeData;
             position := n_position nodeData; data := n_data nodeData;
             width := n_width nodeData; height := n_height nodeData;
             style := n_style nodeData; node_rest := None |})
         <$> backend_nodes backendState;
     edges :=
       (fun edgeData =>
          {| edge_id := e_edge_id edgeData; source := e_source edgeData;
             target := e_target edgeData;
             sourceHandle := e_source_handle edgeData;
             targetHandle := e_target_handle edgeData;
             edge_type := e_type edgeData; edge_data := e_data edgeData;
             edge_style := e_style edgeData; edge_rest := None |})
         <$> backend_edges backendState;
     viewport := flow_viewport (flow backendState) |}.

(** A node and an edge without the properties that are not saved. *)
Definition saved_node (node : Node) : Node :=
  {| id := id node; type := type node; position := position node;
     data := data node; width := width node; height := height node;
     style := style node; node_rest := None |}.

Definition saved_edge (edge : Edge) : Edge :=
  {| edge_id := edge_id edge; source := source edge; target := target edge;
     sourceHandle := sourceHandle edge; targetHandle := targetHandle edge;
     edge_type := edge_type edge; edge_data := edge_data edge;
     edge_style := edge_style edge; edge_rest := None |}.

(** The state of a service that stored what it was sent for one flow. *)
Definition stored (flowId : string) (v : Viewport) (requests : list Request)
  : BackendState :=
  {| flow := {| flow_id := flowId; flow_viewport := v |};
     backend_nodes :=
       omap (fun r => match r with PostNode body => Some body | _ => None end)
            requests;
     backend_edges :=
       omap (fun r => match r with PostEdge body => Some body | _ => None end)
            requests |}.

End Api.

Arguments Node : clear implicits.
Arguments Edge : clear implicits.
Arguments NodePayload : clear implicits.
Arguments EdgePayload : clear implicits.
Arguments Request : clear implicits.
Arguments Event : clear implicits.
Arguments Service : clear implicits.
Arguments BackendState : clear implicits.
Arguments FrontendState : clear implicits.
Arguments Api : clear implicits.

End FlowApi.


(** * MatDir: the direct emissions of the raw materials of a process
    (components/cbam/ProcessManager.tsx, the [matDir] state and handlers) *)

Module MatDir.
Import NodeFactory(Process, process_id).

Record MatDirForm := {
  mat_name : string;
  mat_factor : Q;
  mat_amount : Q;
  oxyfactor : Q
}.

(** The form as [openMatDirModal] and a successful calculation leave it. *)
Definition blank : MatDirForm :=
  {| mat_name := ""; mat_factor := 0; mat_amount := 0; oxyfactor := 1 |}.

(** [response.data] of the calculation; [matdir_em] is a number or not. *)
Record Calculation := {
  matdir_em : option Q;
  calculation_formula : string
}.

(** An entry of [matDirResults]. *)
Record Result := {
  result_id : Z;
  r_mat_name : string;
  r_mat_factor : Q;
  r_mat_amount : Q;
  r_oxyfactor : Q;
  r_matdir_em : option Q;
  r_calculation_formula : string
}.

Record State := {
  showMatDirModal : bool;
  selectedProcessForMatDir : option Process;
  matDirForm : MatDirForm;
  matDirResults : list Result;
  isCalculatingMatDir : bool
}.

Definition initial : State :=
  {| showMatDirModal := false; selectedProcessForMatDir := None;
     matDirForm := blank; matDirResults := [];
     isCalculatingMatDir := false |}.

Inductive AlertMessage :=
  | FillAllFields
  | CalculationFailed
  | NothingToSave
  | SavedAll
  | SaveFailed.

(** The body of [POST /api/v1/boundary/matdir]. *)
Record SaveRequest := {
  s_process_id : Z;
  s_mat_name : string;
  s_mat_factor : Q;
  s_mat_amount : Q;
  s_oxyfactor : Q
}.

Inductive Effect :=
  | Alert (msg : AlertMessage)
  | PostCalculate (amount factor oxy : Q)
  | PostMatDir (body : SaveRequest).

(** [openMatDirModal]. *)
Definition openMatDirModal (process : Process) (st : State) : State :=
  {| showMatDirModal := true; selectedProcessForMatDir := Some process;
     matDirForm := blank; matDirResults := [];
     isCalculatingMatDir := isCalculatingMatDir st |}.

(** [!matDirForm.mat_name || matDirForm.mat_factor <= 0 ||
     matDirForm.mat_amount <= 0]. *)
Definition incomplete (form : MatDirForm) : bool :=
  String.eqb (mat_name form) "" || Qle_bool (mat_factor form) 0
  || Qle_bool (mat_amount form) 0.

(** [calculateMatDirEmission]; [answer] is what the calculation request
    resolves with, if it resolves, and [now] the reading of [Date.now()]. *)
Definition calculateMatDirEmission (answer : option Calculation) (now : Z)
    (st : State) : State * list Effect :=
  let form := matDirForm st in
  if incomplete form then (st, [Alert FillAllFields])
  else
    let request :=
      PostCalculate (mat_amount form) (mat_factor form) (oxyfactor form) in
    match answer with
    | Some calculationResult =>
        ({| showMatDirModal := showMatDirModal st;
            selectedProcessForMatDir := selectedProcessForMatDir st;
            matDirForm := blank;
            matDirResults :=
              matDirResults st ++
              [{| result_id := now;
                  r_mat_name := mat_name form;
                  r_mat_factor := mat_factor form;
                  r_mat_amount := mat_amount form;
                  r_oxyfactor := oxyfactor form;
                  r_matdir_em := matdir_em calculationResult;
                  r_calculation_formula :=
                    calculation_formula calculationResult |}];
            isCalculatingMatDir := false |},
         [request])
    | None =>
        ({| showMatDirModal := showMatDirModal st;
            selectedProcessForMatDir := selectedProcessForMatDir st;
            matDirForm := matDirForm st;
            matDirResults := matDirResults st;
            isCalculatingMatDir := false |},
         [request; Alert CalculationFailed])
    end.

(** The request [saveMatDirData] makes for a result. *)
Definition requestData (process : Process) (result : Result) : SaveRequest :=
  {| s_process_id := process_id process;
     s_mat_name := r_mat_name result;
     s_mat_factor := r_mat_factor result;
     s_mat_amount := r_mat_amount result;
     s_oxyfactor := r_oxyfactor result |}.

(** [saveMatDirData]; [resolves k] tells whether the request made for the
    result of index [k] resolves. All requests are made before any is
    awaited. *)
Definition saveMatDirData (resolves : nat -> bool) (st : State)
  : State * list Effect :=
  match selectedProcessForMatDir st, matDirResults st with
  | Some process, _ :: _ =>
      let savePromises :=
        PostMatDir ∘ requestData process <$> matDirResults st in
      if forallb resolves (seq 0 (List.length (matDirResults st)))
      then
        ({| showMatDirModal := false; selectedProcessForMatDir := None;
            matDirForm := matDirForm st; matDirResults := [];
            isCalculatingMatDir := isCalculatingMatDir st |},
         savePromises ++ [Alert SavedAll])
      else (st, savePromises ++ [Alert SaveFailed])
  | _, _ => (st, [Alert NothingToSave])
  end.

(** [prev.filter((_, i) => i !== index)], counting from [i]. *)
Fixpoint without_index {A : Type} (index i : nat) (prev : list A) : list A :=
  match prev with
  | [] => []
  | a :: prev' =>
      if (i =? index)%nat then without_index index (S i) prev'
      else a :: without_index index (S i) prev'
  end.

(** [removeMatDirResult]. *)
Definition removeMatDirResult (index : nat) (st : State) : State :=
  {| showMatDirModal := showMatDirModal st;
     selectedProcessForMatDir := selectedProcessForMatDir st;
     matDirForm := matDirForm st;
     matDirResults := without_index index 0 (matDirResults st);
     isCalculatingMatDir := isCalculatingMatDir st |}.


(** What happens in the modal. *)
Inductive Event :=
  | Open (process : Process)
  | Edit (form : MatDirForm)
  | Calculate (answer : option Calculation) (now : Z)
  | Remove (index : nat)
  | Save (resolves : nat -> bool).

Definition handle (ev : Event) (st : State) : State * list Effect :=
  match ev with
  | Open process => (openMatDirModal process st, [])
  | Edit form =>
      ({| showMatDirModal := showMatDirModal st;
          selectedProcessForMatDir := selectedProcessForMatDir st;
          matDirForm := form; matDirResults := matDirResults st;
          isCalculatingMatDir := isCalculatingMatDir st |}, [])
  | Calculate answer now => calculateMatDirEmission answer now st
  | Remove index => (removeMatDirResult index st, [])
  | Save resolves => saveMatDirData resolves st
  end.

(** A session in the component, from mount. *)
Definition run (evs : list Event) : State :=
  foldl (fun st ev => (handle ev st).1) initial evs.



End MatDir.


(** * Properties *)

(** ** The node-id decoder and the edge handler *)

Module EdgeSyncFacts.
Import Js EdgeSync.

(** The pattern is searched for, not anchored: the leftmost match wins. *)
Example extractNodeId_leftmost :
  extractNodeId "e-process-12-group-5" = 12 ∧
  extractNodeId "product-x-group-77" = 77 ∧
  extractNodeId "products-3" = 0.
Proof. by vm_compute. Qed.

(** Blank names, with ASCII and with other white space, and names that are
    not blank. *)
Example trim_is_empty_examples :
  trim_is_empty "" = true ∧
  trim_is_empty "   " = true ∧
  trim_is_empty (String (ascii_of_N 194) (String (ascii_of_N 160) " "))
    = true ∧
  trim_is_empty " line 1 " = false ∧
  trim_is_empty "그룹" = false.
Proof. by vm_compute. Qed.

Lemma app_cons a s t : String a s +:+ t = String a (s +:+ t).
Proof. reflexivity. Qed.

Lemma app_nil t : "" +:+ t = t.
Proof. reflexivity. Qed.

Lemma string_app_assoc s t u : (s +:+ t) +:+ u = s +:+ (t +:+ u).
Proof.
  induction s as [|a s IH]; [done|]. by rewrite !app_cons, IH.
Qed.

Lemma strip_prefix_app p s : strip_prefix p (p +:+ s) = Some s.
Proof.
  induction p as [|a p IH]; [done|].
  rewrite app_cons. simpl. by rewrite Ascii.eqb_refl.
Qed.

Lemma take_digits_app ds rest :
  all_chars is_digit ds = true ->
  starts_with_digit rest = false ->
  take_digits (ds +:+ rest) = ds.
Proof.
  intros Hds Hrest. induction ds as [|c ds IH].
  - rewrite app_nil. destruct rest as [|c rest]; simpl in *; [done|].
    by rewrite Hrest.
  - rewrite app_cons. simpl in *.
    apply andb_true_iff in Hds as [Hc Hds]. rewrite Hc. f_equal. auto.
Qed.

(** One alternative, tried on an id that starts with it. *)
Lemma match_alternative_hit kind ds rest :
  ds ≠ "" ->
  all_chars is_digit ds = true ->
  starts_with_digit rest = false ->
  match_alternative kind (kind +:+ "-" +:+ ds +:+ rest) = Some ds.
Proof.
  intros Hne Hds Hrest. unfold match_alternative.
  rewrite <- (string_app_assoc kind "-").
  rewrite strip_prefix_app, take_digits_app by done.
  by destruct ds.
Qed.

Lemma regex_match_here s ds :
  match_here s = Some ds -> regex_match s = Some ds.
Proof. intros H. destruct s; cbn [regex_match]; by rewrite H. Qed.

(** The pattern matches at the very start of an id the encoder made. *)
Lemma regex_match_prefixed kind ds rest :
  kind ∈ node_kinds ->
  ds ≠ "" ->
  all_chars is_digit ds = true ->
  starts_with_digit rest = false ->
  regex_match (kind +:+ "-" +:+ ds +:+ rest) = Some ds.
Proof.
  intros Hkind Hne Hds Hrest.
  pose proof (match_alternative_hit kind ds rest Hne Hds Hrest) as Hhit.
  apply regex_match_here.
  { unfold node_kinds in Hkind. unfold match_here.
    repeat (apply elem_of_cons in Hkind as [->|Hkind]).
    - by rewrite Hhit.
    - replace (match_alternative "product" _) with (@None string) by done.
      by rewrite Hhit.
    - replace (match_alternative "product" _) with (@None string) by done.
      replace (match_alternative "process" _) with (@None string) by done.
      done.
    - by apply elem_of_nil in Hkind. }
Qed.

Lemma parseInt_from_zeros acc ds :
  all_chars (Ascii.eqb "0") ds = true ->
  parseInt_from acc ds = acc * 10 ^ Z.of_nat (String.length ds).
Proof.
  revert acc. induction ds as [|c ds IH]; intros acc Hz;
    cbn [all_chars parseInt_from String.length] in *.
  - lia.
  - apply andb_true_iff in Hz as [Hc Hz]. apply Ascii.eqb_eq in Hc as <-.
    rewrite IH by done. change (digit_value "0") with 0.
    rewrite Nat2Z.inj_succ, Z.pow_succ_r by lia. lia.
Qed.

(** A run of zeros reads as the integer 0, whatever its length. *)
Lemma parseInt_zeros ds :
  all_chars (Ascii.eqb "0") ds = true -> parseInt ds = 0.
Proof.
  intros Hz. unfold parseInt. rewrite parseInt_from_zeros by done. lia.
Qed.

Lemma zeros_are_digits ds :
  all_chars (Ascii.eqb "0") ds = true -> all_chars is_digit ds = true.
Proof.
  induction ds as [|c ds IH]; cbn [all_chars]; [done|].
  intros [Hc Hz]%andb_true_iff. apply Ascii.eqb_eq in Hc as <-.
  by rewrite IH.
Qed.

(** The request phase gives up exactly when an end is missing or decodes to
    the sentinel. *)
Lemma request_aborts params effs :
  handleEdgeCreate_request params = inr effs ->
  source params = None ∨ target params = None ∨
  ∃ src tgt, source params = Some src ∧ target params = Some tgt ∧
             (extractNodeId src = 0 ∨ extractNodeId tgt = 0).
Proof.
  unfold handleEdgeCreate_request.
  destruct (source params) as [src|], (target params) as [tgt|]; eauto.
  destruct (_ || _) eqn:Hz; [|done]. intros _. right; right. exists src, tgt.
  apply orb_true_iff in Hz as [Hz%Z.eqb_eq|Hz%Z.eqb_eq]; auto.
Qed.

Lemma request_sent params body :
  handleEdgeCreate_request params = inl body ->
  ∃ src tgt, source params = Some src ∧ target params = Some tgt ∧
    extractNodeId src ≠ 0 ∧ extractNodeId tgt ≠ 0 ∧
    body = {| source_id := extractNodeId src; target_id := extractNodeId tgt;
              edge_kind := "continue" |}.
Proof.
  unfold handleEdgeCreate_request.
  destruct (source params) as [src|], (target params) as [tgt|]; try done.
  destruct (_ || _) eqn:Hz; [done|]. intros [= <-]. exists src, tgt.
  apply orb_false_iff in Hz as [Hs%Z.eqb_neq Ht%Z.eqb_neq]. done.
Qed.

(** An answer other than a 201 leaves the state it finds as it is. *)
Lemma response_without_201 params cb outcome st :
  (∀ newEdge, outcome ≠ Resolved 201 newEdge) ->
  (handleEdgeCreate_response params cb outcome st).1 = st.
Proof.
  intros Hno. destruct outcome as [status newEdge|error]; simpl; [|done].
  destruct (status =? 201) eqn:Hs; [|done].
  apply Z.eqb_eq in Hs as ->. by destruct (Hno newEdge).
Qed.



(** C5. [handleEdgeCreate] changes the live edges only when the backend
    answers 201: when an end of the connection decodes to the sentinel (or
    is missing) the handler stops with the state untouched and no request
    sent; it sends at most one request; if the edges differ afterwards, that
    request was answered by a 201 and the edges are the old ones followed by
    one new edge; and any other answer or any thrown error leaves the state,
    hence the length and the members of the edge list, as it was, also when
    the answer reaches a state that changed in the meantime. *)
Theorem handleEdgeCreate_commits_only_on_201 post params cb st :
  let result := handleEdgeCreate post params cb st in
  (∀ src tgt, source params = Some src -> target params = Some tgt ->
     extractNodeId src = 0 ∨ extractNodeId tgt = 0 ->
     result.1 = st ∧ requests result.2 = []) ∧
  (source params = None ∨ target params = None ->
     result.1 = st ∧ requests result.2 = []) ∧
  (List.length (requests result.2) <= 1)%nat ∧
  (edges result.1 ≠ edges st ->
     ∃ body newEdge e,
       requests result.2 = [body] ∧ post body = Resolved 201 newEdge ∧
       edgeData e = newEdge ∧ edges result.1 = edges st ++ [e]) ∧
  (∀ body, requests result.2 = [body] ->
     (∀ newEdge, post body ≠ Resolved 201 newEdge) ->
     result.1 = st ∧ List.length (edges result.1) = List.length (edges st) ∧
     ∀ e, e ∈ edges result.1 ↔ e ∈ edges st) ∧
  (∀ outcome later, (∀ newEdge, outcome ≠ Resolved 201 newEdge) ->
     (handleEdgeCreate_response params cb outcome later).1 = later).
Proof.
  intros result. subst result. unfold handleEdgeCreate.
  destruct (handleEdgeCreate_request params) as [body|effs] eqn:Hreq.
  - apply request_sent in Hreq
      as (src & tgt & Hsrc & Htgt & Hs & Ht & Hbody).
    destruct (handleEdgeCreate_response params cb (post body) st)
      as [st' effs'] eqn:Hresp.
    assert (requests (HttpPost body :: effs') = [body]) as Hreqs.
    { revert Hresp. unfold handleEdgeCreate_response.
      destruct (post body) as [status newEdge|error].
      - destruct (status =? 201); [destruct cb|]; by intros [= <- <-].
      - by intros [= <- <-]. }
    cbn [fst snd]. rewrite Hreqs. split_and!.
    + rewrite Hsrc, Htgt. intros ?? [= <-] [= <-]. lia.
    + rewrite Hsrc, Htgt. by intros [|].
    + simpl. lia.
    + intros Hdiff. revert Hresp Hdiff. unfold handleEdgeCreate_response.
      destruct (post body) as [status newEdge|error] eqn:Hpost.
      * destruct (status =? 201) eqn:H201.
        -- apply Z.eqb_eq in H201 as ->. intros [= <- <-] _.
           eexists body, newEdge, _.
           split; [done|]. split; [done|]. split; [|reflexivity]. done.
        -- by intros [= <- <-].
      * by intros [= <- <-].
    + intros ? [= <-] Hno.
      pose proof (response_without_201 params cb (post body) st Hno) as H.
      rewrite Hresp in H. simpl in H. by subst.
    + intros. by apply response_without_201.
  - assert (requests effs = []) as Hnone.
    { revert Hreq. unfold handleEdgeCreate_request.
      destruct (source params), (target params);
        try destruct (_ || _); by intros [= <-]. }
    cbn [fst snd]. rewrite Hnone. split_and!; try done.
    + simpl. lia.
    + intros. by apply response_without_201.
Qed.

(** C10. The sentinel of the decoder is the integer 0, so an id whose
    integer segment reads 0 is taken for an undecodable one: for a prefixed
    id whose digits are all ['0'] (["product-0-ab12"] is one),
    [extractNodeId] returns 0, and [handleEdgeCreate] with that id at either
    end stops at the decode guard: state unchanged, one console error, no
    request sent. *)
Theorem zero_id_is_taken_for_failure kind ds rest other post cb st :
  kind ∈ node_kinds ->
  ds ≠ "" ->
  all_chars (Ascii.eqb "0") ds = true ->
  starts_with_digit rest = false ->
  let zero_id := kind +:+ "-" +:+ ds +:+ rest in
  extractNodeId zero_id = 0 ∧
  extractNodeId "product-0-ab12" = 0 ∧
  handleEdgeCreate post {| source := Some zero_id; target := Some other |}
    cb st = (st, [ConsoleError InvalidNodeId]) ∧
  handleEdgeCreate post {| source := Some other; target := Some zero_id |}
    cb st = (st, [ConsoleError InvalidNodeId]) ∧
  requests [ConsoleError InvalidNodeId] = [].
Proof.
  intros Hkind Hne Hz Hrest zero_id.
  assert (extractNodeId zero_id = 0) as H0.
  { unfold zero_id, extractNodeId.
    rewrite regex_match_prefixed by auto using zeros_are_digits.
    by apply parseInt_zeros. }
  repeat split; [done| |].
  - unfold handleEdgeCreate, handleEdgeCreate_request. cbn [source target].
    by rewrite H0.
  - unfold handleEdgeCreate, handleEdgeCreate_request. cbn [source target].
    rewrite H0. by rewrite orb_true_r.
Qed.

Lemma zero_id_is_taken_for_failure_witness :
  let post := fun _ => Resolved 201 {| be_id := 7; be_source_id := 0;
                                       be_target_id := 5;
                                       be_edge_kind := "continue" |} in
  let st := {| edges := []; prevEdgesRef := [] |} in
  let zero_id := "product" +:+ "-" +:+ "0" +:+ "-ab12" in
  extractNodeId zero_id = 0 ∧
  extractNodeId "product-0-ab12" = 0 ∧
  handleEdgeCreate post
    {| source := Some zero_id; target := Some "process-5-x" |} true st
    = (st, [ConsoleError InvalidNodeId]) ∧
  handleEdgeCreate post
    {| source := Some "process-5-x"; target := Some zero_id |} true st
    = (st, [ConsoleError InvalidNodeId]) ∧
  requests [ConsoleError InvalidNodeId] = [].
Proof.
  intros post st.
  apply (zero_id_is_taken_for_failure "product" "0" "-ab12" "process-5-x"
           post true st).
  - unfold node_kinds. apply list_elem_of_In. simpl. tauto.
  - discriminate.
  - reflexivity.
  - reflexivity.
Defined.

End EdgeSyncFacts.

(** ** Ids made by the node constructors decode to their timestamp *)

Module RoundTripFacts.
Import Js EdgeSync EdgeSyncFacts NodeFactory.

Lemma all_chars_app p s t :
  all_chars p (s +:+ t) = all_chars p s && all_chars p t.
Proof.
  induction s as [|c s IH]; [done|].
  rewrite app_cons. cbn [all_chars]. by rewrite IH, andb_assoc.
Qed.

Lemma parseInt_from_app acc s t :
  parseInt_from acc (s +:+ t) = parseInt_from (parseInt_from acc s) t.
Proof.
  revert acc. induction s as [|c s IH]; intros acc; [done|].
  rewrite app_cons. cbn [parseInt_from]. apply IH.
Qed.

Lemma pretty_N_char_digit d :
  (d < 10)%N ->
  is_digit (pretty_N_char d) = true ∧
  digit_value (pretty_N_char d) = Z.of_N d.
Proof.
  intros Hd.
  assert (d = 0 ∨ d = 1 ∨ d = 2 ∨ d = 3 ∨ d = 4 ∨ d = 5 ∨ d = 6 ∨ d = 7
          ∨ d = 8 ∨ d = 9)%N as Hcases by lia.
  repeat destruct Hcases as [->|Hcases]; try subst d; by vm_compute.
Qed.

(** [pretty] writes a number in decimal digits, which [parseInt] reads back
    after any digits already read. *)
Lemma pretty_N_go_digits x s :
  ∃ ds, pretty_N_go x s = ds +:+ s ∧ all_chars is_digit ds = true ∧
        ((0 < x)%N -> ds ≠ "") ∧
        ∀ acc, parseInt_from acc ds
               = acc * 10 ^ Z.of_nat (String.length ds) + Z.of_N x.
Proof.
  revert s. induction (N.lt_wf_0 x) as [x _ IH]; intros s.
  destruct (decide (x = 0)%N) as [->|Hpos].
  { exists "". rewrite pretty_N_go_0.
    split_and!; [done|done|lia|intros acc; simpl; lia]. }
  rewrite pretty_N_go_step by lia.
  destruct (IH (x `div` 10)%N
              ltac:(apply N.div_lt; lia)
              (String (pretty_N_char (x `mod` 10)) s))
    as (ds & Hgo & Hdigits & _ & Hval).
  destruct (pretty_N_char_digit (x `mod` 10)%N) as [Hd Hv];
    [apply N.mod_lt; lia|].
  exists (ds +:+ String (pretty_N_char (x `mod` 10)) "").
  split_and!.
  - by rewrite Hgo, string_app_assoc.
  - rewrite all_chars_app, Hdigits. cbn [all_chars]. by rewrite Hd.
  - intros _. by destruct ds.
  - intros acc. rewrite parseInt_from_app, Hval. cbn [parseInt_from].
    rewrite Hv.
    replace (String.length (ds +:+ String (pretty_N_char (x `mod` 10)) ""))
      with (S (String.length ds))
      by (clear; induction ds as [|c ds IH]; [done|];
          rewrite app_cons; cbn [String.length]; by rewrite <- IH).
    rewrite Nat2Z.inj_succ, Z.pow_succ_r by lia.
    pose proof (N.div_mod x 10 ltac:(lia)) as Hdm.
    rewrite N2Z.inj_div, N2Z.inj_mod in *.
    pose proof (Z.div_mod (Z.of_N x) 10 ltac:(lia)). 
    change (Z.of_N 10) with 10. lia.
Qed.

(** What the encoder writes for a timestamp is a run of digits that reads
    back as the timestamp. *)
Lemma pretty_timestamp (n : Z) :
  0 <= n ->
  pretty n ≠ "" ∧ all_chars is_digit (pretty n) = true ∧
  parseInt (pretty n) = n.
Proof.
  intros Hn. destruct n as [|p|p]; [by vm_compute| |lia].
  unfold pretty, pretty_Z, pretty, pretty_positive, pretty, pretty_N.
  rewrite decide_False by done.
  destruct (pretty_N_go_digits (N.pos p) "") as (ds & -> & Hds & Hne & Hval).
  replace (ds +:+ "") with ds
    by (clear; induction ds as [|c ds IH]; [done|];
        rewrite app_cons; by rewrite <- IH).
  split_and!; [apply Hne; lia|done|].
  unfold parseInt. rewrite Hval. simpl. lia.
Qed.

(** Decoding an id the node constructors made gives back the [Date.now()]
    it was made from. *)
Lemma extractNodeId_fresh_id kind (e : Entropy) :
  kind ∈ node_kinds -> 0 <= now e <= MAX_SAFE_INTEGER ->
  extractNodeId (fresh_id kind e) = now e.
Proof.
  intros Hkind [Hnow _]. unfold fresh_id, extractNodeId.
  destruct (pretty_timestamp (now e) Hnow) as (Hne & Hds & Hval).
  rewrite (regex_match_prefixed kind (pretty (now e))
             ("-" +:+ random_tail e)) by done.
  done.
Qed.

End RoundTripFacts.

(** ** The per-installation store *)

Module GraphStoreFacts.
Import GraphStore.

Section Store.
Context {Node Edge : Type}.
Implicit Types (s : State Node Edge) (log : list (Commit Node Edge)).
Implicit Types (evs : list (Event Node Edge)) (X : Z).

Lemma last_commit_nil X : last_commit (Node:=Node) (Edge:=Edge) X [] = None.
Proof. reflexivity. Qed.

Lemma last_commit_snoc X Y c log :
  last_commit X (log ++ [(Y, c)]) =
    if decide (Y = X) then Some c else last_commit X log.
Proof.
  unfold last_commit. rewrite filter_app, filter_cons, filter_nil. simpl.
  destruct (decide (Y = X)) as [->|Hne].
  - by rewrite last_snoc.
  - by rewrite app_nil_r.
Qed.

(** A guarded write to the map is mirrored by the log. *)
Lemma save_active_log s (m : gmap Z (Canvas Node Edge)) log :
  (∀ X, m !! X = last_commit X log) ->
  ∀ X, save_active s m !! X = last_commit X (log ++ saved s).
Proof.
  intros Hm X. unfold save_active, saved.
  destruct (activeInstallId s) as [a|]; [|by rewrite app_nil_r].
  destruct (Js.truthy (Some a)); [|by rewrite app_nil_r].
  rewrite last_commit_snoc, lookup_insert. by destruct (decide (a = X)).
Qed.

(** After a guarded write the active installation, when its id is truthy,
    maps to the live graph. *)
Lemma save_active_live s (m : gmap Z (Canvas Node Edge)) a :
  activeInstallId s = Some a -> a ≠ 0 -> save_active s m !! a = Some (live s).
Proof.
  intros Ha Hnz. unfold save_active. rewrite Ha. simpl.
  apply Z.eqb_neq in Hnz as ->. simpl. by rewrite lookup_insert_eq.
Qed.

Lemma save_active_other s (m : gmap Z (Canvas Node Edge)) X :
  activeInstallId s ≠ Some X -> save_active s m !! X = m !! X.
Proof.
  intros Hne. unfold save_active.
  destruct (activeInstallId s) as [a|]; [|done].
  destruct (Js.truthy (Some a)); [|done].
  rewrite lookup_insert_ne; [done|congruence].
Qed.

(** The commit effect changes nothing when it has already run on the same
    nodes, edges and active id. *)
Lemma commit_effect_at_rest s :
  commit_effect (commit_effect s) = commit_effect s.
Proof.
  unfold commit_effect, save_active, live.
  cbn [nodes edges installCanvases activeInstallId]. f_equal.
  destruct (activeInstallId s) as [a|]; [|done].
  destruct (Js.truthy (Some a)); [|done]. by rewrite insert_insert_eq.
Qed.

Lemma run_from_app evs evs' s log :
  run_from (evs ++ evs') s log =
    run_from evs' (run_from evs s log).1 (run_from evs s log).2.
Proof.
  revert s log. induction evs as [|ev evs IH]; intros s log; [done|].
  simpl. destruct (step ev s) as [s' written]. apply IH.
Qed.

Lemma run_snoc evs ev :
  run (evs ++ [ev]) =
    ((step ev (run evs).1).1, (run evs).2 ++ (step ev (run evs).1).2).
Proof.
  unfold run. rewrite run_from_app. simpl.
  by destruct (step ev (run_from evs initial []).1).
Qed.

Lemma step_in_sync ev s log :
  in_sync (s, log) -> in_sync ((step ev s).1, log ++ (step ev s).2).
Proof.
  intros [Hlog Hact]. unfold in_sync, step. cbn [fst snd] in *. split.
  - intros X. rewrite app_assoc.
    assert (∀ Y, installCanvases (handle ev s) !! Y
                 = last_commit Y (log ++ handler_commits ev s)) as Hmid.
    { intros Y. destruct ev as [install| |]; cbn [handle handler_commits];
        rewrite ?app_nil_r; try apply Hlog.
      cbn [handleInstallSelect installCanvases]. by apply save_active_log. }
    cbn [commit_effect installCanvases]. by apply save_active_log.
  - intros a Ha Hnz. cbn [commit_effect installCanvases activeInstallId] in *.
    by rewrite save_active_live.
Qed.

Lemma run_in_sync evs : in_sync (run evs).
Proof.
  induction evs as [|ev evs IH] using rev_ind.
  - split; [intros X; apply lookup_empty | done].
  - rewrite run_snoc. destruct (run evs) as [s log]. by apply step_in_sync.
Qed.

(** A visited installation with a truthy id has an entry in the map. *)
Lemma step_keeps_entries ev s X :
  is_Some (installCanvases s !! X) ->
  is_Some (installCanvases (step ev s).1 !! X).
Proof.
  intros Hin. unfold step. cbn [fst commit_effect installCanvases].
  assert (is_Some (installCanvases (handle ev s) !! X)) as Hmid.
  { destruct ev as [install| |]; cbn [handle installCanvases]; try done.
    cbn [handleInstallSelect installCanvases]. unfold save_active.
    destruct (activeInstallId s) as [a|]; [|done].
    destruct (Js.truthy (Some a)); [|done].
    rewrite lookup_insert. by destruct (decide (a = X)). }
  unfold save_active.
  destruct (activeInstallId (handle ev s)) as [a|]; [|done].
  destruct (Js.truthy (Some a)); [|done].
  rewrite lookup_insert. by destruct (decide (a = X)).
Qed.

Lemma visited_has_entry evs X :
  X ≠ 0 -> visited X evs = true -> is_Some (installCanvases (run evs).1 !! X).
Proof.
  intros Hnz. induction evs as [|ev evs IH] using rev_ind; [done|].
  unfold visited in *. rewrite existsb_app, orb_true_iff. simpl.
  rewrite run_snoc. cbn [fst]. intros [Hbefore|Hnow].
  - apply step_keeps_entries. auto.
  - rewrite orb_false_r in Hnow. destruct ev as [install| |]; try done.
    apply Z.eqb_eq in Hnow as <-.
    unfold step. cbn [fst commit_effect installCanvases handle].
    rewrite save_active_live; [by eexists|done|done].
Qed.

End Store.
End GraphStoreFacts.

(** ** The canvas hook *)

Module CanvasHookFacts.
Import GraphStore CanvasHook.

Section Hook.
Context {Node Edge : Type} `{!EqDecision Node, !EqDecision Edge}.
Implicit Types (s : HookState Node Edge) (p : option Install).

(** After one pass the restore guard is closed. *)
Lemma run_effects_prev p s install :
  p = Some install ->
  prevInstallIdRef (run_effects p s) = Some (install_id install).
Proof.
  intros ->. unfold run_effects. case_bool_decide as Hne; [done|].
  simpl. congruence.
Qed.

(** With the guard closed a pass only commits the live graph. *)
Lemma run_effects_closed p s :
  (∀ install, p = Some install ->
              prevInstallIdRef s = Some (install_id install)) ->
  run_effects p s =
    {| nodes := nodes s; edges := edges s;
       installCanvases := commit_update p s (installCanvases s);
       prevInstallIdRef := prevInstallIdRef s;
       prevNodesRef := prevNodesRef s; prevEdgesRef := prevEdgesRef s |}.
Proof.
  intros Hprev. unfold run_effects. destruct p as [install|]; [|done].
  rewrite bool_decide_eq_false_2; [done|]. intros Hne. apply Hne.
  symmetry. by apply Hprev.
Qed.

(** Two passes reach a state that further passes leave alone: the renders
    the effects trigger come to rest. *)
Lemma run_effects_settle p s : run_effects p (settle p s) = settle p s.
Proof.
  unfold settle. set (s1 := run_effects p s).
  assert (∀ install, p = Some install ->
            prevInstallIdRef s1 = Some (install_id install)) as Hclosed
    by (intros; by apply run_effects_prev).
  rewrite (run_effects_closed p s1 Hclosed).
  rewrite run_effects_closed by done. cbn. f_equal.
  unfold commit_update. destruct (activeInstallId p) as [a|]; [|done].
  cbn. by rewrite insert_insert_eq.
Qed.

(** The effects read nothing of [selectedInstall] but its id. *)
Lemma run_effects_id install install' s :
  install_id install' = install_id install ->
  run_effects (Some install') s = run_effects (Some install) s.
Proof.
  intros Hid. unfold run_effects, commit_update, activeInstallId.
  by rewrite Hid.
Qed.

(** Every state the hook comes to rest in is a fixed point of its effects
    under the prop it was rendered with. *)
Lemma hook_run_settled (evs : list (HookEvent Node Edge)) :
  run_effects (hook_run evs).1 (hook_run evs).2 = (hook_run evs).2.
Proof.
  unfold hook_run. induction evs as [|ev evs IH] using rev_ind.
  - apply run_effects_settle.
  - rewrite foldl_snoc. unfold hook_step at 1 2 3. cbn [fst snd].
    apply run_effects_settle.
Qed.

Lemma reselect_in_hook (evs : list (HookEvent Node Edge)) install install' :
  (hook_run evs).1 = Some install ->
  install_id install' = install_id install ->
  (hook_step (SelectedInstall (Some install')) (hook_run evs)).2
    = (hook_run evs).2.
Proof.
  intros Hp Hid. unfold hook_step. cbn [fst snd act]. unfold settle.
  rewrite !(run_effects_id install install') by done.
  pose proof (hook_run_settled evs) as Hfix. rewrite Hp in Hfix.
  by rewrite !Hfix.
Qed.

(** With the refs in step, a restore leaves the snapshot on screen whether
    or not the comparison found a difference. *)
Lemma run_effects_restores s install :
  prevNodesRef s = nodes s ->
  prevEdgesRef s = edges s ->
  Some (install_id install) ≠ prevInstallIdRef s ->
  let s1 := run_effects (Some install) s in
  hook_live s1 = default empty_canvas (installCanvases s !! install_id install)
  ∧ prevNodesRef s1 = nodes s1 ∧ prevEdgesRef s1 = edges s1.
Proof.
  intros Hn He Hguard. unfold run_effects.
  rewrite bool_decide_eq_true_2 by done.
  rewrite Hn, He. unfold hook_live. cbn.
  destruct (default empty_canvas _) as [ns es]. cbn.
  repeat case_bool_decide; subst; done.
Qed.

(** A pass with the guard closed keeps nodes, edges and refs. *)
Lemma run_effects_closed_live p s :
  prevInstallIdRef s = install_id <$> p ->
  let s1 := run_effects p s in
  nodes s1 = nodes s ∧ edges s1 = edges s ∧
  prevNodesRef s1 = prevNodesRef s ∧ prevEdgesRef s1 = prevEdgesRef s ∧
  prevInstallIdRef s1 = prevInstallIdRef s ∧
  installCanvases s1 = commit_update p s (installCanvases s).
Proof.
  intros Hprev. cbn zeta. rewrite run_effects_closed; [done|].
  intros install ->. done.
Qed.

Lemma commit_update_live p s a :
  activeInstallId p = Some a ->
  commit_update p s (installCanvases s) !! a = Some (hook_live s).
Proof.
  intros Ha. unfold commit_update. rewrite Ha. apply lookup_insert_eq.
Qed.

(** One event of the hook's own keeps it at rest. *)
Lemma hook_step_at_rest (ev : HookEvent Node Edge) (r : Rendered Node Edge) :
  own_action ev = true -> at_rest r -> at_rest (hook_step ev r).
Proof.
  intros Hown (Hn & He & Hprev & Hsnap). destruct r as [p s].
  cbn [fst snd] in *. unfold hook_step, settle. cbn [fst snd].
  set (p' := match ev with SelectedInstall q => q | _ => p end).
  set (s0 := act ev s).
  assert (prevNodesRef s0 = nodes s0 ∧ prevEdgesRef s0 = edges s0)
    as [Hn0 He0].
  { subst s0. by destruct ev. }
  assert (∃ s1, run_effects p' s0 = s1 ∧
                prevNodesRef s1 = nodes s1 ∧ prevEdgesRef s1 = edges s1 ∧
                prevInstallIdRef s1 = install_id <$> p')
    as (s1 & Hs1 & Hn1 & He1 & Hp1).
  { eexists. split; [done|].
    destruct (decide (prevInstallIdRef s0 = install_id <$> p')) as [Heq|Hne].
    - destruct (run_effects_closed_live p' s0 Heq)
        as (-> & -> & -> & -> & -> & _).
      done.
    - destruct ev as [[install|]| | | |]; try done; subst p' s0;
        cbn [act prevInstallIdRef] in *;
        [|by rewrite Hprev in Hne..].
      change (install_id <$> Some install)
        with (Some (install_id install)) in *.
      destruct (run_effects_restores s install Hn He) as (_ & ? & ?);
        [congruence|].
      split_and!; try done.
      by apply (run_effects_prev (Some install) s install). }
  rewrite Hs1.
  destruct (run_effects_closed_live p' s1 Hp1)
    as (Hn2 & He2 & Hrn2 & Hre2 & Hp2 & Hc2).
  unfold at_rest. cbn [fst snd].
  split_and!; try congruence.
  intros a Ha. rewrite Hc2, (commit_update_live p' s1 a Ha).
  unfold hook_live. by rewrite Hn2, He2.
Qed.

Lemma hook_run_at_rest (evs : list (HookEvent Node Edge)) :
  forallb own_action evs = true -> at_rest (hook_run evs).
Proof.
  induction evs as [|ev evs IH] using rev_ind; intros Hown.
  - unfold hook_run, at_rest. cbn. done.
  - rewrite forallb_app in Hown. apply andb_true_iff in Hown as [Hevs Hev].
    cbn in Hev. rewrite andb_true_r in Hev.
    unfold hook_run. rewrite foldl_snoc. apply hook_step_at_rest; [done|].
    by apply IH.
Qed.

(** In the hook too, after a session of its own actions, selecting an
    installation whose id is not 0 puts the snapshot kept for it on screen
    (the empty canvas when there is none), and the map then holds what is
    on screen. *)
Lemma hook_selection_restores_snapshot
    (evs : list (HookEvent Node Edge)) install :
  forallb own_action evs = true ->
  install_id install ≠ 0 ->
  let r := hook_run evs in
  let r' := hook_step (SelectedInstall (Some install)) r in
  hook_live r'.2
    = default empty_canvas (installCanvases r.2 !! install_id install) ∧
  installCanvases r'.2 !! install_id install = Some (hook_live r'.2).
Proof.
  intros Hown Hnz r r'.
  pose proof (hook_run_at_rest evs Hown) as Hrest. fold r in Hrest.
  assert (at_rest r') as (_ & _ & _ & Hsnap')
    by (by apply hook_step_at_rest).
  assert (activeInstallId (Some install) = Some (install_id install)) as Hact.
  { unfold activeInstallId. simpl. by apply Z.eqb_neq in Hnz as ->. }
  split; [|by apply Hsnap'].
  destruct Hrest as (Hn & He & Hprev & Hsnap).
  subst r'. destruct r as [p s]. cbn [fst snd] in *.
  unfold hook_step, settle. cbn [fst snd act].
  destruct (decide (Some (install_id install) = prevInstallIdRef s))
    as [Heq|Hne].
  - assert (prevInstallIdRef s = install_id <$> Some install) as Hclosed
      by done.
    destruct (run_effects_closed_live (Some install) s Hclosed)
      as (Hn1 & He1 & _ & _ & Hp1 & _).
    rewrite <- Hp1 in Hclosed.
    destruct (run_effects_closed_live (Some install) _ Hclosed)
      as (Hn2 & He2 & _).
    destruct p as [current|]; [|by rewrite Hprev in Heq].
    rewrite Hprev in Heq. injection Heq as Hid.
    rewrite (Hsnap (install_id install)).
    + cbn [default]. unfold hook_live. by rewrite Hn2, He2, Hn1, He1.
    + unfold activeInstallId in *. by rewrite <- Hid.
  - destruct (run_effects_restores s install Hn He Hne) as (Hlive & _ & _).
    rewrite <- Hlive.
    assert (prevInstallIdRef (run_effects (Some install) s)
            = install_id <$> Some install) as Hclosed
      by (by apply run_effects_prev).
    destruct (run_effects_closed_live (Some install) _ Hclosed)
      as (Hn2 & He2 & _).
    unfold hook_live. by rewrite Hn2, He2.
Qed.

End Hook.
End CanvasHookFacts.

(** ** Switching between installations *)

Module SwitchingFacts.
Import GraphStore GraphStoreFacts NodeFactory Scenario.

(** Where the guard on the installation id lets the commit through, the
    selection restores what was committed. For every session of the
    component and every installation X whose id is not 0, right after X is
    selected the active nodes and edges are the snapshot last committed for
    X, and when none was committed X was never visited and the active graph
    is empty. When one product node is added on the canvas of installation
    A (id 1), installation B (id 2) is selected and left unchanged and A is
    selected again, the canvas of A holds exactly that node, position
    included, on the component and on the hook. On the hook, after a
    session of selections and of nodes and edges added by its own actions
    (the only ones that refresh its refs), selecting X puts on screen the
    snapshot the map holds for X, or the empty canvas when it holds none. *)
Theorem selection_restores_last_commit {N E : Type}
    `{!EqDecision N, !EqDecision E}
    (evs : list (Event N E)) (install : Install)
    (product : Product) (e : Entropy) :
  GraphStore.install_id install ≠ 0 ->
  restores_last_commit evs install ∧
  (nodes (manager_walk product e)
     = [productNode false product (Some installation_A) e] ∧
   edges (manager_walk product e) = []) ∧
  (CanvasHook.nodes (hook_walk product e).2
     = [productNode true product (Some installation_A) e] ∧
   CanvasHook.edges (hook_walk product e).2 = []) ∧
  (∀ hevs : list (CanvasHook.HookEvent N E),
     forallb CanvasHook.own_action hevs = true ->
     let r := CanvasHook.hook_run hevs in
     let r' := CanvasHook.hook_step
                 (CanvasHook.SelectedInstall (Some install)) r in
     CanvasHook.hook_live r'.2
       = default empty_canvas
           (CanvasHook.installCanvases r.2 !! GraphStore.install_id install) ∧
     CanvasHook.installCanvases r'.2 !! GraphStore.install_id install
       = Some (CanvasHook.hook_live r'.2)).
Proof.
  intros Hnz.
  split; [|split; [by vm_compute|split; [by vm_compute|]]].
  2:{ intros hevs Hown.
      by apply CanvasHookFacts.hook_selection_restores_snapshot. }
  unfold restores_last_commit.
  pose proof (run_in_sync evs) as [Hlog _].
  pose proof (visited_has_entry evs (GraphStore.install_id install) Hnz)
    as Hentry.
  destruct (run evs) as [s log]. cbn [fst snd] in *.
  rewrite <- Hlog.
  assert (live (step (InstallSelect install) s).1
          = default empty_canvas
              (installCanvases s !! GraphStore.install_id install)) as ->.
  { unfold step, live. cbn. by destruct (default _ _). }
  destruct (installCanvases s !! GraphStore.install_id install) as [c|] eqn:Hc;
    [done|]. split; [|done].
  destruct (visited _ evs); [|done].
  by destruct Hentry as [? [=]].
Qed.

Lemma selection_restores_last_commit_witness :
  restores_last_commit session_A_B installation_A ∧
  (nodes (manager_walk steel entropy)
     = [productNode false steel (Some installation_A) entropy] ∧
   edges (manager_walk steel entropy) = []) ∧
  (CanvasHook.nodes (hook_walk steel entropy).2
     = [productNode true steel (Some installation_A) entropy] ∧
   CanvasHook.edges (hook_walk steel entropy).2 = []) ∧
  (∀ hevs : list (CanvasHook.HookEvent Node EdgeSync.Edge),
     forallb CanvasHook.own_action hevs = true ->
     let r := CanvasHook.hook_run hevs in
     let r' := CanvasHook.hook_step
                 (CanvasHook.SelectedInstall (Some installation_A)) r in
     CanvasHook.hook_live r'.2
       = default empty_canvas
           (CanvasHook.installCanvases r.2
              !! GraphStore.install_id installation_A) ∧
     CanvasHook.installCanvases r'.2 !! GraphStore.install_id installation_A
       = Some (CanvasHook.hook_live r'.2)).
Proof.
  apply (selection_restores_last_commit session_A_B installation_A
           steel entropy).
  vm_compute. discriminate.
Defined.

(** C1. The component breaks the claim for an installation whose id is 0.
    Both places that are to save the canvas of the active installation
    (the commit effect and the first step of [handleInstallSelect], which
    its comment announces as saving the canvas of the currently active
    installation) test [if (activeInstallId)], and 0 is falsy. On the
    session that selects installation 0, puts one product node on its
    canvas and selects installation A, installation 0 was visited and held
    that node when it was left, no snapshot of it was ever committed, and
    selecting it again shows an empty canvas where the claim asks for the
    node. *)
Lemma selection_loses_installation_0 :
  ¬ restores_last_commit session_0 installation_0 ∧
  visited 0 session_0 = true ∧
  last_commit 0 (run session_0).2 = None ∧
  nodes (run visit_0).1 = [steel_node] ∧
  nodes (step (InstallSelect installation_0) (run session_0).1).1 = [].
Proof.
  split; [|by vm_compute].
  intros Hclaim. vm_compute in Hclaim. by destruct Hclaim.
Qed.

(** The hook breaks C1 as well, for every id. [onNodesChange] and
    [onEdgesChange] set the state and leave [prevNodesRef] and
    [prevEdgesRef] as they were, and the restore effect compares the
    snapshot it is to load with those refs, not with the state. A node
    that ReactFlow reported on the canvas of installation A is therefore
    still on screen after installation B is selected for the first time,
    and the commit effect files it under B. *)
Lemma hook_selection_keeps_foreign_nodes :
  let r := CanvasHook.hook_run hook_session_A_B in
  r.1 = Some installation_B ∧
  CanvasHook.nodes r.2 = [slab_node] ∧
  CanvasHook.prevNodesRef r.2 = [] ∧
  CanvasHook.installCanvases r.2 !! 2
    = Some {| canvas_nodes := [slab_node]; canvas_edges := [] |}.
Proof. by vm_compute. Qed.

(** Where the guard on the installation id lets the commit through,
    selecting the active installation again changes nothing. In the
    component, when the id of the active installation is not 0, the
    selection changes neither the live nodes, nor the live edges, nor the
    snapshot map, nor the active id, whatever the session before; in the
    hook the same holds for every id, the restore effect being guarded by
    the id it last restored. *)
Theorem reselecting_is_noop {N E : Type} `{!EqDecision N, !EqDecision E}
    (evs : list (Event N E)) (install : Install) :
  activeInstallId (run evs).1 = Some (GraphStore.install_id install) ->
  GraphStore.install_id install ≠ 0 ->
  selection_is_noop install (run evs).1 ∧
  (∀ (hevs : list (CanvasHook.HookEvent N E)) (current again : Install),
     (CanvasHook.hook_run hevs).1 = Some current ->
     GraphStore.install_id again = GraphStore.install_id current ->
     (CanvasHook.hook_step (CanvasHook.SelectedInstall (Some again))
        (CanvasHook.hook_run hevs)).2 = (CanvasHook.hook_run hevs).2).
Proof.
  intros Hactive Hnz. split; [|apply CanvasHookFacts.reselect_in_hook].
  pose proof (run_in_sync evs) as [_ Hlive].
  specialize (Hlive _ Hactive Hnz).
  destruct (run evs) as [s log]. cbn [fst snd] in *.
  assert (save_active s (installCanvases s) = installCanvases s) as Hsame.
  { unfold save_active. rewrite Hactive.
    destruct (Js.truthy _); [|done]. by apply insert_id. }
  unfold selection_is_noop, step.
  cbn [fst handle handleInstallSelect commit_effect nodes edges
       installCanvases activeInstallId].
  rewrite Hlive. cbn [default canvas_nodes canvas_edges live].
  split_and!; try done.
  rewrite Hsame. unfold save_active.
  unfold handleInstallSelect, live.
  cbn [activeInstallId nodes edges]. rewrite Hlive.
  destruct (Js.truthy _); [|done]. by apply insert_id.
Qed.

Lemma reselecting_is_noop_witness :
  selection_is_noop installation_A (run visit_A).1 ∧
  (∀ (hevs : list (CanvasHook.HookEvent Node EdgeSync.Edge))
     (current again : Install),
     (CanvasHook.hook_run hevs).1 = Some current ->
     GraphStore.install_id again = GraphStore.install_id current ->
     (CanvasHook.hook_step (CanvasHook.SelectedInstall (Some again))
        (CanvasHook.hook_run hevs)).2 = (CanvasHook.hook_run hevs).2).
Proof.
  apply (reselecting_is_noop visit_A installation_A).
  - vm_compute. reflexivity.
  - vm_compute. discriminate.
Defined.

(** C3. The component breaks the claim when the active installation has
    id 0. [handleInstallSelect] reloads [installCanvases[install.id]], and
    for the active installation that entry is the live canvas only because
    the commit effect stored it; under [if (activeInstallId)] the effect
    stores nothing for id 0. With installation 0 active and one product
    node on its canvas, selecting installation 0 again loads the empty
    canvas over the live one, where the claim, and the hook for every id,
    leave the canvas as it is. *)
Lemma reselecting_installation_0_clears :
  activeInstallId (run visit_0).1
    = Some (GraphStore.install_id installation_0) ∧
  nodes (run visit_0).1 = [steel_node] ∧
  nodes (step (InstallSelect installation_0) (run visit_0).1).1 = [] ∧
  ¬ selection_is_noop installation_0 (run visit_0).1.
Proof.
  split_and!; [by vm_compute..|].
  intros [Hnodes _]. by vm_compute in Hnodes.
Qed.

End SwitchingFacts.

(** ** Read-only process nodes *)

Module NodeFactoryFacts.
Import GraphStore NodeFactory Scenario.

(** The handler of the component and the action of the hook append the
    process node to the live nodes. *)
Lemma handleProcessSelect_appends {Edge : Type} process products e
    (s : State Node Edge) :
  nodes (handle (handleProcessSelect process products e s) s)
    = nodes s ++ [processNode false process products (selectedInstall s) e].
Proof. reflexivity. Qed.

Lemma addProcessNode_appends {Edge : Type} process products selected e
    (s : CanvasHook.HookState Node Edge) :
  CanvasHook.nodes
    (CanvasHook.act (addProcessNode process products selected e) s)
    = CanvasHook.nodes s ++ [processNode true process products selected e].
Proof. reflexivity. Qed.

Lemma isExternalProcess_true process selectedInstall ps :
  products process = Some ps ->
  ∃ b, isExternalProcess process selectedInstall = Some b ∧
       (b = true ↔ ∃ p, p ∈ ps ∧
                        Some (NodeFactory.install_id p)
                          ≠ selected_id selectedInstall).
Proof.
  intros Hps. unfold isExternalProcess. rewrite Hps. eexists. split; [done|].
  rewrite existsb_exists. split.
  - intros (p & Hin & Hp). exists p.
    split; [by apply list_elem_of_In|by apply bool_decide_eq_true in Hp].
  - intros (p & Hin & Hp). exists p.
    split; [by apply list_elem_of_In|by apply bool_decide_eq_true].
Qed.

(** C2, as amended. The flag [is_readonly] of a new process node is
    computed over all the products linked to the process
    ([process.products]), whether or not they are among the products at
    hand: it is [true] exactly when one of them belongs to another
    installation than the selected one, and it is left undefined when the
    process carries no product list. Hence, for a process whose linked
    products span installations 1 and 2, the node is read-only on the
    canvas of installation 2 and on the canvas of installation 1 alike. *)
Theorem is_readonly_over_all_linked_products
    (with_id : bool) (process : Process) (products : list Product)
    (canvas_1 canvas_2 : Install) (e : Entropy) :
  GraphStore.install_id canvas_1 = 1 ->
  GraphStore.install_id canvas_2 = 2 ->
  spans_1_and_2 process ->
  node_is_readonly (processNode with_id process products (Some canvas_2) e)
    = Some true ∧
  node_is_readonly (processNode with_id process products (Some canvas_1) e)
    = Some true ∧
  ∀ (any : Process) (selectedInstall : option Install),
    match NodeFactory.products any with
    | Some ps =>
        ∃ b, node_is_readonly
               (processNode with_id any products selectedInstall e) = Some b ∧
             (b = true ↔ ∃ p, p ∈ ps ∧
                              Some (NodeFactory.install_id p)
                                ≠ selected_id selectedInstall)
    | None =>
        node_is_readonly (processNode with_id any products selectedInstall e)
          = None
    end.
Proof.
  intros H1 H2 (ps & p1 & p2 & Hps & Hin1 & Hin2 & Hp1 & Hp2).
  assert (∀ canvas,
            (∃ p, p ∈ ps ∧ NodeFactory.install_id p
                           ≠ GraphStore.install_id canvas) ->
            node_is_readonly (processNode with_id process products
                                (Some canvas) e) = Some true) as Hro.
  { intros canvas (p & Hin & Hp).
    destruct (isExternalProcess_true process (Some canvas) ps Hps)
      as (b & Hb & Hiff).
    cbn [node_is_readonly processNode data is_readonly]. rewrite Hb.
    f_equal. apply Hiff. exists p. split; [done|]. simpl. congruence. }
  split_and!.
  - apply Hro. exists p1. split; [done|lia].
  - apply Hro. exists p2. split; [done|lia].
  - intros any selectedInstall.
    destruct (NodeFactory.products any) as [qs|] eqn:Hqs.
    + by apply isExternalProcess_true.
    + cbn [node_is_readonly processNode data is_readonly].
      unfold isExternalProcess. by rewrite Hqs.
Qed.

Lemma is_readonly_over_all_linked_products_witness :
  node_is_readonly
    (processNode false rolling [steel] (Some installation_B) entropy)
    = Some true ∧
  node_is_readonly
    (processNode false rolling [steel] (Some installation_A) entropy)
    = Some true ∧
  ∀ (any : Process) (selectedInstall : option Install),
    match NodeFactory.products any with
    | Some ps =>
        ∃ b, node_is_readonly
               (processNode false any [steel] selectedInstall entropy)
             = Some b ∧
             (b = true ↔ ∃ p, p ∈ ps ∧
                              Some (NodeFactory.install_id p)
                                ≠ selected_id selectedInstall)
    | None =>
        node_is_readonly
          (processNode false any [steel] selectedInstall entropy) = None
    end.
Proof.
  apply (is_readonly_over_all_linked_products false rolling [steel]
           installation_A installation_B entropy).
  - reflexivity.
  - reflexivity.
  - exists [steel; slab], steel, slab.
    split; [reflexivity|].
    split; [apply list_elem_of_In; simpl; tauto|].
    split; [apply list_elem_of_In; simpl; tauto|].
    split; reflexivity.
Defined.

(** C2 as it is worded fails on the canvas of installation 1: the process
    [rolling] is linked to a product of installation 1 and to one of
    installation 2, and its node is read-only there, by the handler of the
    component and by the action of the hook, whether the products at hand
    are those of installation 1 or all of them; the rule restricted to the
    related products would say otherwise for the products of installation
    1. *)
Lemma is_readonly_on_installation_1 :
  spans_1_and_2 rolling ∧
  ¬ readonly_as_worded false rolling [steel] entropy ∧
  ¬ readonly_as_worded true rolling [steel; slab] entropy ∧
  node_is_readonly
    (processNode false rolling [steel] (Some installation_A) entropy)
    = Some true ∧
  spec_isExternal rolling [steel] 1 = false.
Proof.
  split_and!.
  - exists [steel; slab], steel, slab.
    split_and!; try reflexivity; apply list_elem_of_In; simpl; tauto.
  - intros (_ & H1 & _). by specialize (H1 installation_A eq_refl).
  - intros (_ & H1 & _). by specialize (H1 installation_A eq_refl).
  - reflexivity.
  - reflexivity.
Qed.

End NodeFactoryFacts.

(** ** Group geometry *)

Module GroupsFacts.
Import NodeFactory(XYPosition, x, y, Build_XYPosition) Groups.

Local Open Scope Q_scope.

Lemma Qmin_cases a b : Qmin a b = a ∨ Qmin a b = b.
Proof.
  unfold Qmin, GenericMinMax.gmin. destruct (a ?= b); auto.
Qed.

Lemma Qmax_cases a b : Qmax a b = a ∨ Qmax a b = b.
Proof.
  unfold Qmax, GenericMinMax.gmax. destruct (a ?= b); auto.
Qed.


Lemma Math_min_attained first rest :
  Math_min first rest ∈ first :: rest.
Proof.
  unfold Math_min. revert first.
  induction rest as [|r rest IH]; intros first; simpl.
  - apply elem_of_cons. by left.
  - specialize (IH (Qmin first r)). rewrite !elem_of_cons in *.
    destruct IH as [->|IH]; [|auto].
    destruct (Qmin_cases first r) as [->| ->]; auto.
Qed.


Lemma Math_max_attained first rest :
  Math_max first rest ∈ first :: rest.
Proof.
  unfold Math_max. revert first.
  induction rest as [|r rest IH]; intros first; simpl.
  - apply elem_of_cons. by left.
  - specialize (IH (Qmax first r)). rewrite !elem_of_cons in *.
    destruct IH as [->|IH]; [|auto].
    destruct (Qmax_cases first r) as [->| ->]; auto.
Qed.


Lemma coordinate_of_node (f : Node -> Q) q first rest :
  q ∈ f first :: (f <$> rest) -> ∃ n, n ∈ first :: rest ∧ f n = q.
Proof.
  intros [->|Hin]%elem_of_cons.
  - exists first. split; [|done]. apply elem_of_cons. by left.
  - apply list_elem_of_fmap in Hin as (n & -> & Hin).
    exists n. split; [|done]. apply elem_of_cons. by right.
Qed.

(** Each extreme is the coordinate of a measured node. *)
Lemma extremes_attained first rest :
  (∃ n, n ∈ first :: rest ∧ x (position n) = minX first rest) ∧
  (∃ n, n ∈ first :: rest ∧ y (position n) = minY first rest) ∧
  (∃ n, n ∈ first :: rest ∧ x (position n) = maxX first rest) ∧
  (∃ n, n ∈ first :: rest ∧ y (position n) = maxY first rest).
Proof.
  unfold minX, minY, maxX, maxY.
  split_and!;
    apply (coordinate_of_node (fun n => _ (position n)));
    first [apply Math_min_attained | apply Math_max_attained].
Qed.

Lemma includes_elem_of ids i : includes ids i = true ↔ i ∈ ids.
Proof.
  unfold includes. rewrite existsb_exists. split.
  - intros (j & Hin & Heq). apply String.eqb_eq in Heq as ->.
    by apply list_elem_of_In.
  - intros Hin. exists i. split; [by apply list_elem_of_In|].
    apply String.eqb_refl.
Qed.




(** C7. With fewer than two selected node ids group creation stops at its
    first step: the operator is told to select two or more nodes, the state
    is returned as it was (the node list unchanged, no group node added,
    the group dialog not opened), and no network call is made. *)
Theorem too_few_selected_blocks (s : State) :
  (List.length (selectedNodes s) < 2)%nat ->
  createGroupFromSelectedNodes s = (s, [Alert SelectTwoOrMore]) ∧
  nodes (createGroupFromSelectedNodes s).1 = nodes s ∧
  showGroupModal (createGroupFromSelectedNodes s).1 = showGroupModal s ∧
  (∀ url, NetworkCall url ∉ (createGroupFromSelectedNodes s).2).
Proof.
  intros Hlen. unfold createGroupFromSelectedNodes.
  apply Nat.ltb_lt in Hlen as ->. split_and!; try done.
  intros url Hin. cbn in Hin.
  apply elem_of_cons in Hin as [Heq|Hin]; [done|by apply elem_of_nil in Hin].
Qed.

Lemma too_few_selected_blocks_witness :
  createGroupFromSelectedNodes GroupScenario.one_selected
    = (GroupScenario.one_selected, [Alert SelectTwoOrMore]) ∧
  nodes (createGroupFromSelectedNodes GroupScenario.one_selected).1
    = nodes GroupScenario.one_selected ∧
  showGroupModal (createGroupFromSelectedNodes GroupScenario.one_selected).1
    = showGroupModal GroupScenario.one_selected ∧
  (∀ url, NetworkCall url
          ∉ (createGroupFromSelectedNodes GroupScenario.one_selected).2).
Proof.
  apply (too_few_selected_blocks GroupScenario.one_selected).
  simpl. lia.
Defined.

(** With unique ids, [find] by the id of a node of the list returns it. *)
Lemma find_by_id (l : list Node) g :
  NoDup (id <$> l) -> g ∈ l ->
  List.find (fun node => String.eqb (id node) (id g)) l = Some g.
Proof.
  induction l as [|n l IH]; intros Hnd Hin; [by apply elem_of_nil in Hin|].
  rewrite fmap_cons in Hnd. apply NoDup_cons in Hnd as [Hfresh Hnd].
  simpl. destruct (String.eqb (id n) (id g)) eqn:Heq.
  - apply String.eqb_eq in Heq.
    apply elem_of_cons in Hin as [->|Hin]; [done|].
    destruct Hfresh. rewrite Heq. by apply list_elem_of_fmap_2.
  - apply elem_of_cons in Hin as [->|Hin]; [|auto].
    by rewrite String.eqb_refl in Heq.
Qed.

(** Resizing the node with a given id does not change which nodes a filter
    keeps, provided the filter rejects that node before and after. *)
Lemma filter_fmap_stable (keep : Node -> bool) (f : Node -> Node) l :
  (∀ n, n ∈ l -> keep n = true -> f n = n) ->
  (∀ n, n ∈ l -> keep (f n) = keep n) ->
  List.filter keep (f <$> l) = List.filter keep l.
Proof.
  induction l as [|n l IH]; intros Hfix Hkeep; [done|].
  rewrite fmap_cons. simpl.
  rewrite Hkeep by (apply elem_of_cons; by left).
  rewrite IH.
  - destruct (keep n) eqn:Hn; [|done].
    by rewrite Hfix by (first [apply elem_of_cons; by left | done]).
  - intros m Hm. apply Hfix. apply elem_of_cons. by right.
  - intros m Hm. apply Hkeep. apply elem_of_cons. by right.
Qed.


(** The walk-through canvas: the group around ["n1"] and ["n2"] is redrawn
    at (50,50), 400 by 300; the group whose member is gone stays as it
    was. *)
Example updateGroupSize_walk :
  (fun g => (position g, width (style g), height (style g)))
    <$> updateGroupSize "group-1" GroupScenario.with_groups !! 2%nat
    = Some ({| x := 50; y := 50 |}, Some 400, Some 300) ∧
  updateGroupSize "group-2" GroupScenario.with_groups
    = GroupScenario.with_groups.
Proof. by vm_compute. Qed.

End GroupsFacts.


(** ** Group resizing in double precision *)

Module DoubleFacts.
Import PrimFloat.

(** The rounding of [Double] is the rounding of the doubles of the kernel,
    on the numbers of the walk-throughs and at the edges: the literal 0.1,
    what is left of it after 50 is subtracted and added again, integers,
    ties between two doubles above 2^53, a difference of numbers far
    apart, ties among the subnormals; a sum that overflows has no value
    in the model. *)
Example round_as_the_doubles_do :
  Double.value (1 / 10) = Some (Double.literal (1 # 10)) ∧
  Double.value (1 / 10 - 50)
    = Some (Double.sub (Double.literal (1 # 10)) 50) ∧
  Double.value (1 / 10 - 50 + 50)
    = Some (Double.add (Double.sub (Double.literal (1 # 10)) 50) 50) ∧
  (1 / 10 - 50 + 50 <=? 1 / 10)%float = false ∧
  Double.value (100 - 50) = Some (Double.sub 100 50) ∧
  Double.value (300 - 100 + 200)
    = Some (Double.add (Double.sub 300 100) 200) ∧
  Double.value (1 / 10 + 2 / 10)
    = Some (Double.add (Double.literal (1 # 10)) (Double.literal (2 # 10))) ∧
  Double.value (9007199254740992 + 1)
    = Some (Double.add 9007199254740992 1) ∧
  Double.value (9007199254740992 + 3)
    = Some (Double.add 9007199254740992 3) ∧
  Double.value (1 / 3 - 100000000000000000)
    = Some (Double.sub (Double.literal (1 # 3)) 100000000000000000) ∧
  Double.value (0x1p-1074 / 2) = Some (Double.round (2 ^ (-1075))%Q) ∧
  Double.value (0x3p-1074 / 2)
    = Some (Double.round ((3 # 2) * 2 ^ (-1074))%Q) ∧
  Double.value (0x1p+1023 + 0x1p+1023) = None.
Proof. by vm_compute. Qed.

End DoubleFacts.

Module RoundFacts.
Import Double.

Local Open Scope Q_scope.

Lemma nearest_even_integer (m : Q) (z : Z) :
  m == inject_Z z -> nearest_even m = z.
Proof.
  intros Hm. unfold nearest_even.
  rewrite (Qfloor_comp m (inject_Z z) Hm), Qfloor_Z. cbn zeta.
  assert (m - inject_Z z == 0) as Hzero by lra.
  by rewrite (Qcompare_comp _ _ Hzero (1 # 2) (1 # 2) (Qeq_refl _)).
Qed.

Lemma exponent_integer (n : Z) :
  (Z.abs n < 2 ^ 53)%Z -> (exponent (inject_Z n) <= 52)%Z.
Proof.
  intros Hn. unfold exponent. cbn [Qnum Qden inject_Z].
  change (Z.log2 1) with 0%Z.
  assert (Z.log2 (Z.abs n) <= 52)%Z as Hlog.
  { destruct (decide (Z.abs n = 0)%Z) as [->|Hne]; [done|].
    apply Z.lt_succ_r, Z.log2_lt_pow2; lia. }
  destruct (Qle_bool _ _); lia.
Qed.

Lemma pow2_nonpositive (j : Z) :
  (j <= 0)%Z -> 2 ^ j == / inject_Z (2 ^ (- j)).
Proof.
  intros Hj. replace j with (- - j)%Z at 1 by lia.
  rewrite Qpower_opp. apply Qinv_comp.
  symmetry. apply (Zpower_Qpower 2). lia.
Qed.

(** An integer below 2^53 in magnitude is a double: rounding returns it. *)
Lemma round_integer (q : Q) :
  Qden q = 1%positive -> (Z.abs (Qnum q) < 2 ^ 53)%Z -> round q = q.
Proof.
  destruct q as [n d]. cbn [Qnum Qden]. intros -> Hn.
  change (n # 1) with (inject_Z n). unfold round.
  destruct (Qeq_bool (inject_Z n) 0) eqn:Hzero.
  { apply Qeq_bool_eq in Hzero. unfold Qeq in Hzero. cbn in Hzero.
    by replace n with 0%Z by lia. }
  transitivity (Qred (inject_Z n)); [|apply inject_Z_Qred].
  apply Qred_complete. unfold ulp.
  set (j := (Z.max (exponent (inject_Z n)) (-1022) - 52)%Z).
  assert (j <= 0)%Z as Hj by (pose proof (exponent_integer n Hn); lia).
  pose proof (pow2_nonpositive j Hj) as Hpow.
  assert (0 < inject_Z (2 ^ (- j))) as Hpos.
  { rewrite <-(Zlt_Qlt 0). apply Z.pow_pos_nonneg; lia. }
  assert (inject_Z n / 2 ^ j == inject_Z (n * 2 ^ (- j))) as Hscaled.
  { rewrite Hpow, inject_Z_mult. field. lra. }
  rewrite (nearest_even_integer _ _ Hscaled), Hpow, inject_Z_mult.
  field. lra.
Qed.

(** Differences and sums of integers are exact while they stay below
    2^53. *)
Lemma sub_integers (a b : Z) :
  (Z.abs (a - b) < 2 ^ 53)%Z ->
  sub (inject_Z a) (inject_Z b) = inject_Z a - inject_Z b.
Proof.
  intros Hab. apply round_integer; [done|]. cbn. lia.
Qed.

Lemma add_difference (a b c : Z) :
  (Z.abs (a - b) < 2 ^ 53)%Z -> (Z.abs (a - b + c) < 2 ^ 53)%Z ->
  add (sub (inject_Z a) (inject_Z b)) (inject_Z c)
    = inject_Z a - inject_Z b + inject_Z c.
Proof.
  intros Hab Habc. rewrite sub_integers by done.
  apply round_integer; [done|]. cbn. lia.
Qed.

End RoundFacts.

Module DoubleGroupsFacts.
Import NodeFactory(XYPosition, x, y, Build_XYPosition).
Import Groups GroupsFacts DoubleGroups.

Local Open Scope Q_scope.

(** The members that [updateGroupSize] measures are the members of the
    group on the canvas. *)
Lemma groupNodes_spec (listed : list string) (l : list Node) (m : Node) :
  m ∈ groupNodes listed l ↔ m ∈ l ∧ id m ∈ listed ∧ type m ≠ "group".
Proof.
  unfold groupNodes.
  rewrite list_elem_of_In, filter_In, andb_true_iff, includes_elem_of,
    negb_true_iff, String.eqb_neq.
  by rewrite <-list_elem_of_In.
Qed.




(** On the integer grid the doubles give the formulas of [Groups]. *)
Lemma resized_on_grid (node first : Node) (rest : list Node) :
  (∀ m, m ∈ first :: rest -> on_grid (position m)) ->
  resized node first rest = Groups.resized node first rest.
Proof.
  intros Hgrid.
  destruct (extremes_attained first rest)
    as ((mx & Hmx & Hx) & (my & Hmy & Hy)
        & (mX & HmX & HX) & (mY & HmY & HY)).
  destruct (Hgrid mx Hmx) as (a & ? & Hpx & Ha & _).
  destruct (Hgrid my Hmy) as (? & b & Hpy & _ & Hb).
  destruct (Hgrid mX HmX) as (c & ? & HpX & Hc & _).
  destruct (Hgrid mY HmY) as (? & d & HpY & _ & Hd).
  unfold resized, Groups.resized.
  rewrite <-Hx, <-Hy, <-HX, <-HY, Hpx, Hpy, HpX, HpY. cbn [x y].
  change 50 with (inject_Z 50). change 200 with (inject_Z 200).
  by rewrite (RoundFacts.sub_integers a 50), (RoundFacts.sub_integers b 50),
    (RoundFacts.add_difference c a 200), (RoundFacts.add_difference d b 200)
    by lia.
Qed.

Lemma updateGroupSize_on_grid (groupId : string) (prevNodes : list Node) :
  (∀ m, m ∈ prevNodes -> type m ≠ "group" -> on_grid (position m)) ->
  updateGroupSize groupId prevNodes
    = Groups.updateGroupSize groupId prevNodes.
Proof.
  intros Hgrid. unfold updateGroupSize, Groups.updateGroupSize.
  destruct (List.find _ prevNodes) as [groupNode|]; [|done].
  destruct (negb _); [done|].
  destruct (data_nodes groupNode) as [listed|]; [|done].
  destruct (groupNodes listed prevNodes) as [|first rest] eqn:HM; [done|].
  apply list_fmap_ext. intros _ node _.
  destruct (String.eqb (id node) groupId); [|done].
  apply resized_on_grid. intros m Hm. rewrite <-HM in Hm.
  apply groupNodes_spec in Hm as (Hin & _ & Hnot). by apply Hgrid.
Qed.




End DoubleGroupsFacts.

(** ** Choice of the routing strategy *)

Module RoutingFacts.
Import Routing.

(** Each strategy leaves its own name in [currentRoutingType]. *)
Lemma strategy_of_bezier edges options elapsed st :
  strategy_of (applyBezierRouting edges options elapsed st) = bezier.
Proof. reflexivity. Qed.

Lemma strategy_of_smart edges nodes options elapsed st :
  strategy_of (applySmartEdgeRouting edges nodes options elapsed st) = smart.
Proof. reflexivity. Qed.

Lemma strategy_of_orthogonal edges options elapsed st :
  strategy_of (applyOrthogonalRouting edges options elapsed st) = orthogonal.
Proof. reflexivity. Qed.

(** Five, fifteen and sixteen copies of an edge, routed from scratch. *)
Example applyAutoRouting_boundaries :
  let edge := {| id := "e-1"; source := "product-1-a";
                 target := "process-2-b"; type := Some "custom";
                 data := ∅ |} in
  let st := {| isRouting := false; currentRoutingType := default_routing |} in
  let auto n := applyAutoRouting (replicate n edge) [] no_options 0 st in
  strategy_of (auto 5%nat) = bezier ∧ complexity (auto 5%nat).1 = low ∧
  strategy_of (auto 6%nat) = smart ∧
  strategy_of (auto 15%nat) = smart ∧ complexity (auto 15%nat).1 = medium ∧
  strategy_of (auto 16%nat) = orthogonal ∧ complexity (auto 16%nat).1 = high.
Proof. by vm_compute. Qed.

(** C8. [applyAutoRouting] chooses by the number of edges alone: with at
    most 5 edges it is [applyBezierRouting], with 6 to 15 edges it is
    [applySmartEdgeRouting], with more than 15 edges it is
    [applyOrthogonalRouting], whatever the edges, the nodes, the options and
    the state of the hook are; so exactly 5 edges go to bezier, exactly 15 to
    smart and 16 to orthogonal. *)
Theorem applyAutoRouting_by_edge_count
    (edges : list Edge) (nodes : list Node) (options : EdgeRoutingOptions)
    (elapsed : Q) (st : HookState) :
  let n := List.length edges in
  let auto := applyAutoRouting edges nodes options elapsed st in
  ((n <= 5)%nat ->
     auto = applyBezierRouting edges options elapsed st ∧
     strategy_of auto = bezier) ∧
  ((6 <= n <= 15)%nat ->
     auto = applySmartEdgeRouting edges nodes options elapsed st ∧
     strategy_of auto = smart) ∧
  ((15 < n)%nat ->
     auto = applyOrthogonalRouting edges options elapsed st ∧
     strategy_of auto = orthogonal) ∧
  (n = 5%nat -> strategy_of auto = bezier) ∧
  (n = 15%nat -> strategy_of auto = smart) ∧
  (n = 16%nat -> strategy_of auto = orthogonal).
Proof.
  intros n auto. subst auto. unfold applyAutoRouting. fold n.
  destruct (n <=? 5)%nat eqn:H5;
    [apply Nat.leb_le in H5|apply Nat.leb_gt in H5];
    [|destruct (n <=? 15)%nat eqn:H15;
        [apply Nat.leb_le in H15|apply Nat.leb_gt in H15]];
    split_and!; intros; first [lia | done].
Qed.

End RoutingFacts.

(** ** More on routing: identity, optimisation, reset *)

Module RoutingMoreFacts.
Import NodeFactory(XYPosition, x, y, Build_XYPosition) Routing.

Lemma reroute_data newType entries edge key :
  key ∉ entries.*1 ->
  data (reroute newType entries edge) !! key = data edge !! key.
Proof.
  unfold reroute. cbn [data]. generalize (data edge).
  induction entries as [|[k v] entries IH]; intros d Hkey; [done|].
  cbn [foldl]. rewrite fmap_cons in Hkey.
  apply not_elem_of_cons in Hkey as [Hne Hkey].
  rewrite IH by done. cbn. by rewrite lookup_insert_ne.
Qed.

Lemma reroute_keeps_keys newType entries edge key :
  is_Some (data edge !! key) ->
  is_Some (data (reroute newType entries edge) !! key).
Proof.
  unfold reroute. cbn [data]. generalize (data edge).
  induction entries as [|[k v] entries IH]; intros d Hkey; [done|].
  cbn [foldl]. apply IH. cbn. rewrite lookup_insert.
  by destruct (decide (k = key)).
Qed.

Lemma reroute_rerouted newType entries edge :
  entries.*1 ⊆ routing_keys ->
  rerouted edge (reroute newType entries edge).
Proof.
  intros Hsub. split_and!; [done| |apply reroute_keeps_keys].
  intros key Hkey. apply reroute_data. intros Hin. apply Hkey. by apply Hsub.
Qed.

Lemma rerouted_refl edge : rerouted edge edge.
Proof. by split_and!. Qed.

Lemma rerouted_trans e1 e2 e3 :
  rerouted e1 e2 -> rerouted e2 e3 -> rerouted e1 e3.
Proof.
  intros (Hi1 & Hd1 & Hk1) (Hi2 & Hd2 & Hk2). split_and!.
  - congruence.
  - intros key Hkey. by rewrite Hd2, Hd1.
  - auto.
Qed.

Lemma fmap_rerouted (f : Edge -> Edge) edges :
  (∀ edge, rerouted edge (f edge)) -> Forall2 rerouted edges (f <$> edges).
Proof.
  intros Hf. induction edges as [|e es IH]; constructor; auto.
Qed.

Lemma Forall2_rerouted_trans l1 l2 l3 :
  Forall2 rerouted l1 l2 -> Forall2 rerouted l2 l3 -> Forall2 rerouted l1 l3.
Proof.
  intros H12. revert l3.
  induction H12 as [|e1 e2 l1 l2 He Hl IH]; intros l3 H23.
  - by inversion H23.
  - inversion H23 as [|? e3 ? l3' He' Hl']; subst.
    constructor; [by eapply rerouted_trans|by apply IH].
Qed.

Ltac routing_keys :=
  unfold routing_keys; intros key; cbn [fmap list_fmap fst];
  rewrite !elem_of_cons, elem_of_nil; intuition auto.

Lemma smart_edge_rerouted nodes edge : rerouted edge (smart_edge nodes edge).
Proof.
  unfold smart_edge.
  destruct (find_node nodes (source edge)), (find_node nodes (target edge));
    try apply rerouted_refl.
  destruct (closer_than_100 _ _); [|apply rerouted_refl].
  apply reroute_rerouted. routing_keys.
Qed.

(** What [optimizeRouting] comes to, on either side of its test. *)
Lemma optimizeRouting_unfold edges nodes options t1 t2 t3 st :
  optimizeRouting edges nodes options t1 t2 t3 st =
  if (20 <? List.length edges)%nat
  then
    let orthogonalResult :=
      (applyOrthogonalRouting (smart_edge nodes <$> edges) options t2 st).1 in
    ({| edges := Routing.edges orthogonalResult;
        routingTime := t3;
        complexity := high |},
     {| isRouting := false; currentRoutingType := orthogonal |})
  else
    ((applySmartEdgeRouting edges nodes options t1 st).1,
     {| isRouting := false; currentRoutingType := smart |}).
Proof.
  unfold optimizeRouting, applySmartEdgeRouting, applyOrthogonalRouting.
  unfold mbind, mret, hook_bind, hook_ret, setIsRouting,
    setCurrentRoutingType.
  destruct (20 <? List.length edges)%nat eqn:Hn.
  - cbn [fst snd complexity Routing.edges isRouting currentRoutingType].
    rewrite length_fmap.
    apply Nat.ltb_lt in Hn.
    replace (15 <? List.length edges)%nat with true
      by (symmetry; apply Nat.ltb_lt; lia).
    done.
  - by destruct (10 <? List.length edges)%nat.
Qed.

(** X1. No routing function touches the identity of an edge or drops
    anything from its data: the edges a strategy returns are the edges it
    was given, one for one and in order, each with the same id, source and
    target, with every data key outside the routing keys unchanged and
    with every key it had still present. *)
Theorem routing_keeps_identity_and_data
    (edges : list Edge) (nodes : list Node) (options : EdgeRoutingOptions)
    (t1 t2 t3 : Q) (st : HookState) :
  Forall2 rerouted edges
    (Routing.edges (applySmartEdgeRouting edges nodes options t1 st).1) ∧
  Forall2 rerouted edges
    (Routing.edges (applyOrthogonalRouting edges options t1 st).1) ∧
  Forall2 rerouted edges
    (Routing.edges (applyBezierRouting edges options t1 st).1) ∧
  Forall2 rerouted edges
    (Routing.edges (applyStepRouting edges options t1 st).1) ∧
  Forall2 rerouted edges
    (Routing.edges (applyAutoRouting edges nodes options t1 st).1) ∧
  Forall2 rerouted edges
    (Routing.edges (optimizeRouting edges nodes options t1 t2 t3 st).1) ∧
  Forall2 rerouted edges (Routing.edges (resetRouting edges st).1).
Proof.
  assert (∀ es, Forall2 rerouted es (smart_edge nodes <$> es)) as Hsmart.
  { intros es. apply fmap_rerouted, smart_edge_rerouted. }
  assert (∀ es t st',
            Forall2 rerouted es
              (Routing.edges (applyOrthogonalRouting es options t st').1))
    as Horth.
  { intros es t st'. apply fmap_rerouted. intros e.
    apply reroute_rerouted. routing_keys. }
  assert (Forall2 rerouted edges
            (Routing.edges (applyBezierRouting edges options t1 st).1))
    as Hbez.
  { apply fmap_rerouted. intros e. apply reroute_rerouted. routing_keys. }
  split_and!.
  - apply Hsmart.
  - apply Horth.
  - apply Hbez.
  - apply fmap_rerouted. intros e. apply reroute_rerouted. routing_keys.
  - unfold applyAutoRouting.
    destruct (_ <=? 5)%nat; [apply Hbez|].
    destruct (_ <=? 15)%nat; [apply Hsmart|apply Horth].
  - rewrite optimizeRouting_unfold.
    destruct (20 <? List.length edges)%nat; [|apply Hsmart].
    cbn [fst Routing.edges].
    eapply Forall2_rerouted_trans; [apply Hsmart|apply Horth].
  - apply fmap_rerouted. intros e. apply reroute_rerouted. routing_keys.
Qed.


(** X2. [optimizeRouting] runs one pass or two. With at most twenty edges
    its result is the result of the smart pass; with more, it is the
    orthogonal pass over the output of the smart pass, so every edge comes
    back as an orthogonal edge, the complexity is high and the time is the
    one the whole call measured. Either way the hook is idle afterwards. *)
Theorem optimizeRouting_one_or_two_passes
    (edges : list Edge) (nodes : list Node) (options : EdgeRoutingOptions)
    (t1 t2 t3 : Q) (st : HookState) :
  let run := optimizeRouting edges nodes options t1 t2 t3 st in
  let smartResult := (applySmartEdgeRouting edges nodes options t1 st).1 in
  isRouting run.2 = false ∧
  (complexity run.1 = high ↔ (20 < List.length edges)%nat) ∧
  ((List.length edges <= 20)%nat ->
     run.1 = smartResult ∧ strategy_of run = smart) ∧
  ((20 < List.length edges)%nat ->
     Routing.edges run.1 =
       Routing.edges
         (applyOrthogonalRouting (Routing.edges smartResult) options t2 st).1 ∧
     Forall (fun edge => type edge = Some "orthogonalEdge")
       (Routing.edges run.1) ∧
     routingTime run.1 = t3 ∧
     strategy_of run = orthogonal).
Proof.
  intros run smartResult. subst run smartResult.
  rewrite optimizeRouting_unfold.
  unfold applySmartEdgeRouting, applyOrthogonalRouting, strategy_of, mbind,
    mret, hook_bind, hook_ret, setIsRouting, setCurrentRoutingType.
  destruct (20 <? List.length edges)%nat eqn:Hn;
    cbn [fst snd isRouting complexity currentRoutingType Routing.edges
         routingTime].
  - apply Nat.ltb_lt in Hn.
    split_and!; [done|done|lia|]. intros _.
    split_and!; try done.
    apply Forall_fmap, Forall_true. done.
  - apply Nat.ltb_ge in Hn.
    split_and!; [done| |done|lia].
    split; [|lia]. by destruct (10 <? _)%nat.
Qed.

Lemma foldl_insert_union (entries : list (string * Value))
    (d : gmap string Value) :
  foldl (fun d kv => <[kv.1 := kv.2]> d) d entries =
  list_to_map (reverse entries) ∪ d.
Proof.
  revert d. induction entries as [|[k v] entries IH]; intros d.
  - cbn. by rewrite (left_id_L ∅ (∪)).
  - cbn [foldl fst snd]. rewrite IH, reverse_cons, list_to_map_app.
    rewrite <-(assoc_L (∪)). f_equal. cbn [list_to_map foldr uncurry].
    by rewrite <-insert_union_l, (left_id_L ∅ (∪)).
Qed.

Lemma union_twice (m d : gmap string Value) : m ∪ (m ∪ d) = m ∪ d.
Proof. by rewrite (assoc_L (∪)), (idemp_L (∪)). Qed.

Lemma union_union_twice (m1 m2 d : gmap string Value) :
  m1 ∪ (m2 ∪ (m1 ∪ (m2 ∪ d))) = m1 ∪ (m2 ∪ d).
Proof.
  apply map_eq. intros key. rewrite !lookup_union.
  by destruct (m1 !! key), (m2 !! key), (d !! key).
Qed.

Lemma reroute_idempotent newType entries edge :
  reroute newType entries (reroute newType entries edge) =
  reroute newType entries edge.
Proof.
  unfold reroute. cbn [id source target data]. f_equal.
  by rewrite !foldl_insert_union, union_twice.
Qed.

Lemma smart_edge_idempotent nodes edge :
  smart_edge nodes (smart_edge nodes edge) = smart_edge nodes edge.
Proof.
  unfold smart_edge at 2.
  destruct (find_node nodes (source edge)) as [s|] eqn:Hs;
    [|unfold smart_edge; by rewrite Hs].
  destruct (find_node nodes (target edge)) as [t|] eqn:Ht;
    [|unfold smart_edge; by rewrite Hs, Ht].
  destruct (closer_than_100 (position s) (position t)) eqn:Hd;
    unfold smart_edge; cbn [source target reroute]; rewrite Hs, Ht, Hd;
    [|done].
  apply reroute_idempotent.
Qed.

Lemma fmap_idempotent (f : Edge -> Edge) (edges : list Edge) :
  (∀ edge, f (f edge) = f edge) -> f <$> (f <$> edges) = f <$> edges.
Proof.
  intros Hf. rewrite <-list_fmap_compose. apply list_fmap_ext.
  intros _ edge _. apply Hf.
Qed.

Lemma smart_edge_reroute nodes newType entries edge :
  smart_edge nodes (reroute newType entries edge) =
  match find_node nodes (source edge), find_node nodes (target edge) with
  | Some sourceNode, Some targetNode =>
      if closer_than_100 (position sourceNode) (position targetNode)
      then reroute "smartEdge"
             [("routingType", VStr "smart"); ("avoidNodes", VBool true)]
             (reroute newType entries edge)
      else reroute newType entries edge
  | _, _ => reroute newType entries edge
  end.
Proof. done. Qed.

Lemma orthogonal_smart_idempotent entries nodes edge :
  let f edge := reroute "orthogonalEdge" entries (smart_edge nodes edge) in
  f (f edge) = f edge.
Proof.
  intros f. subst f. cbn beta. rewrite smart_edge_reroute.
  assert (source (smart_edge nodes edge) = source edge
          ∧ target (smart_edge nodes edge) = target edge) as [-> ->].
  { unfold smart_edge.
    destruct (find_node nodes (source edge)), (find_node nodes (target edge));
      try done.
    by destruct (closer_than_100 _ _). }
  unfold smart_edge.
  destruct (find_node nodes (source edge)) as [s|];
    [|apply reroute_idempotent].
  destruct (find_node nodes (target edge)) as [t|];
    [|apply reroute_idempotent].
  destruct (closer_than_100 (position s) (position t));
    [|apply reroute_idempotent].
  unfold reroute. cbn [id source target data]. f_equal.
  rewrite !foldl_insert_union. apply union_union_twice.
Qed.

Lemma orthogonal_edges options :
  ∃ entries, ∀ es t st,
    Routing.edges (applyOrthogonalRouting es options t st).1
    = reroute "orthogonalEdge" entries <$> es.
Proof. by eexists. Qed.

Lemma bezier_edges options :
  ∃ entries, ∀ es t st,
    Routing.edges (applyBezierRouting es options t st).1
    = reroute "bezierEdge" entries <$> es.
Proof. by eexists. Qed.

Lemma smart_edges es nodes options t st :
  Routing.edges (applySmartEdgeRouting es nodes options t st).1
  = smart_edge nodes <$> es.
Proof. done. Qed.

(** X3. Routing twice is routing once: whichever strategy is run, running
    it again over its own output (with the same nodes and options) returns
    the same edges. *)
Theorem routing_is_idempotent
    (edges : list Edge) (nodes : list Node) (options : EdgeRoutingOptions)
    (t1 t2 t3 t1' t2' t3' : Q) (st st' : HookState) :
  let again (f : list Edge -> Q -> Q -> Q -> Hook EdgeRoutingResult) :=
    Routing.edges (f (Routing.edges (f edges t1 t2 t3 st).1) t1' t2' t3' st').1
    = Routing.edges (f edges t1 t2 t3 st).1 in
  again (fun es t _ _ => applySmartEdgeRouting es nodes options t) ∧
  again (fun es t _ _ => applyOrthogonalRouting es options t) ∧
  again (fun es t _ _ => applyBezierRouting es options t) ∧
  again (fun es t _ _ => applyStepRouting es options t) ∧
  again (fun es t _ _ => applyAutoRouting es nodes options t) ∧
  again (fun es => optimizeRouting es nodes options) ∧
  again (fun es _ _ _ => resetRouting es).
Proof.
  intros again. subst again. cbn beta.
  assert (∀ es : list Edge,
            smart_edge nodes <$> (smart_edge nodes <$> es)
            = smart_edge nodes <$> es) as Hsmart.
  { intros es. apply fmap_idempotent, smart_edge_idempotent. }
  assert (∀ ty entries (es : list Edge),
            reroute ty entries <$> (reroute ty entries <$> es)
            = reroute ty entries <$> es) as Hre.
  { intros ty entries es. apply fmap_idempotent. intros e.
    apply reroute_idempotent. }
  destruct (orthogonal_edges options) as [orth Horth].
  destruct (bezier_edges options) as [bez Hbez].
  split_and!.
  - apply Hsmart.
  - apply Hre.
  - apply Hre.
  - apply Hre.
  - unfold applyAutoRouting.
    destruct (List.length edges <=? 5)%nat eqn:H5;
      [|destruct (List.length edges <=? 15)%nat eqn:H15].
    + rewrite Hbez, length_fmap, H5, !Hbez. apply Hre.
    + rewrite smart_edges, length_fmap, H5, H15, !smart_edges. apply Hsmart.
    + rewrite Horth, length_fmap, H5, H15, !Horth. apply Hre.
  - rewrite !optimizeRouting_unfold.
    destruct (20 <? List.length edges)%nat eqn:H20; cbn [fst Routing.edges].
    + rewrite !Horth, !length_fmap, H20. cbn [fst Routing.edges].
      rewrite ?Horth, <-!list_fmap_compose.
      apply list_fmap_ext. intros _ e _.
      apply (orthogonal_smart_idempotent orth nodes e).
    + rewrite smart_edges, length_fmap, H20. cbn [fst].
      rewrite !smart_edges. apply Hsmart.
  - apply Hre.
Qed.


(** X4. [resetRouting] resets the type and nothing else: every edge comes
    back with type and routing type "default", and with every other key of
    its data as it was, the step size, grid snap, smoothness and node
    avoidance an earlier routing wrote included. The hook's strategy becomes
    the default one and its busy flag is not touched. *)
Theorem resetRouting_keeps_routing_parameters
    (edges : list Edge) (st : HookState) :
  let run := resetRouting edges st in
  strategy_of run = default_routing ∧
  isRouting run.2 = isRouting st ∧
  routingTime run.1 = 0%Q ∧
  Forall2
    (fun edge reset =>
       identity reset = identity edge ∧
       type reset = Some "default" ∧
       data reset !! "routingType" = Some (VStr "default") ∧
       ∀ key, key ≠ "routingType" -> data reset !! key = data edge !! key)
    edges (Routing.edges run.1).
Proof.
  cbn zeta. split_and!; try done.
  change (Routing.edges (resetRouting edges st).1)
    with (reroute "default" [("routingType", VStr "default")] <$> edges).
  induction edges as [|e es IH]; constructor; [|done].
  split_and!; try done.
  - cbn. by rewrite lookup_insert_eq.
  - intros key Hkey. apply reroute_data.
    cbn. rewrite elem_of_cons, elem_of_nil. intuition auto.
Qed.

(** X5. The options the hook advertises for a type are the defaults the
    strategy of that type falls back on: routing with
    [getRoutingOptions type] is routing with no options at all, for the
    orthogonal, the bezier and the step strategy; and the smart strategy
    does not read its options. *)
Theorem advertised_options_are_the_defaults
    (edges : list Edge) (nodes : list Node) (options : EdgeRoutingOptions)
    (t : Q) (st : HookState) :
  applyOrthogonalRouting edges (getRoutingOptions orthogonal) t st
    = applyOrthogonalRouting edges no_options t st ∧
  applyBezierRouting edges (getRoutingOptions bezier) t st
    = applyBezierRouting edges no_options t st ∧
  applyStepRouting edges (getRoutingOptions step) t st
    = applyStepRouting edges no_options t st ∧
  applySmartEdgeRouting edges nodes options t st
    = applySmartEdgeRouting edges nodes no_options t st.
Proof. by split_and!. Qed.

End RoutingMoreFacts.


(** ** The retry loop of the axios client *)

Module RetryFacts.
Import Retry.

Lemma tests_agree error : server_or_network_error error = retryable error.
Proof.
  unfold server_or_network_error, retryable.
  destruct (response error) as [r|]; [|done].
  destruct (Z.leb_spec 500 (status r)); [|by rewrite andb_false_r].
  rewrite andb_true_r. symmetry. apply negb_true_iff, Z.eqb_neq. lia.
Qed.

Lemma retryRequest_shape axiosInstance retries : ∀ attempt,
  ∃ n, (n <= retries)%nat ∧
    calls (retryRequest axiosInstance attempt retries).1
      = seq attempt (S n) ∧
    waits (retryRequest axiosInstance attempt retries).1
      = (fun k => 1000 * (4 - Z.of_nat (retries - k))) <$> seq 0 n ∧
    (retryRequest axiosInstance attempt retries).2
      = axiosInstance (attempt + n)%nat ∧
    (∀ k, (k < n)%nat -> retried (axiosInstance (attempt + k)%nat)) ∧
    ((n < retries)%nat -> ¬ retried (axiosInstance (attempt + n)%nat)).
Proof.
  induction retries as [|retries IH]; intros attempt.
  - exists 0%nat. cbn [retryRequest]. rewrite Nat.add_0_r.
    destruct (axiosInstance attempt) as [r|error];
      (split_and!; [lia|done|done|done|intros; lia|intros; lia]).
  - cbn [retryRequest].
    destruct (axiosInstance attempt) as [r|error] eqn:Hcall.
    { exists 0%nat. rewrite Nat.add_0_r, Hcall.
      split_and!; [lia|done|done|done|intros; lia|by intros _ []]. }
    destruct (retryable error) eqn:Hretry.
    2:{ exists 0%nat. rewrite Nat.add_0_r, Hcall.
        split_and!; [lia|done|done|done|intros; lia|].
        intros _ Hr. cbn in Hr. congruence. }
    destruct (IH (S attempt)) as (n & Hn & Hcalls & Hwaits & Hout & Hbefore & Hlast).
    destruct (retryRequest axiosInstance (S attempt) retries)
      as [trace settled].
    cbn [fst snd] in *. exists (S n).
    replace (attempt + S n)%nat with (S attempt + n)%nat by lia.
    split_and!; [lia| | |done| |].
    + cbn [calls omap list_omap]. fold (calls trace). rewrite Hcalls. done.
    + cbn [waits omap list_omap]. fold (waits trace). rewrite Hwaits.
      cbn [seq fmap list_fmap]. f_equal.
      rewrite <-fmap_S_seq, <-list_fmap_compose. done.
    + intros [|k] Hk.
      * rewrite Nat.add_0_r, Hcall. done.
      * replace (attempt + S k)%nat with (S attempt + k)%nat by lia.
        apply Hbefore. lia.
    + intros Hlt. apply Hlast. lia.
Qed.

(** X6. [retryRequest] calls the instance once and then once more after
    each failure that is a 5xx or has no response, at most [retries] more
    times. It settles as the last call it made settled; every earlier call
    failed in that way; it stops early only on a call that did not; and
    before the retry that leaves [r] retries it waits [1000 * (4 - r)]
    milliseconds, counted from the [retries] it was given. *)
Theorem retryRequest_trace
    (axiosInstance : nat -> Settled) (attempt retries : nat) :
  let '(trace, settled) := retryRequest axiosInstance attempt retries in
  ∃ n, (n <= retries)%nat ∧
    calls trace = seq attempt (S n) ∧
    waits trace
      = (fun k => 1000 * (4 - Z.of_nat (retries - k))) <$> seq 0 n ∧
    settled = axiosInstance (attempt + n)%nat ∧
    (∀ k, (k < n)%nat -> retried (axiosInstance (attempt + k)%nat)) ∧
    ((n < retries)%nat -> ¬ retried (axiosInstance (attempt + n)%nat)).
Proof.
  pose proof (retryRequest_shape axiosInstance retries attempt) as H.
  by destruct (retryRequest axiosInstance attempt retries).
Qed.

Lemma calls_app t1 t2 : calls (t1 ++ t2) = calls t1 ++ calls t2.
Proof. apply omap_app. Qed.
Lemma waits_app t1 t2 : waits (t1 ++ t2) = waits t1 ++ waits t2.
Proof. apply omap_app. Qed.

Lemma retryRequest_events axiosInstance retries : ∀ attempt,
  Forall (fun e => match e with Call _ | Wait _ => True | _ => False end)
    (retryRequest axiosInstance attempt retries).1.
Proof.
  induction retries as [|retries IH]; intros attempt; cbn [retryRequest].
  - destruct (axiosInstance attempt); repeat constructor.
  - destruct (axiosInstance attempt) as [r|error]; [repeat constructor|].
    destruct (retryable error); [|repeat constructor].
    specialize (IH (S attempt)).
    destruct (retryRequest axiosInstance (S attempt) retries).
    by repeat constructor.
Qed.

Lemma retryable_not_401 error r :
  retryable error = true -> response error = Some r -> status r ≠ 401.
Proof.
  unfold retryable. intros Hretry Hr. rewrite Hr in Hretry.
  apply andb_true_iff in Hretry as [_ Hge%Z.leb_le]. lia.
Qed.

Lemma reject_quiet in_browser error :
  calls (reject in_browser error).1 = [] ∧
  waits (reject in_browser error).1 = [].
Proof.
  unfold reject. cbn [fst]. rewrite calls_app, waits_app.
  destruct (config error), (response error) as [r|];
    try destruct ((status r =? 401) && in_browser); done.
Qed.

Lemma reject_clears in_browser error :
  clears_session (reject in_browser error).1 ↔
  in_browser = true ∧ ∃ r, response error = Some r ∧ status r = 401.
Proof.
  unfold reject, clears_session. cbn [fst]. rewrite elem_of_app.
  assert (RemoveItem "auth_token"
            ∉ ConsoleError error ::
              match config error with
              | Some c => [PendingDelete c]
              | None => []
              end) as Hlogged.
  { destruct (config error);
      rewrite ?elem_of_cons, elem_of_nil; intuition discriminate. }
  destruct (response error) as [r|].
  - destruct (Z.eqb_spec (status r) 401) as [H401|H401];
      destruct in_browser; cbn [andb].
    + split; [|intros _; right; apply elem_of_cons; by left].
      intros _. split; [done|]. by exists r.
    + split; [|by intros [? _]].
      intros [H|H]; [done|by apply elem_of_nil in H].
    + split; [|intros (_ & r' & [= <-] & ?); done].
      intros [H|H]; [done|by apply elem_of_nil in H].
    + split; [|by intros [? _]].
      intros [H|H]; [done|by apply elem_of_nil in H].
  - split; [|by intros (_ & r & [=] & _)].
    intros [H|H]; [done|by apply elem_of_nil in H].
Qed.

(** A call of the client with a marked config calls nothing further, and
    clears the session exactly when it is rejected with a 401 in the
    browser. *)
Lemma axiosClient_quiet in_browser c answer :
  calls (axiosClient in_browser c answer).1 = [] ∧
  waits (axiosClient in_browser c answer).1 = [].
Proof. destruct answer; [done|apply reject_quiet..]. Qed.

Lemma axiosClient_clears in_browser c answer :
  clears_session (axiosClient in_browser c answer).1 ↔
  in_browser = true ∧
  ∃ e r, (axiosClient in_browser c answer).2 = Rejected e ∧
         response e = Some r ∧ status r = 401.
Proof.
  destruct answer as [r|reason r|reason]; cbn [axiosClient].
  - unfold clears_session. cbn [fst snd].
    rewrite elem_of_cons, elem_of_nil.
    split; [intuition discriminate|]. by intros (_ & e & r' & [=] & _).
  - rewrite reject_clears. cbn [snd reject]. split.
    + intros (Hb & r' & Hr & H401). split; [done|]. by eexists _, r'.
    + intros (Hb & e & r' & [= <-] & Hr & H401). split; [done|]. by exists r'.
  - rewrite reject_clears. cbn [snd reject]. split.
    + by intros (_ & r' & [=] & _).
    + by intros (_ & e & r' & [= <-] & [=] & _).
Qed.

Lemma calls_during client trace :
  (∀ k, calls (client k).1 = []) ->
  calls (during client trace) = calls trace.
Proof.
  intros Hquiet. induction trace as [|e trace IH]; [done|].
  unfold during in *. cbn [flat_map]. rewrite calls_app, IH.
  destruct e; try done. cbn [calls omap list_omap app].
  fold (calls (client attempt).1). by rewrite Hquiet.
Qed.

Lemma waits_during client trace :
  (∀ k, waits (client k).1 = []) ->
  waits (during client trace) = waits trace.
Proof.
  intros Hquiet. induction trace as [|e trace IH]; [done|].
  unfold during in *. cbn [flat_map]. rewrite waits_app, IH.
  destruct e; try done. cbn [waits omap list_omap app].
  fold (waits (client attempt).1). by rewrite Hquiet.
Qed.

Lemma clears_during client trace :
  Forall (fun e => match e with Call _ | Wait _ => True | _ => False end)
    trace ->
  clears_session (during client trace) ↔
  ∃ k, k ∈ calls trace ∧ clears_session (client k).1.
Proof.
  unfold clears_session, during.
  induction 1 as [|e trace He _ IH]; cbn [flat_map].
  - split; [by intros ?%elem_of_nil|]. by intros (k & ?%elem_of_nil & _).
  - rewrite elem_of_app, IH. destruct e; try done.
    + cbn [calls omap list_omap]. fold (calls trace).
      rewrite elem_of_cons. split.
      * intros [[H|H]|(k & Hk & H)]; [done| |].
        -- exists attempt. split; [apply elem_of_cons; by left|done].
        -- exists k. split; [apply elem_of_cons; by right|done].
      * intros (k & [->|Hk]%elem_of_cons & H); [left; by right|].
        right. by exists k.
    + cbn [calls omap list_omap]. fold (calls trace).
      rewrite elem_of_cons, elem_of_nil. split.
      * intros [[H|H]|H]; done.
      * intros H. by right.
Qed.

(** The handler finds the mark it left: an error whose config bears it is
    not retried. *)
Lemma on_rejected_marked transport in_browser error :
  (∀ c, config error = Some c -> _retry c = true) ->
  on_rejected transport in_browser error = reject in_browser error.
Proof.
  intros Hmarked. unfold on_rejected.
  destruct (server_or_network_error error); [|done].
  destruct (config error) as [c|]; [|done].
  by rewrite (Hmarked c).
Qed.

(** X7. The handler of rejected responses starts the retry loop at most
    once per request: it calls the client again only for a 5xx or
    unanswered request whose config does not carry the mark yet, then at
    most four times with waits of 1, 2 and 3 seconds between the calls;
    every other error is rejected as it came. Every call of the loop goes
    through the handlers of the response again, which find the mark and do
    not start a second loop. The stored session is cleared exactly when the
    handler ends on a rejection with status 401 in the browser: on the
    error it was given when that is a 401, or on the answer to the last
    retry. *)
Theorem on_rejected_retries_once
    (transport : AxiosRequestConfig -> nat -> Answer)
    (in_browser : bool) (error : AxiosError) :
  let '(trace, settled) := on_rejected transport in_browser error in
  let unmarked :=
    retryable error = true ∧ ∃ c, config error = Some c ∧ _retry c = false in
  (calls trace ≠ [] ↔ unmarked) ∧
  (List.length (calls trace) <= 4)%nat ∧
  waits trace `prefix_of` [1000; 2000; 3000] ∧
  (¬ unmarked -> (trace, settled) = reject in_browser error) ∧
  (clears_session trace ↔
     in_browser = true ∧
     ∃ e r, settled = Rejected e ∧ response e = Some r ∧ status r = 401).
Proof.
  assert (∀ e, (reject in_browser e).2 = Rejected e) as Hrej by done.
  assert (¬ (retryable error = true
             ∧ ∃ c, config error = Some c ∧ _retry c = false) ->
          on_rejected transport in_browser error = reject in_browser error ->
          let '(trace, settled) := on_rejected transport in_browser error in
          let unmarked :=
            retryable error = true
            ∧ ∃ c, config error = Some c ∧ _retry c = false in
          (calls trace ≠ [] ↔ unmarked) ∧
          (List.length (calls trace) <= 4)%nat ∧
          waits trace `prefix_of` [1000; 2000; 3000] ∧
          (¬ unmarked -> (trace, settled) = reject in_browser error) ∧
          (clears_session trace ↔
             in_browser = true ∧
             ∃ e r, settled = Rejected e ∧ response e = Some r
                    ∧ status r = 401)) as Hquiet.
  { intros Hno ->.
    pose proof (reject_quiet in_browser error) as [Hc Hw].
    pose proof (reject_clears in_browser error) as Hclears.
    specialize (Hrej error).
    destruct (reject in_browser error) as [trace settled].
    cbn [fst snd] in *. subst settled. rewrite Hc, Hw.
    split_and!; [|cbn; lia|apply prefix_nil|done|].
    - split; [done|]. intros H. by destruct Hno.
    - rewrite Hclears. split.
      + intros (Hb & r & Hr & H401). split; [done|]. by exists error, r.
      + intros (Hb & e & r & [= <-] & Hr & H401). split; [done|].
        by exists r. }
  destruct (retryable error) eqn:Hretry.
  2:{ apply Hquiet; [by intros [? _]|].
      unfold on_rejected. by rewrite tests_agree, Hretry. }
  destruct (config error) as [c|] eqn:Hc.
  2:{ apply Hquiet; [by intros (_ & c & [=] & _)|].
      apply on_rejected_marked. intros c. by rewrite Hc. }
  destruct (_retry c) eqn:Hm.
  { apply Hquiet; [intros (_ & c' & [= <-] & ?); congruence|].
    apply on_rejected_marked. rewrite Hc. by intros c' [= <-]. }
  clear Hquiet. unfold on_rejected. rewrite tests_agree, Hretry, Hc, Hm.
  cbn [negb].
  set (marked := {| url := url c; _retry := true |}).
  set (client := fun k => axiosClient in_browser marked (transport marked k)).
  change (retryRequest _ 0 3)
    with (retryRequest (fun k => (client k).2) 0 3).
  pose proof (retryRequest_shape (fun k => (client k).2) 3 0%nat)
    as (n & Hn & Hcalls & Hwaits & Hout & Hbefore & _).
  pose proof (retryRequest_events (fun k => (client k).2) 3 0%nat)
    as Hevents.
  destruct (retryRequest (fun k => (client k).2) 0 3) as [trace settled].
  cbn [fst snd] in *.
  change (ConsoleError error :: [PendingDelete c] ++ during client trace)
    with ([ConsoleError error; PendingDelete c] ++ during client trace).
  rewrite calls_app, waits_app.
  rewrite calls_during by (intros k; apply axiosClient_quiet).
  rewrite waits_during by (intros k; apply axiosClient_quiet).
  rewrite Hcalls, Hwaits. cbn [calls waits omap list_omap app].
  split_and!.
  - split; [|done]. intros _. split; [done|]. by exists c.
  - rewrite length_seq. lia.
  - destruct n as [|[|[|[|n]]]]; [| | | |lia]; cbn.
    + apply prefix_nil.
    + by exists [2000; 3000].
    + by exists [3000].
    + done.
  - intros Hun. destruct Hun. split; [done|]. by exists c.
  - unfold clears_session. rewrite 2!elem_of_cons.
    fold (clears_session (during client trace)).
    rewrite clears_during, Hcalls by done. split.
    + intros [H|[H|(k & Hk & Hclears)]]; [done..|].
      apply axiosClient_clears in Hclears as (Hb & e & r & Hk2 & Hr & H401).
      split; [done|]. exists e, r. split_and!; [|done..].
      apply elem_of_seq in Hk. destruct (decide (k = n)) as [->|Hne].
      { rewrite Hout. exact Hk2. }
      assert (k < n)%nat as Hlt by lia.
      specialize (Hbefore k Hlt). cbn [Nat.add] in Hbefore.
      unfold client in Hbefore. rewrite Hk2 in Hbefore.
      exfalso. by apply (retryable_not_401 e r).
    + intros (Hb & e & r & -> & Hr & H401). do 2 right. exists n. split.
      { apply elem_of_seq. lia. }
      apply axiosClient_clears. split; [done|]. exists e, r.
      split_and!; [|done..]. symmetry. exact Hout.
Qed.

(** A retry that is answered 401: the request failed with a 500, the
    handler retries it, the client is told 401, and the handlers of the
    response clear the session on that answer. *)
Example retry_answered_401 :
  let error :=
    {| message := "Request failed with status code 500";
       response := Some {| status := 500; statusText := "" |};
       config := Some {| url := "/api/v1/boundary/install";
                         _retry := false |} |} in
  let transport := fun (_ : AxiosRequestConfig) (_ : nat) =>
    Fails "Request failed with status code 401"
          (Some {| status := 401; statusText := "" |}) in
  let '(trace, settled) := on_rejected transport true error in
  calls trace = [0%nat] ∧
  RemoveItem "auth_token" ∈ trace ∧
  ∃ e, settled = Rejected e ∧ (status <$> response e) = Some 401.
Proof.
  cbn. split_and!; [done| |by eexists].
  rewrite !elem_of_cons. tauto.
Qed.

End RetryFacts.


(** ** The validation of the login and registration form *)

Module AuthFormFacts.
Import AuthForm.

Lemma plus_plain_spec (k : JsString -> bool) (s : JsString) :
  plus_plain k s = true ↔
  ∃ a rest, s = a ++ rest ∧ part a ∧ k rest = true.
Proof.
  induction s as [|c s IH]; cbn [plus_plain].
  - split; [done|]. intros (a & rest & Hs & [Ha _] & _).
    symmetry in Hs. by apply app_eq_nil in Hs as [-> _].
  - rewrite andb_true_iff, orb_true_iff, IH. split.
    + intros [Hc [(a & rest & -> & [Ha Hall] & Hk)|Hk]].
      * exists (c :: a), rest. split; [done|]. split; [|done].
        split; [done|]. by constructor.
      * exists [c], s. split; [done|]. split; [|done].
        split; [done|]. by apply Forall_singleton.
    + intros (a & rest & Hs & [Ha Hall] & Hk).
      destruct a as [|c' a]; [done|]. injection Hs as <- ->.
      apply Forall_cons in Hall as [Hc Hall]. split; [done|].
      destruct a as [|c'' a]; [by right|]. left.
      exists (c'' :: a), rest. split; [done|]. by split.
Qed.

(** X8. The address test accepts exactly the strings made of three
    non-empty parts without white space or at-sign, with an at-sign after
    the first part and a dot after the second. *)
Theorem email_test_accepts (s : JsString) :
  email_test s = true ↔
  ∃ a b c, s = a ++ AT :: b ++ DOT :: c ∧ part a ∧ part b ∧ part c.
Proof.
  unfold email_test. rewrite plus_plain_spec. split.
  - intros (a & s1 & -> & Ha & Hk). destruct s1 as [|c1 s2]; [done|].
    apply andb_true_iff in Hk as [->%N.eqb_eq Hk].
    apply plus_plain_spec in Hk as (b & s3 & -> & Hb & Hk).
    destruct s3 as [|c3 s4]; [done|].
    apply andb_true_iff in Hk as [->%N.eqb_eq Hk].
    apply plus_plain_spec in Hk as (c & s5 & -> & Hc & Hk).
    apply bool_decide_eq_true in Hk as ->. rewrite app_nil_r.
    by exists a, b, c.
  - intros (a & b & c & -> & Ha & Hb & Hc).
    exists a, (AT :: b ++ DOT :: c). split_and!; try done.
    rewrite N.eqb_refl. cbn [andb]. apply plus_plain_spec.
    exists b, (DOT :: c). split_and!; try done.
    rewrite N.eqb_refl. cbn [andb]. apply plus_plain_spec.
    exists c, []. by rewrite app_nil_r.
Qed.


Lemma is_empty_nil : is_empty [] = true.
Proof. done. Qed.

Lemma is_empty_cons (c : N) (s : JsString) : is_empty (c :: s) = false.
Proof. by apply bool_decide_eq_false_2. Qed.

Lemma keys_empty (errors : Errors) :
  (List.length (keys errors) =? 0)%nat = true ↔ ∀ field, errors field = None.
Proof.
  unfold keys, fields. rewrite !filter_cons, filter_nil. split.
  - intros H field.
    destruct (errors f_email) eqn:H1, (errors f_password) eqn:H2,
      (errors f_fullName) eqn:H3, (errors f_confirmPassword) eqn:H4;
      try discriminate H.
    by destruct field.
  - intros H. by rewrite !H.
Qed.

Lemma lookup_if (b : bool) (e1 e2 : Errors) (field : Field) :
  (if b then e1 else e2) field = if b then e1 field else e2 field.
Proof. by destruct b. Qed.

Lemma if_same {A} (b : bool) (a : A) : (if b then a else a) = a.
Proof. by destruct b. Qed.

Ltac lookup_field :=
  repeat (progress (rewrite ?lookup_if; cbn [set_error no_errors]));
  rewrite ?if_same.

(** Field by field, what [validateForm] leaves without a message. *)
Lemma validateForm_errors (type : FormType) (st : State) :
  let d := formData st in
  let errors := validationErrors (validateForm type st).1 in
  (errors f_email = None ↔ email_test (email d) = true) ∧
  (errors f_password = None ↔ (6 <= List.length (password d))%nat) ∧
  (errors f_fullName = None ↔
     (type = register -> (2 <= List.length (fullName d))%nat)) ∧
  (errors f_confirmPassword = None ↔
     (type = register ->
        confirmPassword d ≠ [] ∧ confirmPassword d = password d)) ∧
  ((validateForm type st).2 = true ↔ ∀ field, errors field = None) ∧
  formData (validateForm type st).1 = d.
Proof.
  cbn zeta. unfold validateForm. cbn [fst snd validationErrors formData].
  set (d := formData st).
  split_and!; [| | | |apply keys_empty|done].
  - destruct type; lookup_field.
    all: destruct (email d) as [|c s];
      [rewrite is_empty_nil; by change (email_test []) with false
      |rewrite is_empty_cons].
    all: by destruct (email_test (c :: s)).
  - destruct type; lookup_field.
    all: destruct (password d) as [|c s];
      [rewrite is_empty_nil; cbn; split; [done|lia]|].
    all: rewrite is_empty_cons.
    all: destruct (Nat.ltb_spec (List.length (c :: s)) 6);
      split; try done; lia.
  - destruct type; lookup_field.
    { by split. }
    destruct (fullName d) as [|c s].
    { rewrite is_empty_nil. cbn. split; [done|].
      intros H. specialize (H eq_refl). lia. }
    rewrite is_empty_cons.
    destruct (Nat.ltb_spec (List.length (c :: s)) 2); split; try done.
    intros H'. specialize (H' eq_refl). lia.
  - destruct type; lookup_field.
    { by split. }
    destruct (confirmPassword d) as [|c s].
    { rewrite is_empty_nil. split; [done|]. intros H.
      by destruct (H eq_refl). }
    rewrite is_empty_cons.
    destruct (decide (c :: s = password d)) as [Heq|Hne].
    + rewrite bool_decide_eq_true_2 by done. by split.
    + rewrite bool_decide_eq_false_2 by done. split; [done|].
      intros H. by destruct (H eq_refl).
Qed.

(** X9. The form submits validated data only. [handleSubmit] calls
    [onSubmit] exactly when the address passes the test, the password has
    at least six code units and, for a registration, the name has at least
    two and the confirmation equals the password. It then passes the
    address and the password as typed, the name and the confirmation for a
    registration only, and leaves no message behind; otherwise it calls
    nothing and leaves a message on some field. The typed data are never
    changed. *)
Theorem handleSubmit_submits_valid_data (type : FormType) (st : State) :
  let d := formData st in
  let acceptable :=
    email_test (email d) = true ∧
    (6 <= List.length (password d))%nat ∧
    (type = register ->
       (2 <= List.length (fullName d))%nat ∧
       confirmPassword d = password d) in
  let after := (handleSubmit type st).1 in
  formData after = d ∧
  (acceptable ->
     (handleSubmit type st).2 =
       Some {| sub_email := email d;
               sub_password := password d;
               sub_fullName :=
                 match type with
                 | register => Some (fullName d)
                 | login => None
                 end;
               sub_confirmPassword :=
                 match type with
                 | register => Some (confirmPassword d)
                 | login => None
                 end |} ∧
     ∀ field, validationErrors after field = None) ∧
  (¬ acceptable ->
     (handleSubmit type st).2 = None ∧
     ∃ field, is_Some (validationErrors after field)).
Proof.
  cbn zeta. unfold handleSubmit.
  destruct (validateForm_errors type st)
    as (Hemail & Hpassword & Hname & Hconfirm & Hvalid & Hdata).
  destruct (validateForm type st) as [st' valid]. cbn [fst snd] in *.
  assert (valid = true ↔
          email_test (email (formData st)) = true ∧
          (6 <= List.length (password (formData st)))%nat ∧
          (type = register ->
             (2 <= List.length (fullName (formData st)))%nat ∧
             confirmPassword (formData st) = password (formData st)))
    as Hverdict.
  { rewrite Hvalid. split.
    - intros Hnone. split_and!.
      + by apply Hemail.
      + by apply Hpassword.
      + intros Hreg. split; [by apply Hname|].
        by apply Hconfirm.
    - intros (He & Hp & Hreg) field. destruct field.
      + by apply Hemail.
      + by apply Hpassword.
      + apply Hname. intros Ht. by apply Hreg.
      + apply Hconfirm. intros Ht. destruct (Hreg Ht) as [_ Heq].
        split; [|done]. rewrite Heq. intros Hnil. rewrite Hnil in Hp.
        cbn in Hp. lia. }
  destruct valid; cbn [fst snd].
  - split_and!; [done| |].
    + intros _. split; [done|]. by apply Hvalid.
    + intros Hnot. destruct Hnot. by apply Hverdict.
  - split_and!; [done| |].
    + intros Hacc. by apply Hverdict in Hacc.
    + intros _. split; [done|].
      destruct (validationErrors st' f_email) eqn:H1; [by exists f_email|].
      destruct (validationErrors st' f_password) eqn:H2;
        [by exists f_password|].
      destruct (validationErrors st' f_fullName) eqn:H3;
        [by exists f_fullName|].
      destruct (validationErrors st' f_confirmPassword) eqn:H4;
        [by exists f_confirmPassword|].
      assert (false = true) as Habs; [|done].
      apply Hvalid. by intros [].
Qed.

End AuthFormFacts.


(** ** More on edge creation: what the request carries, what the edge list
    keeps *)

Module EdgeSyncMoreFacts.
Import Js EdgeSync.
Import NodeFactory(Entropy, now, fresh_id).

(** X10. Nodes are connected by their time of creation. For two nodes
    whose ids the node constructors made (a kind, the reading of
    [Date.now()] and a random tail), the request [handleEdgeCreate]
    prepares carries the two readings as [source_id] and [target_id]: it
    is sent whenever both readings are positive, and it depends on nothing
    else of the nodes. *)
Theorem connection_sends_creation_times
    (kind1 kind2 : string) (e1 e2 : Entropy) :
  kind1 ∈ node_kinds -> kind2 ∈ node_kinds ->
  0 < now e1 <= MAX_SAFE_INTEGER -> 0 < now e2 <= MAX_SAFE_INTEGER ->
  handleEdgeCreate_request
    {| source := Some (fresh_id kind1 e1);
       target := Some (fresh_id kind2 e2) |}
  = inl {| source_id := now e1; target_id := now e2;
           edge_kind := "continue" |}.
Proof.
  intros Hk1 Hk2 H1 H2. unfold handleEdgeCreate_request. cbn [source target].
  rewrite !RoundTripFacts.extractNodeId_fresh_id by (done || lia).
  replace (now e1 =? 0) with false by (symmetry; apply Z.eqb_neq; lia).
  replace (now e2 =? 0) with false by (symmetry; apply Z.eqb_neq; lia).
  done.
Qed.

Lemma connection_sends_creation_times_witness :
  handleEdgeCreate_request
    {| source := Some (fresh_id "product" Scenario.entropy);
       target := Some (fresh_id "process" Scenario.entropy) |}
  = inl {| source_id := now Scenario.entropy;
           target_id := now Scenario.entropy;
           edge_kind := "continue" |}.
Proof.
  apply (connection_sends_creation_times "product" "process"
           Scenario.entropy Scenario.entropy).
  - apply elem_of_cons. by left.
  - apply elem_of_cons. right. apply elem_of_cons. by left.
  - vm_compute. split; [done|discriminate].
  - vm_compute. split; [done|discriminate].
Defined.

Lemma keyed_id_inj (e1 e2 : Edge) :
  keyed e1 -> keyed e2 -> id e1 = id e2 ->
  be_id (edgeData e1) = be_id (edgeData e2).
Proof.
  unfold keyed. intros -> -> Heq.
  apply (inj (String.app "e-")) in Heq. by apply (inj pretty) in Heq.
Qed.

(** X11. What every run of [handleEdgeCreate] keeps. If every edge on the
    canvas carries the id the handler gives ("e-" and the backend id), the
    ids are pairwise distinct and the backend never answers 201 with an id
    that is on the canvas already, then the same holds afterwards; and if
    [prevEdgesRef] mirrored the edges before, it mirrors them afterwards. *)
Theorem handleEdgeCreate_keeps_ids_distinct
    (post : EdgeCreateRequest -> PostOutcome) (params : Connection)
    (cb : bool) (st : EdgeState) :
  Forall keyed (edges st) ->
  NoDup (id <$> edges st) ->
  (∀ body newEdge e, post body = Resolved 201 newEdge -> e ∈ edges st ->
     be_id (edgeData e) ≠ be_id newEdge) ->
  let st' := (handleEdgeCreate post params cb st).1 in
  Forall keyed (edges st') ∧
  NoDup (id <$> edges st') ∧
  (prevEdgesRef st = edges st -> prevEdgesRef st' = edges st').
Proof.
  intros Hkeyed Hnodup Hfresh. cbn zeta. unfold handleEdgeCreate.
  destruct (handleEdgeCreate_request params) as [body|effs]; [|done].
  unfold handleEdgeCreate_response.
  destruct (post body) as [status newEdge|error] eqn:Hpost; [|done].
  destruct (Z.eqb_spec status 201) as [->|Hne]; [|done].
  cbn [fst edges prevEdgesRef]. split_and!; [| |done].
  - apply Forall_app. split; [done|]. by apply Forall_singleton.
  - rewrite fmap_app. apply NoDup_app. split_and!; [done| |].
    + intros i Hi Hin. cbn in Hin. apply list_elem_of_singleton in Hin.
      apply list_elem_of_fmap in Hi as (e & Hid & He).
      apply (Hfresh body newEdge e Hpost He).
      rewrite Forall_forall in Hkeyed.
      set (added := {| id := "e-" +:+ pretty (be_id newEdge);
                       edge_source := default "" (source params);
                       edge_target := default "" (target params);
                       type := "custom"; edgeData := newEdge |}).
      apply (keyed_id_inj e added); [by apply Hkeyed|done|].
      by rewrite <-Hid, Hin.
    + apply NoDup_singleton.
Qed.

Lemma handleEdgeCreate_keeps_ids_distinct_witness :
  let post := fun _ : EdgeCreateRequest =>
    Resolved 201 {| be_id := 7; be_source_id := 1; be_target_id := 2;
                    be_edge_kind := "continue" |} in
  let e3 :=
    {| id := "e-3"; edge_source := "product-1-a";
       edge_target := "process-2-b"; type := "custom";
       edgeData := {| be_id := 3; be_source_id := 1; be_target_id := 2;
                      be_edge_kind := "continue" |} |} in
  let st := {| edges := [e3]; prevEdgesRef := [e3] |} in
  let st' :=
    (handleEdgeCreate post
       {| source := Some "product-1-a"; target := Some "process-2-b" |}
       false st).1 in
  Forall keyed (edges st') ∧
  NoDup (id <$> edges st') ∧
  (prevEdgesRef st = edges st -> prevEdgesRef st' = edges st').
Proof.
  intros post e3 st.
  apply (handleEdgeCreate_keeps_ids_distinct post
           {| source := Some "product-1-a"; target := Some "process-2-b" |}
           false st).
  - apply Forall_singleton. reflexivity.
  - apply NoDup_singleton.
  - intros body newEdge e [= <-] He.
    apply list_elem_of_singleton in He as ->. cbn. lia.
Defined.

End EdgeSyncMoreFacts.


(** ** More on the per-installation store: what a step leaves alone, which
    installations have a card, what is lost without a selection *)

Module GraphStoreMoreFacts.
Import GraphStore GraphStoreFacts.

Section Store.
Context {Node Edge : Type}.
Implicit Types (s : State Node Edge) (evs : list (Event Node Edge)) (X : Z).

Lemma step_state ev s : (step ev s).1 = commit_effect (handle ev s).
Proof. done. Qed.

Lemma handle_canvases ev s X :
  activeInstallId s ≠ Some X ->
  installCanvases (handle ev s) !! X = installCanvases s !! X.
Proof.
  intros Hs. destruct ev; cbn; [|done|done].
  by apply save_active_other.
Qed.

(** X12. A step writes the snapshot of no installation but the one that is
    left and the one that is entered: the snapshot stored for an
    installation that is active neither before nor after the step is the
    same after it as before. *)
Theorem snapshots_change_only_where_active
    (ev : Event Node Edge) (s : State Node Edge) (X : Z) :
  activeInstallId s ≠ Some X ->
  activeInstallId (step ev s).1 ≠ Some X ->
  installCanvases (step ev s).1 !! X = installCanvases s !! X.
Proof.
  intros Hbefore Hafter. rewrite step_state in *.
  cbn [commit_effect installCanvases activeInstallId] in *.
  rewrite save_active_other by done. by apply handle_canvases.
Qed.

(** The active installation has been selected, and every entry of the map
    belongs to an installation that has been selected and whose id is not
    0. *)
Lemma run_entries_visited evs :
  (∀ a, activeInstallId (run evs).1 = Some a -> visited a evs = true) ∧
  (∀ X, is_Some (installCanvases (run evs).1 !! X) ->
        X ≠ 0 ∧ visited X evs = true).
Proof.
  induction evs as [|ev evs [IHa IHm]] using rev_ind.
  - split; [done|]. intros X [c Hc].
    change (installCanvases (run []).1) with (∅ : gmap Z (Canvas Node Edge)) in Hc.
    by rewrite lookup_empty in Hc.
  - rewrite run_snoc. cbn [fst].
    assert (∀ Y, visited Y (evs ++ [ev])
                 = visited Y evs
                   || match ev with
                      | InstallSelect install => install_id install =? Y
                      | _ => false
                      end) as Hvisited.
    { intros Y. unfold visited. rewrite existsb_app. cbn [existsb].
      by rewrite orb_false_r. }
    set (s := (run evs).1) in *.
    assert (∀ a, activeInstallId (step ev s).1 = Some a ->
                 visited a (evs ++ [ev]) = true) as Hactive.
    { intros a Ha. rewrite Hvisited. destruct ev; cbn in Ha.
      - injection Ha as <-. by rewrite Z.eqb_refl, orb_true_r.
      - by rewrite (IHa a Ha).
      - by rewrite (IHa a Ha). }
    split; [done|]. intros X HX.
    destruct (decide (activeInstallId (step ev s).1 = Some X)) as [Ha|Ha].
    { split; [|by apply Hactive].
      intros ->. rewrite step_state in HX, Ha.
      cbn [commit_effect installCanvases activeInstallId] in HX, Ha.
      unfold save_active in HX. rewrite Ha in HX. cbn in HX.
      destruct ev; cbn in HX, Ha.
      - unfold save_active in HX.
        destruct (activeInstallId s) as [a|] eqn:Hs.
        + destruct (Js.truthy (Some a)) eqn:Ht.
          * destruct (decide (a = 0)) as [->|Hne]; [done|].
            rewrite lookup_insert_ne in HX by done.
            by destruct (IHm 0 HX).
          * by destruct (IHm 0 HX).
        + by destruct (IHm 0 HX).
      - by destruct (IHm 0 HX).
      - by destruct (IHm 0 HX). }
    destruct (decide (activeInstallId s = Some X)) as [Hs|Hs].
    { rewrite Hvisited, (IHa X Hs). split; [|done].
      intros ->. rewrite step_state in HX.
      cbn [commit_effect installCanvases] in HX.
      rewrite step_state in Ha. cbn [commit_effect activeInstallId] in Ha.
      rewrite save_active_other in HX by done.
      destruct ev; cbn in HX.
      - unfold save_active in HX. rewrite Hs in HX. cbn in HX.
        by destruct (IHm 0 HX).
      - by destruct (IHm 0 HX).
      - by destruct (IHm 0 HX). }
    rewrite step_state in HX, Ha.
    cbn [commit_effect installCanvases activeInstallId] in HX, Ha.
    rewrite save_active_other, handle_canvases in HX by done.
    destruct (IHm X HX) as [Hne Hv]. by rewrite Hvisited, Hv.
Qed.

(** X13. The installation cards are the installations visited: after any
    session, the snapshot map has an entry for an installation exactly when
    its id is not 0 and it has been selected at some point. *)
Theorem cards_are_the_visited_installations
    (evs : list (Event Node Edge)) (X : Z) :
  has_card (run evs).1 X ↔ X ≠ 0 ∧ visited X evs = true.
Proof.
  split.
  - apply run_entries_visited.
  - intros [Hne Hv]. by apply visited_has_entry.
Qed.

(** X14. A card shows what its click restores: the node count on the card
    of an installation is the number of nodes on the canvas right after
    that installation is selected; and after any session the card of the
    active installation (of id other than 0) shows the number of nodes on
    the canvas. *)
Theorem card_count_is_what_a_click_restores
    (s : State Node Edge) (install : Install)
    (evs : list (Event Node Edge)) :
  nodeCount s (install_id install)
    = List.length (nodes (step (InstallSelect install) s).1) ∧
  (∀ a, activeInstallId (run evs).1 = Some a -> a ≠ 0 ->
        nodeCount (run evs).1 a = List.length (nodes (run evs).1)).
Proof.
  split.
  - unfold nodeCount. rewrite step_state. cbn.
    by destruct (installCanvases s !! install_id install).
  - intros a Ha Hne. destruct (run_in_sync evs) as [_ Hlive].
    unfold nodeCount. by rewrite (Hlive a Ha Hne).
Qed.

Lemma selection_free_run evs :
  selection_free evs = true ->
  activeInstallId (run evs).1 = None ∧ installCanvases (run evs).1 = ∅ ∧
  (run evs).2 = [].
Proof.
  induction evs as [|ev evs IH] using rev_ind; [done|].
  unfold selection_free. rewrite forallb_app, andb_true_iff.
  intros [Hfree Hev]. destruct (IH Hfree) as (Ha & Hm & Hlog).
  rewrite run_snoc. cbn [fst snd]. rewrite Hlog.
  destruct ev; [done| |]; unfold step; cbn; unfold save_active, saved; cbn;
    by rewrite Ha, Hm.
Qed.

(** X15. What is drawn before an installation is selected is kept nowhere:
    after a session without a selection the snapshot map is empty and
    nothing was committed, whatever is on the canvas; the first selection
    then shows an empty canvas, and the only snapshot the map holds after
    it is that empty canvas. *)
Theorem unselected_work_is_dropped
    (evs : list (Event Node Edge)) (install : Install) :
  selection_free evs = true ->
  let s := (run evs).1 in
  let s' := (step (InstallSelect install) s).1 in
  installCanvases s = ∅ ∧ (run evs).2 = [] ∧
  live s' = empty_canvas ∧
  ∀ X c, installCanvases s' !! X = Some c -> c = empty_canvas.
Proof.
  intros Hfree. cbn zeta.
  destruct (selection_free_run evs Hfree) as (Ha & Hm & Hlog).
  set (s := (run evs).1) in *.
  split_and!; [done|done| |].
  - rewrite step_state. unfold live, handle, handleInstallSelect.
    cbn [commit_effect nodes edges]. by rewrite Hm, lookup_empty.
  - intros X c. rewrite step_state.
    unfold handle, handleInstallSelect, commit_effect, save_active.
    cbn [installCanvases activeInstallId nodes edges live].
    rewrite Ha, Hm, lookup_empty.
    destruct (Js.truthy (Some (install_id install))).
    + intros [[_ <-]|[_ Hc]]%lookup_insert_Some; [done|].
      by rewrite lookup_empty in Hc.
    + by rewrite lookup_empty.
Qed.

End Store.

Lemma snapshots_change_only_where_active_witness :
  installCanvases
    (step (NodesChange []) (run Scenario.visit_A).1).1 !! 2
  = installCanvases (run Scenario.visit_A).1 !! 2.
Proof.
  apply (snapshots_change_only_where_active
           (NodesChange []) (run Scenario.visit_A).1 2).
  - vm_compute. discriminate.
  - vm_compute. discriminate.
Defined.

Lemma unselected_work_is_dropped_witness :
  let evs : list (Event NodeFactory.Node EdgeSync.Edge) :=
    [NodesChange [Scenario.steel_node]] in
  let s := (run evs).1 in
  let s' := (step (InstallSelect Scenario.installation_A) s).1 in
  installCanvases s = ∅ ∧ (run evs).2 = [] ∧
  live s' = empty_canvas ∧
  ∀ X c, installCanvases s' !! X = Some c -> c = empty_canvas.
Proof.
  apply (unselected_work_is_dropped
           [NodesChange [Scenario.steel_node]] Scenario.installation_A).
  reflexivity.
Defined.

End GraphStoreMoreFacts.


(** ** The lists fetched for the selected installation *)

Module CatalogFacts.
Import NodeFactory Catalog.

Lemma elem_of_filter {A} (f : A -> bool) (l : list A) (a : A) :
  a ∈ List.filter f l ↔ a ∈ l ∧ f a = true.
Proof. rewrite !list_elem_of_In. apply filter_In. Qed.

Lemma existsb_elem_of {A} (f : A -> bool) (l : list A) :
  existsb f l = true ↔ ∃ a, a ∈ l ∧ f a = true.
Proof.
  rewrite existsb_exists.
  split; intros (a & Ha & Hf); exists a; by apply list_elem_of_In in Ha.
Qed.

Lemma linked_to_spec productIds process :
  linked_to productIds process = true ↔
  ∃ ps p, products process = Some ps ∧ p ∈ ps ∧ product_id p ∈ productIds.
Proof.
  unfold linked_to. destruct (products process) as [ps|].
  - rewrite existsb_elem_of. split.
    + intros (p & Hp & (i & Hi & <-%Z.eqb_eq)%existsb_elem_of).
      by exists ps, p.
    + intros (? & p & [= <-] & Hp & Hi). exists p. split; [done|].
      apply existsb_elem_of. exists (product_id p). by rewrite Z.eqb_refl.
  - split; [done|]. by intros (? & ? & ? & _).
Qed.

Lemma uses_product_spec process product :
  uses_product process product = true ↔
  ∃ ps p, products process = Some ps ∧ p ∈ ps
          ∧ product_id p = product_id product.
Proof.
  unfold uses_product. destruct (products process) as [ps|].
  - rewrite existsb_elem_of. split.
    + intros (p & Hp & Heq%Z.eqb_eq). by exists ps, p.
    + intros (? & p & [= <-] & Hp & Heq). exists p. by rewrite Z.eqb_eq.
  - split; [done|]. by intros (? & ? & ? & _).
Qed.

(** X16. The processes listed for an installation are the fetched
    processes that have a related product on its canvas: with the products
    that [fetchProductsByInstall] stored for the installation,
    [fetchProcessesByInstall] keeps a fetched process exactly when
    [handleProcessSelect] would find a related product for it; and every
    related product it finds belongs to the installation. *)
Theorem listed_processes_have_related_products
    (installId : Z) (fetchedProducts : Fetched Product)
    (data : list Process) (process : Process) :
  let products := fetchProductsByInstall installId fetchedProducts in
  (process ∈ fetchProcessesByInstall installId products (Rows data) ↔
     process ∈ data ∧ relatedProducts process products ≠ []) ∧
  Forall (fun product => install_id product = installId)
    (relatedProducts process products).
Proof.
  cbn zeta. set (products := fetchProductsByInstall installId fetchedProducts).
  assert (∀ product, product ∈ products -> install_id product = installId)
    as Hsite.
  { subst products. unfold fetchProductsByInstall.
    destruct fetchedProducts as [rows|]; [|by intros ? ?%elem_of_nil].
    intros product [_ Heq%Z.eqb_eq]%elem_of_filter. done. }
  split.
  - unfold fetchProcessesByInstall. rewrite elem_of_filter, linked_to_spec.
    apply and_iff_compat_l. split.
    + intros (ps & p & Hps & Hp & Hid).
      apply list_elem_of_fmap in Hid as (product & Hid & Hproduct).
      apply elem_of_filter in Hproduct as [Hproduct _].
      assert (product ∈ relatedProducts process products) as Hin.
      { apply elem_of_filter. split; [done|].
        apply uses_product_spec. by exists ps, p. }
      intros Hnil. rewrite Hnil in Hin. by apply elem_of_nil in Hin.
    + intros Hne.
      destruct (relatedProducts process products) as [|product rest] eqn:Hr;
        [done|].
      assert (product ∈ relatedProducts process products) as Hin.
      { rewrite Hr. apply elem_of_cons. by left. }
      apply elem_of_filter in Hin as [Hproduct Huses].
      apply uses_product_spec in Huses as (ps & p & Hps & Hp & Hid).
      exists ps, p. split_and!; [done|done|]. rewrite Hid.
      apply list_elem_of_fmap_2, elem_of_filter. split; [done|].
      apply Z.eqb_eq. by apply Hsite.
  - apply Forall_forall. intros product [Hin _]%elem_of_filter.
    by apply Hsite.
Qed.

(** X17. The three process lists of the component are one list: for the
    selected installation and the same fetched rows, [processes],
    [allProcesses] and [crossInstallProcesses] receive the same processes.
    A process is on that list exactly when [fetchProcessesByProduct] lists
    it for some product at hand of the installation. *)
Theorem process_lists_agree
    (install : GraphStore.Install) (products : list Product)
    (response : Fetched Process) (data : list Process) (process : Process) :
  let installId := GraphStore.install_id install in
  fetchAllProcessesByInstall installId products response
    = fetchProcessesByInstall installId products response ∧
  fetchAllCrossInstallProcesses (Some install) products response
    = fetchProcessesByInstall installId products response ∧
  (process ∈ fetchProcessesByInstall installId products (Rows data) ↔
     ∃ product, product ∈ products ∧ install_id product = installId ∧
       process ∈ fetchProcessesByProduct (product_id product) (Rows data)).
Proof.
  cbn zeta. split_and!; [done| |].
  - unfold fetchAllCrossInstallProcesses, fetchProcessesByInstall.
    destruct response as [rows|]; [|done]. cbn zeta. do 3 f_equal.
    apply filter_ext. intros product. cbn.
    destruct (Z.eqb_spec (install_id product) (GraphStore.install_id install))
      as [Heq|Hne].
    + apply bool_decide_eq_true. by rewrite Heq.
    + apply bool_decide_eq_false. by intros [= ?].
  - unfold fetchProcessesByInstall, fetchProcessesByProduct.
    rewrite elem_of_filter, linked_to_spec. split.
    + intros (Hdata & ps & p & Hps & Hp & Hid).
      apply list_elem_of_fmap in Hid as (product & Hid & Hproduct).
      apply elem_of_filter in Hproduct as [Hproduct Hsite%Z.eqb_eq].
      exists product. split_and!; [done|done|].
      apply elem_of_filter. split; [done|]. rewrite Hps.
      apply existsb_elem_of. exists p. by rewrite Z.eqb_eq.
    + intros (product & Hproduct & Hsite & [Hdata Hsome]%elem_of_filter).
      split; [done|]. destruct (NodeFactory.products process) as [ps|];
        [|done].
      apply existsb_elem_of in Hsome as (p & Hp & Hid%Z.eqb_eq).
      exists ps, p. split_and!; [done|done|]. rewrite Hid.
      apply list_elem_of_fmap_2, elem_of_filter. split; [done|].
      by apply Z.eqb_eq.
Qed.

End CatalogFacts.


(** ** More on groups: resizing again, resizing after a drag, membership *)

Module GroupsMoreFacts.
Import NodeFactory(XYPosition, x, y, Build_XYPosition) Groups GroupsFacts.
Local Open Scope Q_scope.

Lemma updateGroupSize_measured groupId prevNodes :
  updateGroupSize groupId prevNodes =
  match measured groupId prevNodes with
  | Some (first, rest) => redrawn groupId first rest <$> prevNodes
  | None => prevNodes
  end.
Proof.
  unfold updateGroupSize, measured.
  destruct (List.find _ prevNodes) as [g|]; [|done].
  destruct (negb _); [done|].
  destruct (data_nodes g) as [members|]; [|done].
  by destruct (groupNodes members prevNodes).
Qed.

Lemma find_elem_of (keep : Node -> bool) l g :
  List.find keep l = Some g -> g ∈ l ∧ keep g = true.
Proof.
  intros [Hin Hkeep]%find_some. by apply list_elem_of_In in Hin.
Qed.

Lemma unique_by_id l g n :
  NoDup (id <$> l) -> g ∈ l -> n ∈ l -> id n = id g -> n = g.
Proof.
  intros Hnd Hg Hn Hid.
  pose proof (find_by_id l n Hnd Hn) as Hfn.
  rewrite Hid, (find_by_id l g Hnd Hg) in Hfn. congruence.
Qed.

Lemma measured_group groupId l first rest :
  measured groupId l = Some (first, rest) ->
  ∃ g members, List.find (fun node => String.eqb (id node) groupId) l = Some g
    ∧ g ∈ l ∧ id g = groupId ∧ type g = "group"
    ∧ data_nodes g = Some members ∧ groupNodes members l = first :: rest.
Proof.
  unfold measured.
  destruct (List.find _ l) as [g|] eqn:Hfind; [|done].
  destruct (String.eqb (type g) "group") eqn:Htype; [|done]. cbn [negb].
  destruct (data_nodes g) as [members|] eqn:Hdata; [|done].
  destruct (groupNodes members l) as [|f r] eqn:Hm; [done|].
  intros [= <- <-]. exists g, members.
  apply find_elem_of in Hfind as Hg. destruct Hg as [Hg Hid].
  apply String.eqb_eq in Hid, Htype. done.
Qed.

Lemma redrawn_kept groupId first rest node :
  kept (redrawn groupId first rest node) = kept node.
Proof. unfold redrawn. by destruct (String.eqb (id node) groupId). Qed.




(** Resizing a group moves no node that is measured. *)
Lemma updateGroupSize_groupNodes groupId members l :
  NoDup (id <$> l) ->
  groupNodes members (updateGroupSize groupId l) = groupNodes members l.
Proof.
  intros Hnd. rewrite updateGroupSize_measured.
  destruct (measured groupId l) as [[first rest]|] eqn:Hm; [|done].
  apply measured_group in Hm as (g & listed & _ & Hg & Hid & Htype & _).
  unfold groupNodes. apply filter_fmap_stable.
  - intros n Hn Hkeep. unfold redrawn.
    destruct (String.eqb (id n) groupId) eqn:Heq; [|done].
    apply String.eqb_eq in Heq.
    rewrite (unique_by_id l g n Hnd Hg Hn) in Hkeep by congruence.
    rewrite Htype in Hkeep. cbn in Hkeep. by rewrite andb_false_r in Hkeep.
  - intros n Hn. unfold redrawn. by destruct (String.eqb (id n) groupId).
Qed.

Lemma find_fmap_by_id (f : Node -> Node) i l :
  (∀ n, id (f n) = id n) ->
  List.find (fun node => String.eqb (id node) i) (f <$> l)
  = f <$> List.find (fun node => String.eqb (id node) i) l.
Proof.
  intros Hf. induction l as [|n l IH]; [done|].
  cbn [fmap list_fmap List.find]. rewrite Hf.
  by destruct (String.eqb (id n) i).
Qed.

Lemma redrawn_id groupId first rest node :
  id (redrawn groupId first rest node) = id node.
Proof. unfold redrawn. by destruct (String.eqb (id node) groupId). Qed.

(** A group is found again after another group is resized. *)
Lemma updateGroupSize_find_other groupId i l :
  i ≠ groupId ->
  List.find (fun node => String.eqb (id node) i) (updateGroupSize groupId l)
  = List.find (fun node => String.eqb (id node) i) l.
Proof.
  intros Hne. rewrite updateGroupSize_measured.
  destruct (measured groupId l) as [[first rest]|]; [|done].
  rewrite find_fmap_by_id by (intros; apply redrawn_id).
  destruct (List.find _ l) as [g|] eqn:Hfind; [|done].
  apply find_elem_of in Hfind as [_ Hid%String.eqb_eq].
  cbn [fmap option_fmap option_map]. unfold redrawn.
  replace (String.eqb (id g) groupId) with false; [done|].
  symmetry. apply String.eqb_neq. congruence.
Qed.

(** What is measured for a group after another group is resized. *)
Lemma measured_other groupId i l :
  NoDup (id <$> l) -> i ≠ groupId ->
  measured i (updateGroupSize groupId l) = measured i l.
Proof.
  intros Hnd Hne. unfold measured.
  rewrite updateGroupSize_find_other by done.
  destruct (List.find _ l) as [g|]; [|done].
  destruct (negb _); [done|].
  destruct (data_nodes g) as [members|]; [|done].
  by rewrite updateGroupSize_groupNodes.
Qed.

(** What is measured for a group after it is resized. *)
Lemma measured_same groupId l :
  NoDup (id <$> l) ->
  measured groupId (updateGroupSize groupId l) = measured groupId l.
Proof.
  intros Hnd. destruct (measured groupId l) as [[first rest]|] eqn:Hm.
  2:{ by rewrite updateGroupSize_measured, Hm. }
  pose proof Hm as (g & members & Hfind & Hg & Hid & Htype & Hdata & Hmem)
    %measured_group.
  pose proof (updateGroupSize_groupNodes groupId members l Hnd) as Hsame.
  unfold measured at 1.
  rewrite updateGroupSize_measured, Hm in *.
  rewrite find_fmap_by_id by (intros; apply redrawn_id).
  rewrite Hfind. cbn [fmap option_fmap option_map].
  pose proof (redrawn_kept groupId first rest g) as [= _ Ht Hd].
  rewrite Ht, Htype. cbn [negb String.eqb].
  unfold data_nodes in *. rewrite Hd, Hdata, Hsame, Hmem. done.
Qed.

Lemma redrawn_twice groupId first rest node :
  redrawn groupId first rest (redrawn groupId first rest node)
  = redrawn groupId first rest node.
Proof.
  unfold redrawn. destruct (String.eqb (id node) groupId) eqn:Heq.
  - cbn [id resized]. by rewrite Heq.
  - by rewrite Heq.
Qed.

Lemma redrawn_swap a b first rest first' rest' node :
  a ≠ b ->
  redrawn a first rest (redrawn b first' rest' node)
  = redrawn b first' rest' (redrawn a first rest node).
Proof.
  intros Hne. unfold redrawn.
  destruct (String.eqb (id node) a) eqn:Ha,
           (String.eqb (id node) b) eqn:Hb;
    cbn [id resized]; rewrite ?Ha, ?Hb; try done.
  apply String.eqb_eq in Ha, Hb. congruence.
Qed.

(** X18. Resizing groups is insensitive to repetition and to order: on a
    canvas whose node ids are pairwise distinct, [updateGroupSize] for a
    group changes nothing when it is run a second time, and the updates of
    two groups give the same canvas in either order. *)
Theorem updateGroupSize_repetition_and_order
    (prevNodes : list Node) (a b : string) :
  NoDup (id <$> prevNodes) ->
  updateGroupSize a (updateGroupSize a prevNodes)
    = updateGroupSize a prevNodes ∧
  updateGroupSize a (updateGroupSize b prevNodes)
    = updateGroupSize b (updateGroupSize a prevNodes).
Proof.
  intros Hnd.
  assert (updateGroupSize a (updateGroupSize a prevNodes)
          = updateGroupSize a prevNodes) as Hidem.
  { rewrite (updateGroupSize_measured a (updateGroupSize a prevNodes)).
    rewrite measured_same by done. rewrite updateGroupSize_measured.
    destruct (measured a prevNodes) as [[first rest]|]; [|done].
    rewrite <-list_fmap_compose. apply list_fmap_ext.
    intros _ node _. apply redrawn_twice. }
  split; [done|].
  destruct (decide (a = b)) as [<-|Hne]; [done|].
  rewrite (updateGroupSize_measured a (updateGroupSize b prevNodes)).
  rewrite (updateGroupSize_measured b (updateGroupSize a prevNodes)).
  rewrite !measured_other by done.
  rewrite !updateGroupSize_measured.
  destruct (measured a prevNodes) as [[first rest]|],
           (measured b prevNodes) as [[first' rest']|]; try done.
  rewrite <-!list_fmap_compose. apply list_fmap_ext.
  intros _ node _. by apply redrawn_swap.
Qed.

Lemma updateGroupSize_repetition_and_order_witness :
  updateGroupSize "group-1"
    (updateGroupSize "group-1" GroupScenario.with_groups)
    = updateGroupSize "group-1" GroupScenario.with_groups ∧
  updateGroupSize "group-1"
    (updateGroupSize "group-2" GroupScenario.with_groups)
    = updateGroupSize "group-2"
        (updateGroupSize "group-1" GroupScenario.with_groups).
Proof.
  apply (updateGroupSize_repetition_and_order
           GroupScenario.with_groups "group-1" "group-2").
  apply (bool_decide_unpack _). by vm_compute.
Defined.











Lemma with_members_same node g :
  data node = OfGroup g -> with_members node g (group_nodes g) = node.
Proof. destruct node, g. cbn. by intros ->. Qed.

Lemma filter_out_added (i : string) (members : list string) :
  i ∉ members ->
  List.filter (fun j => negb (String.eqb j i)) (members ++ [i]) = members.
Proof.
  intros Hnot. rewrite List.filter_app. cbn [List.filter].
  rewrite String.eqb_refl. cbn [negb]. rewrite app_nil_r.
  induction members as [|j members IH]; [done|].
  apply not_elem_of_cons in Hnot as [Hne Hnot]. cbn [List.filter].
  replace (String.eqb j i) with false
    by (symmetry; apply String.eqb_neq; congruence).
  cbn [negb]. by rewrite IH.
Qed.

Lemma filter_out_elem_of (i : string) (members : list string) :
  i ∉ List.filter (fun j => negb (String.eqb j i)) members.
Proof.
  intros [_ Hne]%list_elem_of_In%filter_In.
  by rewrite String.eqb_refl in Hne.
Qed.

(** X20. Membership and geometry are kept apart. [addNodeToGroup] and
    [removeNodeFromGroup] change the member list of the nodes that have the
    given id and a member list, and nothing else: every node keeps its id,
    type, position and style, and the nodes of another id are the same
    nodes. Adding appends the id to the list without looking for it there;
    removing leaves no occurrence of it; and removing an id right after
    adding it gives the canvas back when the id was not listed before. *)
Theorem membership_changes_keep_geometry
    (groupId nodeId : string) (prevNodes : list Node) :
  let added := addNodeToGroup groupId nodeId prevNodes in
  let removed := removeNodeFromGroup groupId nodeId prevNodes in
  let drawn (n : Node) := (id n, type n, position n, style n) in
  drawn <$> added = drawn <$> prevNodes ∧
  drawn <$> removed = drawn <$> prevNodes ∧
  (∀ n, n ∈ prevNodes -> id n ≠ groupId -> n ∈ added ∧ n ∈ removed) ∧
  (∀ g members, g ∈ prevNodes -> id g = groupId ->
     data_nodes g = Some members ->
     ∃ g', g' ∈ added ∧ drawn g' = drawn g
           ∧ data_nodes g' = Some (members ++ [nodeId])) ∧
  (∀ g' members, g' ∈ removed -> id g' = groupId ->
     data_nodes g' = Some members -> nodeId ∉ members) ∧
  ((∀ g members, g ∈ prevNodes -> id g = groupId ->
      data_nodes g = Some members -> nodeId ∉ members) ->
   removeNodeFromGroup groupId nodeId added = prevNodes).
Proof.
  cbn zeta. unfold addNodeToGroup, removeNodeFromGroup. split_and!.
  - rewrite <-list_fmap_compose. apply list_fmap_ext. intros _ n _. cbn.
    destruct (data n); [|done]. by destruct (String.eqb (id n) groupId).
  - rewrite <-list_fmap_compose. apply list_fmap_ext. intros _ n _. cbn.
    destruct (data n); [|done]. by destruct (String.eqb (id n) groupId).
  - intros n Hn Hne%String.eqb_neq.
    split; apply list_elem_of_fmap; exists n; (split; [|done]);
      destruct (data n); try done; by rewrite Hne.
  - intros g members Hg Hid Hdata. unfold data_nodes in Hdata.
    destruct (data g) as [gd|] eqn:Hd; [|done]. injection Hdata as <-.
    exists (with_members g gd (group_nodes gd ++ [nodeId])).
    split_and!; [|done|done].
    apply list_elem_of_fmap. exists g. split; [|done].
    rewrite Hd. apply String.eqb_eq in Hid. by rewrite Hid.
  - intros g' members (n & -> & Hn)%list_elem_of_fmap Hid.
    unfold data_nodes. destruct (data n) as [gd|] eqn:Hd.
    + destruct (String.eqb (id n) groupId) eqn:Heq.
      * cbn. intros [= <-]. apply filter_out_elem_of.
      * apply String.eqb_neq in Heq. done.
    + by rewrite Hd.
  - intros Hnot. rewrite <-list_fmap_compose.
    rewrite <-(list_fmap_id prevNodes) at 2.
    apply Forall_fmap_ext_1, Forall_forall. intros n Hn. cbn.
    destruct (data n) as [gd|] eqn:Hd; [|by rewrite Hd].
    destruct (String.eqb (id n) groupId) eqn:Heq; [|by rewrite Hd, Heq].
    cbn [data id with_members]. rewrite Heq. cbn [group_nodes].
    rewrite filter_out_added.
    + destruct n, gd. cbn in *. by rewrite Hd.
    + apply (Hnot n); [done|by apply String.eqb_eq|].
      unfold data_nodes. by rewrite Hd.
Qed.




Lemma find_fresh (i : string) (l : list Node) :
  i ∉ id <$> l ->
  List.find (fun node => String.eqb (id node) i) l = None.
Proof.
  intros Hfresh. destruct (List.find _ l) as [n|] eqn:Hfind; [|done].
  apply find_elem_of in Hfind as [Hn Hid%String.eqb_eq].
  destruct Hfresh. rewrite <-Hid. by apply list_elem_of_fmap_2.
Qed.

Lemma find_app_fresh (i : string) (l : list Node) (g : Node) :
  i ∉ id <$> l -> id g = i ->
  List.find (fun node => String.eqb (id node) i) (l ++ [g]) = Some g.
Proof.
  intros Hfresh Hid. induction l as [|n l IH].
  - cbn. by rewrite Hid, String.eqb_refl.
  - rewrite fmap_cons in Hfresh.
    apply not_elem_of_cons in Hfresh as [Hne Hfresh].
    cbn [app List.find].
    replace (String.eqb (id n) i) with false; [by apply IH|].
    symmetry. apply String.eqb_neq. congruence.
Qed.

Lemma filter_all {A} (keep also : A -> bool) (l : list A) :
  (∀ a, a ∈ List.filter keep l -> also a = true) ->
  List.filter (fun a => keep a && also a) l = List.filter keep l.
Proof.
  induction l as [|a l IH]; [done|]. intros Hall. cbn [List.filter] in *.
  destruct (keep a) eqn:Hk; cbn [andb].
  - rewrite (Hall a) by (apply elem_of_cons; by left).
    rewrite IH; [done|]. intros b Hb. apply Hall. apply elem_of_cons.
    by right.
  - by apply IH.
Qed.

(** X22. A group is created at the size a resize would give it. When the
    selected nodes on the canvas are not groups themselves and the id of
    the new group is not taken, [updateGroupSize] for the group that
    [handleCreateGroup] has just added changes nothing. *)
Theorem new_group_needs_no_resize (now : Z) (s : State) :
  (∀ n, n ∈ selectedNodeObjects s -> type n ≠ "group") ->
  "group-" +:+ pretty now ∉ id <$> nodes s ->
  let created := nodes (handleCreateGroup now s).1 in
  updateGroupSize ("group-" +:+ pretty now) created = created.
Proof.
  intros Hsteps Hfresh. cbn zeta.
  rewrite updateGroupSize_measured. unfold handleCreateGroup.
  destruct (Js.trim_is_empty (groupName s)).
  { unfold measured. by rewrite find_fresh. }
  destruct (selectedNodeObjects s) as [|first rest] eqn:Hsel.
  { unfold measured. by rewrite find_fresh. }
  cbn [fst nodes].
  set (g := groupNode now s first rest).
  assert (groupNodes (selectedNodes s) (nodes s ++ [g]) = first :: rest)
    as Hmem.
  { unfold groupNodes. rewrite List.filter_app. cbn [List.filter].
    replace (String.eqb (type g) "group") with true by done.
    rewrite andb_false_r, app_nil_r. rewrite <-Hsel.
    unfold selectedNodeObjects. apply filter_all.
    intros n Hn. apply negb_true_iff, String.eqb_neq, Hsteps.
    rewrite <-Hsel. exact Hn. }
  unfold measured. rewrite (find_app_fresh _ _ g) by done.
  replace (String.eqb (type g) "group") with true by done. cbn [negb].
  change (data_nodes g) with (Some (selectedNodes s)). cbv beta iota.
  rewrite Hmem, fmap_app. f_equal.
  - rewrite <-(list_fmap_id (nodes s)) at 2.
    apply Forall_fmap_ext_1, Forall_forall. intros n Hn. unfold redrawn.
    replace (String.eqb (id n) ("group-" +:+ pretty now)) with false; [done|].
    symmetry. apply String.eqb_neq. intros Heq. destruct Hfresh.
    rewrite <-Heq. by apply list_elem_of_fmap_2.
  - cbn [fmap list_fmap]. unfold redrawn.
    change (id g) with ("group-" +:+ pretty now).
    by rewrite String.eqb_refl.
Qed.

Lemma new_group_needs_no_resize_witness :
  let created :=
    nodes (handleCreateGroup 1700000000000 GroupScenario.two_selected).1 in
  updateGroupSize ("group-" +:+ pretty 1700000000000%Z) created = created.
Proof.
  apply (new_group_needs_no_resize 1700000000000 GroupScenario.two_selected).
  - intros n Hn. apply list_elem_of_In in Hn. simpl in Hn.
    destruct Hn as [<-|[<-|[]]]; discriminate.
  - apply (bool_decide_unpack _). by vm_compute.
Defined.

End GroupsMoreFacts.


(** ** The hook and the component, on the same session *)

Module TwoStoresFacts.
Import GraphStore TwoStores.

Section Replay.
Context {Node Edge : Type} `{!EqDecision Node, !EqDecision Edge}.
Implicit Types (r : CanvasHook.Rendered Node Edge) (s : State Node Edge).

Lemma hook_active (p : option Install) a :
  install_id <$> p = Some a -> a ≠ 0 -> CanvasHook.activeInstallId p = Some a.
Proof.
  destruct p as [install|]; [|done]. cbn. intros [= ->] Hne.
  by apply Z.eqb_neq in Hne as ->.
Qed.

Lemma save_active_synced s :
  (∀ a, activeInstallId s = Some a ->
        a ≠ 0 ∧ installCanvases s !! a = Some (live s)) ->
  save_active s (installCanvases s) = installCanvases s.
Proof.
  intros Hsync. unfold save_active.
  destruct (activeInstallId s) as [a|]; [|done].
  destruct (Hsync a eq_refl) as [_ Hlive].
  destruct (Js.truthy (Some a)); [|done]. by apply insert_id.
Qed.

(** Two passes of the effects when the restore guard is closed. *)
Lemma settle_closed (p : option Install) (hs : CanvasHook.HookState Node Edge) :
  CanvasHook.prevInstallIdRef hs = install_id <$> p ->
  let hs' := CanvasHook.settle p hs in
  CanvasHook.nodes hs' = CanvasHook.nodes hs ∧
  CanvasHook.edges hs' = CanvasHook.edges hs ∧
  CanvasHook.installCanvases hs'
    = CanvasHook.commit_update p hs (CanvasHook.installCanvases hs).
Proof.
  intros Hclosed. cbn zeta. unfold CanvasHook.settle.
  destruct (CanvasHookFacts.run_effects_closed_live p hs Hclosed)
    as (Hn & He & _ & _ & Hi & Hm).
  destruct (CanvasHookFacts.run_effects_closed_live p
              (CanvasHook.run_effects p hs))
    as (Hn' & He' & _ & _ & _ & Hm'); [congruence|].
  split_and!; [congruence|congruence|].
  rewrite Hm', Hm. unfold CanvasHook.commit_update. rewrite Hn, He.
  destruct (CanvasHook.activeInstallId p); [|done].
  by rewrite insert_insert_eq.
Qed.

Lemma run_effects_canvases (p : option Install)
    (hs : CanvasHook.HookState Node Edge) :
  CanvasHook.installCanvases (CanvasHook.run_effects p hs)
  = CanvasHook.commit_update p hs (CanvasHook.installCanvases hs).
Proof.
  unfold CanvasHook.run_effects. destruct p as [install|]; [|done].
  by destruct (bool_decide _).
Qed.

(** The commit of the hook and the commit effect of the component write
    the same. *)
Lemma commit_agrees (p : option Install)
    (hs : CanvasHook.HookState Node Edge) s m :
  install_id <$> p = activeInstallId s ->
  (∀ a, activeInstallId s = Some a -> a ≠ 0) ->
  CanvasHook.hook_live hs = live s ->
  CanvasHook.commit_update p hs m = save_active s m.
Proof.
  intros Hp Hnz Hlive. unfold CanvasHook.commit_update, save_active.
  destruct (activeInstallId s) as [a|] eqn:Ha.
  - rewrite (hook_active p a Hp (Hnz a eq_refl)).
    pose proof (Hnz a eq_refl) as Hne. cbn.
    apply Z.eqb_neq in Hne as ->. cbn. by rewrite <-Hlive.
  - destruct p; [done|]. done.
Qed.

Lemma commit_effect_synced s :
  (∀ a, activeInstallId s = Some a -> a ≠ 0) ->
  ∀ a, activeInstallId (commit_effect s) = Some a ->
       a ≠ 0 ∧ installCanvases (commit_effect s) !! a
               = Some (live (commit_effect s)).
Proof.
  intros Hnz a Ha. cbn in Ha. split; [by apply Hnz|].
  cbn [commit_effect installCanvases]. unfold save_active. rewrite Ha.
  pose proof (Hnz a Ha) as Hne. cbn. apply Z.eqb_neq in Hne as ->. cbn.
  by rewrite lookup_insert_eq.
Qed.

(** One shared action keeps the hook and the component in agreement. *)
Lemma agree_step (ev : CanvasHook.HookEvent Node Edge) r s :
  shared_action ev = true ->
  CanvasHook.at_rest r -> agree r s ->
  (∀ a, activeInstallId s = Some a ->
        a ≠ 0 ∧ installCanvases s !! a = Some (live s)) ->
  let s' := match as_component_event ev s with
            | Some cev => (step cev s).1
            | None => s
            end in
  agree (CanvasHook.hook_step ev r) s' ∧
  (∀ a, activeInstallId s' = Some a ->
        a ≠ 0 ∧ installCanvases s' !! a = Some (live s')).
Proof.
  intros Hshared (Hpn & Hpe & Hpi & Hmap) (Hlive & Hcanvases & Hactive) Hsync.
  destruct r as [p hs]. cbn [fst snd] in *.
  pose proof (save_active_synced s Hsync) as Hsaved.
  assert (∀ a, activeInstallId s = Some a -> a ≠ 0) as Hnz
    by (intros a Ha; by destruct (Hsync a Ha)).
  destruct ev as [[install|]|newNode|edgeToAdd|?|?]; try done; cbn zeta.
  - (* a selection *)
    cbn in Hshared. apply negb_true_iff, Z.eqb_neq in Hshared.
    cbn [as_component_event]. unfold CanvasHook.hook_step.
    cbn [fst snd CanvasHook.act].
    set (s1 := handleInstallSelect install s).
    assert (∀ a, activeInstallId s1 = Some a -> a ≠ 0) as Hnz1.
    { intros a [= <-]. done. }
    split; [|by apply commit_effect_synced].
    change ((step (InstallSelect install) s).1) with (commit_effect s1).
    unfold agree. cbn [fst snd].
    assert (live (commit_effect s1)
            = default empty_canvas (installCanvases s !! install_id install))
      as Hlive1.
    { unfold live. cbn. by destruct (default _ _). }
    assert (installCanvases (commit_effect s1)
            = <[install_id install := live (commit_effect s1)]>
                (installCanvases s)) as Hmap1.
    { cbn [commit_effect installCanvases]. unfold save_active at 1.
      cbn [activeInstallId s1 handleInstallSelect].
      apply Z.eqb_neq in Hshared as Hz. cbn. rewrite Hz. cbn.
      by rewrite Hsaved. }
    assert (CanvasHook.activeInstallId (Some install)
            = Some (install_id install)) as Hhook.
    { cbn. apply Z.eqb_neq in Hshared as ->. done. }
    destruct (decide (Some (install_id install)
                      = CanvasHook.prevInstallIdRef hs)) as [Heq|Hne].
    + (* the installation is selected already *)
      destruct (settle_closed (Some install) hs) as (Hn & He & Hm);
        [done|].
      assert (CanvasHook.hook_live (CanvasHook.settle (Some install) hs)
              = live (commit_effect s1)) as Hsame.
      { rewrite Hlive1. unfold CanvasHook.hook_live at 1. rewrite Hn, He.
        fold (CanvasHook.hook_live hs). rewrite Hlive.
        destruct (Hsync (install_id install)) as [_ ->]; [congruence|].
        done. }
      split_and!; [done| |done].
      rewrite Hm, Hmap1, <-Hsame. unfold CanvasHook.commit_update.
      rewrite Hhook, Hcanvases. unfold CanvasHook.hook_live.
      by rewrite Hn, He.
    + (* another installation is selected *)
      destruct (CanvasHookFacts.run_effects_restores hs install Hpn Hpe Hne)
        as (Hrestored & _ & _).
      pose proof (CanvasHookFacts.run_effects_prev (Some install) hs install
                    eq_refl) as Hprev.
      pose proof (run_effects_canvases (Some install) hs) as Hm1.
      set (hs1 := CanvasHook.run_effects (Some install) hs) in *.
      destruct (CanvasHookFacts.run_effects_closed_live (Some install) hs1)
        as (Hn & He & _ & _ & _ & Hm); [done|].
      assert (CanvasHook.hook_live (CanvasHook.settle (Some install) hs)
              = live (commit_effect s1)) as Hsame.
      { rewrite Hlive1, <-Hcanvases, <-Hrestored.
        unfold CanvasHook.settle. fold hs1.
        unfold CanvasHook.hook_live. by rewrite Hn, He. }
      unfold CanvasHook.settle in *. fold hs1 in Hsame |- *.
      split_and!; [done| |done].
      rewrite Hm, Hm1, Hmap1, <-Hsame. unfold CanvasHook.commit_update.
      rewrite Hhook, Hcanvases, insert_insert_eq.
      unfold CanvasHook.hook_live. by rewrite Hn, He.
  - (* a node is added *)
    cbn [as_component_event]. unfold CanvasHook.hook_step.
    cbn [fst snd CanvasHook.act].
    set (hs1 := {| CanvasHook.nodes := _ |}).
    set (s1 := handle (NodesChange (nodes s ++ [newNode])) s).
    change ((step (NodesChange (nodes s ++ [newNode])) s).1)
      with (commit_effect s1).
    destruct (settle_closed p hs1 Hpi) as (Hn & He & Hm).
    assert (CanvasHook.hook_live hs1 = live s1) as Hlive1.
    { injection Hlive as Hnodes Hedges. unfold CanvasHook.hook_live, live.
      cbn. by rewrite Hnodes, Hedges. }
    split; [|by apply commit_effect_synced].
    unfold agree. cbn [fst snd]. split_and!; [| |done].
    + unfold CanvasHook.hook_live. rewrite Hn, He. exact Hlive1.
    + rewrite Hm. cbn [commit_effect installCanvases].
      change (CanvasHook.installCanvases hs1)
        with (CanvasHook.installCanvases hs).
      rewrite Hcanvases. by apply commit_agrees.
  - (* an edge is added *)
    cbn [as_component_event]. unfold CanvasHook.hook_step.
    cbn [fst snd CanvasHook.act].
    set (hs1 := {| CanvasHook.nodes := _ |}).
    set (s1 := handle (EdgesChange (edges s ++ [edgeToAdd])) s).
    change ((step (EdgesChange (edges s ++ [edgeToAdd])) s).1)
      with (commit_effect s1).
    destruct (settle_closed p hs1 Hpi) as (Hn & He & Hm).
    assert (CanvasHook.hook_live hs1 = live s1) as Hlive1.
    { injection Hlive as Hnodes Hedges. unfold CanvasHook.hook_live, live.
      cbn. by rewrite Hnodes, Hedges. }
    split; [|by apply commit_effect_synced].
    unfold agree. cbn [fst snd]. split_and!; [| |done].
    + unfold CanvasHook.hook_live. rewrite Hn, He. exact Hlive1.
    + rewrite Hm. cbn [commit_effect installCanvases].
      change (CanvasHook.installCanvases hs1)
        with (CanvasHook.installCanvases hs).
      rewrite Hcanvases. by apply commit_agrees.
Qed.

Lemma shared_is_own (evs : list (CanvasHook.HookEvent Node Edge)) :
  forallb shared_action evs = true ->
  forallb CanvasHook.own_action evs = true.
Proof.
  induction evs as [|ev evs IH]; [done|]. cbn [forallb].
  intros [Hev Hevs]%andb_true_iff. rewrite IH by done.
  by destruct ev as [[?|]| | | |].
Qed.

Lemma replay_agrees (evs : list (CanvasHook.HookEvent Node Edge)) :
  forallb shared_action evs = true ->
  agree (CanvasHook.hook_run evs) (replay evs) ∧
  (∀ a, activeInstallId (replay evs) = Some a ->
        a ≠ 0 ∧ installCanvases (replay evs) !! a
                = Some (live (replay evs))).
Proof.
  induction evs as [|ev evs IH] using rev_ind; [done|].
  rewrite forallb_app. cbn [forallb]. rewrite andb_true_r.
  intros [Hevs Hev]%andb_true_iff.
  destruct (IH Hevs) as [Hagree Hsync].
  unfold CanvasHook.hook_run, replay. rewrite !foldl_snoc.
  apply agree_step; try done.
  by apply CanvasHookFacts.hook_run_at_rest, shared_is_own.
Qed.

(** X23. The hook and the component are two implementations of one store.
    For every session of selections of installations whose id is not 0 and
    of added nodes and edges, the hook, once its effects have come to rest,
    and the component, after the same clicks, show the same canvas, hold
    the same snapshot for every installation and have the same installation
    active. *)
Theorem hook_and_component_agree
    (evs : list (CanvasHook.HookEvent Node Edge)) :
  forallb shared_action evs = true ->
  agree (CanvasHook.hook_run evs) (replay evs).
Proof. intros Hshared. by apply replay_agrees. Qed.

End Replay.

Lemma hook_and_component_agree_witness :
  agree
    (CanvasHook.hook_run
       [CanvasHook.SelectedInstall (Some Scenario.installation_A);
        CanvasHook.AddNode Scenario.slab_node;
        CanvasHook.SelectedInstall (Some Scenario.installation_B);
        CanvasHook.SelectedInstall (Some Scenario.installation_A)])
    (replay (Edge := EdgeSync.Edge)
       [CanvasHook.SelectedInstall (Some Scenario.installation_A);
        CanvasHook.AddNode Scenario.slab_node;
        CanvasHook.SelectedInstall (Some Scenario.installation_B);
        CanvasHook.SelectedInstall (Some Scenario.installation_A)]).
Proof.
  apply (hook_and_component_agree
           [CanvasHook.SelectedInstall (Some Scenario.installation_A);
            CanvasHook.AddNode Scenario.slab_node;
            CanvasHook.SelectedInstall (Some Scenario.installation_B);
            CanvasHook.SelectedInstall (Some Scenario.installation_A)]).
  reflexivity.
Defined.

End TwoStoresFacts.


(** ** The effects of the canvas hook come to rest *)

Module CanvasHookMoreFacts.
Import GraphStore CanvasHook CanvasHookFacts.

Section Hook.
Context {Node Edge : Type} `{!EqDecision Node, !EqDecision Edge}.

(** X24. The renders the effects of the hook trigger stop. From any state
    and under any selection, a second pass of the effects changes nothing
    but the snapshot map, and a third pass changes nothing at all; so the
    state the hook is left in after any session is a fixed point of its
    effects. *)
Theorem effects_come_to_rest
    (selectedInstall : option Install) (s : HookState Node Edge)
    (evs : list (HookEvent Node Edge)) :
  let once := run_effects selectedInstall s in
  let twice := settle selectedInstall s in
  (nodes twice = nodes once ∧ edges twice = edges once ∧
   prevNodesRef twice = prevNodesRef once ∧
   prevEdgesRef twice = prevEdgesRef once ∧
   prevInstallIdRef twice = prevInstallIdRef once) ∧
  run_effects selectedInstall twice = twice ∧
  run_effects (hook_run evs).1 (hook_run evs).2 = (hook_run evs).2.
Proof.
  cbn zeta. split_and!; [..|apply run_effects_settle|apply hook_run_settled].
  all: unfold settle; rewrite (run_effects_closed selectedInstall
                                 (run_effects selectedInstall s));
    [done|intros; by apply run_effects_prev].
Qed.

End Hook.

End CanvasHookMoreFacts.


(** ** Saving a canvas and reading it back *)

Module FlowApiFacts.
Import FlowApi.

Section Api.
Context {Data Style Rest : Type}.
Implicit Types (nodes : list (Node Data Style Rest)).
Implicit Types (edges : list (Edge Data Style Rest)).
Implicit Types (service : Service).

Lemma sent_app (l1 l2 : list (Event Data Style)) : sent (l1 ++ l2) = sent l1 ++ sent l2.
Proof. apply omap_app. Qed.

Lemma createNode_sent service body k :
  sent (createNode (Data:=Data) (Style:=Style) service body k).2.2
  = [PostNode body].
Proof.
  unfold createNode, call, console_error, mbind, mret, api_bind, api_ret.
  by destruct (answers service k).
Qed.

Lemma createEdge_sent service body k :
  sent (createEdge (Data:=Data) (Style:=Style) service body k).2.2
  = [PostEdge body].
Proof.
  unfold createEdge, call, console_error, mbind, mret, api_bind, api_ret.
  by destruct (answers service k).
Qed.

Lemma updateViewport_sent service flowId v k :
  sent (updateViewport (Data:=Data) (Style:=Style) service flowId v k).2.2
  = [PutViewport flowId v].
Proof.
  unfold updateViewport, call, console_error, mbind, mret, api_bind, api_ret.
  by destruct (answers service k).
Qed.

Lemma for_each_sent {A} (f : A -> Api Data Style ())
    (g : A -> Request Data Style)
    (l : list A) :
  (∀ a k, sent (f a k).2.2 = [g a]) ->
  ∀ k, sent (for_each f l k).2.2 = g <$> l.
Proof.
  intros Hf. induction l as [|a l IH]; intros k; [done|].
  cbn [for_each]. unfold mbind, api_bind.
  specialize (Hf a k). destruct (f a k) as [[] [k1 log1]].
  specialize (IH k1). destruct (for_each f l k1) as [[] [k2 log2]].
  cbn [fst snd] in *. by rewrite sent_app, Hf, IH.
Qed.

Lemma save_under_run service flowId nodes edges viewport k :
  (save_under service flowId nodes edges viewport k).1 = true ∧
  sent (save_under service flowId nodes edges viewport k).2.2
  = canvas_requests flowId nodes edges viewport.
Proof.
  unfold save_under, canvas_requests, mbind, mret, api_bind, api_ret.
  pose proof (for_each_sent
                (fun node => createNode service (node_payload flowId node))
                (fun node => PostNode (node_payload flowId node)) nodes
                (fun a k => createNode_sent service _ k) k) as Hn.
  destruct (for_each _ nodes k) as [[] [k1 log1]].
  pose proof (for_each_sent
                (fun edge => createEdge service (edge_payload flowId edge))
                (fun edge => PostEdge (edge_payload flowId edge)) edges
                (fun a k => createEdge_sent service _ k) k1) as He.
  destruct (for_each _ edges k1) as [[] [k2 log2]].
  pose proof (updateViewport_sent service flowId viewport k2) as Hv.
  destruct (updateViewport service flowId viewport k2) as [ok [k3 log3]].
  cbn [fst snd] in *. split; [done|].
  by rewrite !sent_app, Hn, He, Hv, app_nil_r.
Qed.

(** X25. [saveFlowState] reports failure only when it has no flow to
    save under. With a flow id, or after the service has answered the
    creation of a flow, it returns true and sends one request per node in
    order, one per edge in order and one for the viewport, all under that
    flow id, whatever the service answers to them; without a flow id and
    with the creation unanswered it returns false and sends nothing
    else. *)
Theorem saveFlowState_verdict_and_requests
    (service : Service) (flowId : string)
    (nodes : list (Node Data Style Rest))
    (edges : list (Edge Data Style Rest)) (viewport : Viewport) :
  let run := saveFlowState service flowId nodes edges viewport 0%nat in
  let creation : Request Data Style :=
    PostFlow "새 플로우" "새로 생성된 플로우" in
  (flowId ≠ "" ->
     run.1 = true ∧
     sent run.2.2 = canvas_requests flowId nodes edges viewport) ∧
  (flowId = "" -> answers service 0%nat = true ->
     run.1 = true ∧
     sent run.2.2
       = creation
         :: canvas_requests (new_flow_id service) nodes edges viewport) ∧
  (flowId = "" -> answers service 0%nat = false ->
     run.1 = false ∧ sent run.2.2 = [creation]).
Proof.
  cbn zeta. unfold saveFlowState. split_and!.
  - intros Hne%String.eqb_neq. rewrite Hne. apply save_under_run.
  - intros -> Hok. cbn [String.eqb].
    unfold createFlow, call, console_error, mbind, mret, api_bind, api_ret.
    rewrite Hok.
    destruct (save_under_run service (new_flow_id service) nodes edges
                viewport 1) as [Hv Hs].
    destruct (save_under _ _ _ _ _ 1%nat) as [ok [k log]].
    cbn [fst snd] in *. split; [done|]. by rewrite sent_app, Hs.
  - intros -> Hno. cbn [String.eqb].
    unfold createFlow, call, console_error, mbind, mret, api_bind, api_ret.
    by rewrite Hno.
Qed.

Lemma stored_nodes flowId nodes :
  omap (fun r : Request Data Style =>
          match r with PostNode body => Some body | _ => None end)
       ((fun node => PostNode (node_payload flowId node)) <$> nodes)
  = node_payload flowId <$> nodes.
Proof. induction nodes as [|n l IH]; [done|]. cbn. by rewrite <-IH. Qed.

Lemma stored_edges flowId edges :
  omap (fun r : Request Data Style =>
          match r with PostEdge body => Some body | _ => None end)
       ((fun edge => PostEdge (edge_payload flowId edge)) <$> edges)
  = edge_payload flowId <$> edges.
Proof. induction edges as [|e l IH]; [done|]. cbn. by rewrite <-IH. Qed.

Lemma edges_hold_no_node flowId edges :
  omap (fun r : Request Data Style =>
          match r with PostNode body => Some body | _ => None end)
       ((fun edge => PostEdge (edge_payload flowId edge)) <$> edges)
  = [].
Proof. induction edges as [|e l IH]; [done|]. cbn. by rewrite <-IH. Qed.

Lemma nodes_hold_no_edge flowId nodes :
  omap (fun r : Request Data Style =>
          match r with PostEdge body => Some body | _ => None end)
       ((fun node => PostNode (node_payload flowId node)) <$> nodes)
  = [].
Proof. induction nodes as [|n l IH]; [done|]. cbn. by rewrite <-IH. Qed.

(** X26. What is saved reads back. When the service stores the nodes and
    edges it was sent, [convertBackendToFrontend] of the stored state gives
    back the flow id, the viewport, and the nodes and edges of the canvas
    in order, each with its id, type, position, data, size and style (for
    an edge: its ends, handles, type, data and style) and without any other
    property it had; a canvas without such other properties reads back as
    it was. *)
Theorem saved_canvas_reads_back
    (service : Service) (flowId : string)
    (nodes : list (Node Data Style Rest))
    (edges : list (Edge Data Style Rest)) (viewport : Viewport) :
  flowId ≠ "" ->
  let run := saveFlowState service flowId nodes edges viewport 0%nat in
  let back :=
    convertBackendToFrontend (stored flowId viewport (sent run.2.2)) in
  FlowApi.flowId back = flowId ∧
  FlowApi.viewport back = viewport ∧
  FlowApi.nodes back = saved_node <$> nodes ∧
  FlowApi.edges back = saved_edge <$> edges ∧
  (Forall (fun node => node_rest node = None) nodes ->
   Forall (fun edge => edge_rest edge = None) edges ->
   FlowApi.nodes back = nodes ∧ FlowApi.edges back = edges).
Proof.
  intros Hne%String.eqb_neq. cbn zeta. unfold saveFlowState. rewrite Hne.
  destruct (save_under_run service flowId nodes edges viewport 0) as [_ ->].
  unfold convertBackendToFrontend, stored, canvas_requests.
  cbn [FlowApi.flowId FlowApi.viewport FlowApi.nodes FlowApi.edges flow
       flow_id flow_viewport backend_nodes backend_edges].
  rewrite !omap_app, stored_nodes, stored_edges, edges_hold_no_node,
    nodes_hold_no_edge.
  cbn [omap list_omap app]. rewrite !app_nil_r.
  rewrite <-!list_fmap_compose.
  assert ((fun nodeData =>
             {| id := n_node_id nodeData; type := n_type nodeData;
                position := n_position nodeData; data := n_data nodeData;
                width := n_width nodeData; height := n_height nodeData;
                style := n_style nodeData; node_rest := None |})
            ∘ node_payload flowId <$> nodes = saved_node <$> nodes)
    as Hnodes by done.
  assert ((fun edgeData =>
             {| edge_id := e_edge_id edgeData; source := e_source edgeData;
                target := e_target edgeData;
                sourceHandle := e_source_handle edgeData;
                targetHandle := e_target_handle edgeData;
                edge_type := e_type edgeData; edge_data := e_data edgeData;
                edge_style := e_style edgeData; edge_rest := None |})
            ∘ edge_payload flowId <$> edges = saved_edge <$> edges)
    as Hedges by done.
  split_and!; [done|done|done|done|].
  intros Hn He. rewrite Hnodes, Hedges. split.
  - rewrite <-(list_fmap_id nodes) at 2.
    apply Forall_fmap_ext_1. eapply Forall_impl; [exact Hn|].
    intros [] Hrest. cbn in *. by rewrite Hrest.
  - rewrite <-(list_fmap_id edges) at 2.
    apply Forall_fmap_ext_1. eapply Forall_impl; [exact He|].
    intros [] Hrest. cbn in *. by rewrite Hrest.
Qed.

End Api.

Lemma saved_canvas_reads_back_witness :
  let service := {| answers := fun _ => false; new_flow_id := "f2" |} in
  let nodes : list (Node string () ()) :=
    [{| id := "n1"; type := Some "processNode";
        position := {| NodeFactory.x := 250; NodeFactory.y := 250 |};
        data := "step"; width := None; height := None; style := None;
        node_rest := Some () |}] in
  let edges : list (Edge string () ()) := [] in
  let viewport := {| vx := 0; vy := 0; zoom := 1 |} in
  let run := saveFlowState service "f1" nodes edges viewport 0%nat in
  let back :=
    convertBackendToFrontend (stored "f1" viewport (sent run.2.2)) in
  FlowApi.flowId back = "f1" ∧
  FlowApi.viewport back = viewport ∧
  FlowApi.nodes back = saved_node <$> nodes ∧
  FlowApi.edges back = saved_edge <$> edges ∧
  (Forall (fun node => node_rest node = None) nodes ->
   Forall (fun edge => edge_rest edge = None) edges ->
   FlowApi.nodes back = nodes ∧ FlowApi.edges back = edges).
Proof.
  intros service nodes edges viewport.
  apply (saved_canvas_reads_back service "f1" nodes edges viewport).
  discriminate.
Defined.

End FlowApiFacts.


(** ** The direct emissions modal *)

Module MatDirFacts.
Import MatDir.








End MatDirFacts.
